(** * Au-pair backend: match scoring and booking conflicts

    A shallow embedding of the two algorithmic pieces of the backend:

    - [utils/matching.ts]: [calculateMatchScore] with its four helpers and
      the ranking operation [findMatches];
    - [routes/bookings.ts]: the handler of [POST /] with its date validation
      and the conflicting-booking query.

    JavaScript numbers are IEEE 754 binary64 values; they are modelled by
    Rocq's primitive floats, whose operations are the same binary64
    operations.  Dates are modelled by their time value, an integer number
    of milliseconds.  The persistent store is an explicit value that the
    handlers receive and return. *)

From Stdlib Require Import ZArith List String Ascii Bool Floats Lia.
From Stdlib Require Import Permutation Sorted.
Import ListNotations.

Set Warnings "-inexact-float".

Local Open Scope Z_scope.

(** ** JavaScript numbers *)

Module JsNumber.

(** A JS [number]. *)
Definition number := float.

(** The number an integer converts to.  The conversion is exact for
    [|z| < 2^53], which covers array lengths (below [2^32]) and the time
    values of dates (at most [8.64e15] in magnitude); the model is not
    meant for integers of 63 bits or more. *)
Definition Z2F (z : Z) : number :=
  if z <? 0 then (- of_uint63 (Uint63.of_Z (- z)))%float
  else of_uint63 (Uint63.of_Z z).

(** [!x] is false exactly for the numbers [0], [-0] and [NaN]. *)
Definition truthy (x : number) : bool :=
  negb (PrimFloat.eqb x 0 || PrimFloat.is_nan x).

(** [Math.floor]: the largest integer not above [x]; zeros, infinities,
    [NaN] and the numbers that are integers already are returned as they
    are. *)
Definition Math_floor (x : number) : number :=
  match Prim2SF x with
  | S754_finite s m e =>
      if 0 <=? e then x
      else Z2F (Z.shiftr (cond_Zopp s (Zpos m)) (- e))
  | _ => x
  end.

(** [Math.round]: the integer nearest to [x], a tie going up, computed
    exactly as [floor (x + 1/2)]; a result that is zero keeps the sign of
    [x]. *)
Definition Math_round (x : number) : number :=
  match Prim2SF x with
  | S754_finite s m e =>
      if 0 <=? e then x
      else
        let n := Z.shiftr (2 * cond_Zopp s (Zpos m) + 2 ^ (- e)) (- e + 1) in
        if (n =? 0) && s then neg_zero else Z2F n
  | _ => x
  end.

(** [Number.isInteger]. *)
Definition isInteger (x : number) : bool :=
  match Prim2SF x with
  | S754_zero _ => true
  | S754_finite _ m e =>
      (0 <=? e) || (Z.land (Zpos m) (Z.ones (- e)) =? 0)
  | _ => false
  end.

End JsNumber.
Import JsNumber.

(** ** Strings and dates *)

(** [String.prototype.toLowerCase] belongs to the JS runtime, not to the
    repository: the scorer is written against this interface, and every
    general statement below holds whatever the lower-casing function is. *)
Class StringCase := { toLowerCase : string -> string }.

(** A valid [Date] object, given by its time value in milliseconds since
    the epoch.  Relational operators on dates compare the time values. *)
Definition Date := Z.

Definition getTime (d : Date) : number := Z2F d.

(** [x || []] on an optional array. *)
Definition orEmpty {A : Type} (o : option (list A)) : list A :=
  match o with
  | Some l => l
  | None => []
  end.

(** [arr?.includes(x)] on an optional array of strings, read as a condition:
    an absent array gives [undefined], an absent [x] is found in no array of
    strings. *)
Definition includes (arr : option (list string)) (x : option string) : bool :=
  match arr, x with
  | Some l, Some c => existsb (String.eqb c) l
  | _, _ => false
  end.

(** ** The profiles, as far as the scorer reads them *)

Record AuPairProfile := {
  languages : option (list string);
  preferredCountries : option (list string);
  dateOfBirth : option Date;
  availableFrom : option Date;
  availableTo : option Date;
  hourlyRate : option number
}.

Record HostFamilyProfile := {
  preferredLanguages : option (list string);
  country : option string;
  childrenAges : option (list number);
  maxBudget : option number
}.

(** One call of [calculateMatchScore] reads the system clock twice. *)
Record Clock := {
  dateNow : Date;   (* [Date.now()] in [calculateAgeMatch] *)
  newDate : Date    (* [new Date()] in [calculateMatchScore] *)
}.

(** ** [utils/matching.ts] *)

Section Matching.

Context {string_case : StringCase}.

Local Open Scope float_scope.

(** The share of the preferred languages that the au pair's languages
    match, in percent: every language of the au pair that equals some
    preferred language up to case is counted. *)
Definition calculateLanguageMatch (auPairLangs hostPreferredLangs : list string) : number :=
  if (List.length hostPreferredLangs =? 0)%nat then 100
  else
    let commonLanguages :=
      filter (fun lang =>
                existsb (fun preferred =>
                           String.eqb (toLowerCase preferred) (toLowerCase lang))
                        hostPreferredLangs)
             auPairLangs in
    Z2F (Z.of_nat (List.length commonLanguages))
      / Z2F (Z.of_nat (List.length hostPreferredLangs)) * 100.

(** [now] is the value of [Date.now()]. *)
Definition calculateAgeMatch (now : Date) (auPairBirthDate : option Date)
    (childrenAges : list number) : number :=
  match auPairBirthDate with
  | None => 50
  | Some birth =>
      if (List.length childrenAges =? 0)%nat then 50
      else
        let auPairAge :=
          Math_floor ((getTime now - getTime birth)
                        / (365.25 * 24 * 60 * 60 * 1000)) in
        let hasYoungChildren := existsb (fun age => age <=? 10) childrenAges in
        let hasTeens := existsb (fun age => 11 <=? age) childrenAges in
        if hasYoungChildren && (18 <=? auPairAge) && (auPairAge <=? 30) then 100
        else if hasTeens && (20 <=? auPairAge) && (auPairAge <=? 35) then 100
        else if (18 <=? auPairAge) && (auPairAge <=? 35) then 70
        else 30
  end.

(** The three parameters are optional; a date that is given is a valid
    [Date] object, which is truthy. *)
Definition calculateAvailabilityMatch
    (auPairFrom auPairTo hostPreferredStart : option Date) : number :=
  match auPairFrom, auPairTo, hostPreferredStart with
  | Some from, Some to, Some start =>
      if ((from <=? start) && (start <=? to))%Z then 100
      else
        let timeDiff := abs (getTime start - getTime from) in
        let daysDiff := timeDiff / (1000 * 60 * 60 * 24) in
        if daysDiff <=? 30 then 80
        else if daysDiff <=? 90 then 60
        else if daysDiff <=? 180 then 30
        else 10
  | _, _, _ => 50
  end.

(** [!auPairRate || !hostBudget] holds for an amount that is missing and
    for the numbers [0], [-0] and [NaN]. *)
Definition calculateBudgetMatch (auPairRate hostBudget : option number) : number :=
  match auPairRate, hostBudget with
  | Some rate, Some budget =>
      if negb (truthy rate) || negb (truthy budget) then 50
      else if rate <=? budget then 100
      else
        let overBudgetRatio := rate / budget in
        if overBudgetRatio <=? 1.2 then 70
        else if overBudgetRatio <=? 1.5 then 40
        else 10
  | _, _ => 50
  end.

(** The statements of the function in their order, [score] being
    reassigned by each [+=].  The function also declares
    [let maxScore = 100], which it never reads. *)
Definition calculateMatchScore (clock : Clock)
    (auPairProfile : AuPairProfile) (hostProfile : HostFamilyProfile) : number :=
  let score := 0 in
  let languageScore :=
    calculateLanguageMatch (orEmpty (languages auPairProfile))
                           (orEmpty (preferredLanguages hostProfile)) in
  let score := score + languageScore * 0.3 in
  let score :=
    if includes (preferredCountries auPairProfile) (country hostProfile)
    then score + 25 else score in
  let ageScore :=
    calculateAgeMatch (dateNow clock) (dateOfBirth auPairProfile)
                      (orEmpty (childrenAges hostProfile)) in
  let score := score + ageScore * 0.2 in
  let availabilityScore :=
    calculateAvailabilityMatch (availableFrom auPairProfile)
                               (availableTo auPairProfile)
                               (Some (newDate clock)) in
  let score := score + availabilityScore * 0.15 in
  let budgetScore :=
    calculateBudgetMatch (hourlyRate auPairProfile) (maxBudget hostProfile) in
  let score := score + budgetScore * 0.1 in
  Math_round score.

End Matching.

(** ** Lower-casing of ASCII strings

    On a string of ASCII characters [String.prototype.toLowerCase] maps the
    letters [A]-[Z] to [a]-[z] and keeps every other character, which is
    what [lowerString] does.  It is not the lower-casing of strings with
    other characters (it keeps their bytes, where the JS runtime lower-cases
    the letters of every alphabet), and nothing below reads it as such: the
    statements about the scorer are made for every [StringCase], and the
    instance [AsciiCase] serves to evaluate the scorer on the examples,
    whose strings are all ASCII. *)

Definition isUpperAscii (c : ascii) : bool :=
  ((65 <=? nat_of_ascii c) && (nat_of_ascii c <=? 90))%nat.

Definition lowerAscii (c : ascii) : ascii :=
  if isUpperAscii c then ascii_of_nat (nat_of_ascii c + 32) else c.

Fixpoint lowerString (s : string) : string :=
  match s with
  | EmptyString => EmptyString
  | String c s' => String (lowerAscii c) (lowerString s')
  end.

#[export] Instance AsciiCase : StringCase := {| toLowerCase := lowerString |}.

(** ** Arrays: [sort] and [slice] *)

Section JsArray.

Context {A : Type}.

(** [Array.prototype.sort(comparefn)] is stable, and for a consistent
    comparison function its result is determined: the elements in the
    order of [comparefn], those that compare equal in their original
    order.  It is modelled by the stable insertion sort: an element moves
    behind another one only when [comparefn] says it sorts after it (a
    positive result; zero and [NaN] leave the two as they are). *)
Fixpoint insert (comparefn : A -> A -> number) (x : A) (l : list A) : list A :=
  match l with
  | [] => [x]
  | y :: l' =>
      if (0 <? comparefn x y)%float then y :: insert comparefn x l'
      else x :: l
  end.

Fixpoint sort (comparefn : A -> A -> number) (l : list A) : list A :=
  match l with
  | [] => []
  | x :: l' => insert comparefn x (sort comparefn l')
  end.

(** [arr.slice(0, end)] for an integer [end]: a negative [end] counts from
    the end of the array. *)
Definition slice0 (l : list A) (end_ : Z) : list A :=
  let len := Z.of_nat (List.length l) in
  let final := if end_ <? 0 then Z.max (len + end_) 0 else Z.min end_ len in
  firstn (Z.to_nat final) l.

End JsArray.

(** ** Users and [findMatches] *)

Inductive Role := AU_PAIR | HOST_FAMILY | ADMIN.

Definition Role_eqb (a b : Role) : bool :=
  match a, b with
  | AU_PAIR, AU_PAIR | HOST_FAMILY, HOST_FAMILY | ADMIN, ADMIN => true
  | _, _ => false
  end.

(** A row of the user table with the two profiles it includes. *)
Record User := {
  id : string;
  role : Role;
  isActive : bool;
  auPairProfile : option AuPairProfile;
  hostFamilyProfile : option HostFamilyProfile
}.

(** [{ ...user, matchScore }]. *)
Record ScoredUser := {
  user : User;
  matchScore : number
}.

(** A call that returns a value or throws an [Error] with a message. *)
Inductive Result (A : Type) :=
  | Ok (value : A)
  | Throw (message : string).
Arguments Ok {A} value.
Arguments Throw {A} message.

Section FindMatches.

Context {string_case : StringCase}.

(** [prisma.user.findUnique({ where: { id } })]. *)
Definition findUnique (users : list User) (userId : string) : option User :=
  find (fun u => String.eqb (id u) userId) users.

(** [prisma.user.findMany({ where: { role, isActive: true, id: { not } } })],
    the rows in the order the store lists them. *)
Definition findMany (users : list User) (r : Role) (userId : string) : list User :=
  filter (fun u => Role_eqb (role u) r && isActive u && negb (String.eqb (id u) userId))
         users.

(** [hostFamilies.filter(host => host.hostFamilyProfile).map(host => ...)]:
    the [i]-th call of [calculateMatchScore] reads the clock as [clock i]. *)
Fixpoint scoreHosts (clock : nat -> Clock) (i : nat) (auPair : AuPairProfile)
    (hostFamilies : list User) : list ScoredUser :=
  match hostFamilies with
  | [] => []
  | host :: rest =>
      match hostFamilyProfile host with
      | Some hp =>
          {| user := host; matchScore := calculateMatchScore (clock i) auPair hp |}
            :: scoreHosts clock (S i) auPair rest
      | None => scoreHosts clock i auPair rest
      end
  end.

(** [auPairs.filter(auPair => auPair.auPairProfile).map(auPair => ...)]. *)
Fixpoint scoreAuPairs (clock : nat -> Clock) (i : nat) (host : HostFamilyProfile)
    (auPairs : list User) : list ScoredUser :=
  match auPairs with
  | [] => []
  | auPair :: rest =>
      match auPairProfile auPair with
      | Some ap =>
          {| user := auPair; matchScore := calculateMatchScore (clock i) ap host |}
            :: scoreAuPairs clock (S i) host rest
      | None => scoreAuPairs clock i host rest
      end
  end.

(** The array [potentialMatches] of [findMatches], before it is sorted. *)
Definition potentialMatches (clock : nat -> Clock) (users : list User)
    (u : User) : list ScoredUser :=
  match role u, auPairProfile u, hostFamilyProfile u with
  | AU_PAIR, Some ap, _ =>
      scoreHosts clock 0 ap (findMany users HOST_FAMILY (id u))
  | HOST_FAMILY, _, Some hp =>
      scoreAuPairs clock 0 hp (findMany users AU_PAIR (id u))
  | _, _, _ => []
  end.

(** [(a, b) => b.matchScore - a.matchScore]. *)
Definition byScoreDesc (a b : ScoredUser) : number :=
  (matchScore b - matchScore a)%float.

(** [findMatches(userId, limit = 20)]; [limit] is an integer, [None] when
    the caller leaves it out. *)
Definition findMatches (clock : nat -> Clock) (users : list User)
    (userId : string) (limit : option Z) : Result (list ScoredUser) :=
  let limit := match limit with Some n => n | None => 20 end in
  match findUnique users userId with
  | None => Throw "User not found"
  | Some u => Ok (slice0 (sort byScoreDesc (potentialMatches clock users u)) limit)
  end.

(** [GET /potential]: [parseInt(req.query.limit) || 20], where the query
    parameter parses to an integer or to [NaN] ([None]). *)
Definition requestedLimit (parsed : option Z) : Z :=
  match parsed with
  | Some n => if n =? 0 then 20 else n
  | None => 20
  end.

(** The matches the route sends; a [Throw] is answered with status 500. *)
Definition getPotential (clock : nat -> Clock) (users : list User)
    (userId : string) (parsedLimit : option Z) : Result (list ScoredUser) :=
  findMatches clock users userId (Some (requestedLimit parsedLimit)).

End FindMatches.

(** ** [routes/bookings.ts]: creating a booking *)

Module MatchStatus.
Inductive t := PENDING | APPROVED | REJECTED.
Definition eqb (a b : t) : bool :=
  match a, b with
  | PENDING, PENDING | APPROVED, APPROVED | REJECTED, REJECTED => true
  | _, _ => false
  end.
End MatchStatus.

Module BookingStatus.
Inductive t := PENDING | APPROVED | REJECTED | CANCELLED | COMPLETED.
Definition eqb (a b : t) : bool :=
  match a, b with
  | PENDING, PENDING | APPROVED, APPROVED | REJECTED, REJECTED
  | CANCELLED, CANCELLED | COMPLETED, COMPLETED => true
  | _, _ => false
  end.
End BookingStatus.

(** A row of the match table. *)
Record MatchRow := {
  matchHostId : string;
  matchAuPairId : string;
  matchStatus : MatchStatus.t
}.

(** A row of the booking table.  The payload of a booking (hours, rate,
    amount, currency, notes) is stored as it is sent and plays no part in
    any check; it is left out. *)
Record Booking := {
  auPairId : string;
  hostId : string;
  startDate : Date;
  endDate : Date;
  status : BookingStatus.t
}.

Record Store := {
  users : list User;
  matches : list MatchRow;
  bookings : list Booking
}.

(** The request of [POST /]: the authenticated user and the body.  The two
    dates are the instants the strings of the body parse to with
    [new Date(...)]; [None] is a field the body leaves out.  A body whose
    date strings parse to no date is outside the model. *)
Record BookingRequest := {
  userId : string;
  userRole : Role;
  targetUserId : option string;
  reqStartDate : option Date;
  reqEndDate : option Date
}.

Record Response := {
  statusCode : Z;
  message : string
}.

(** [status: { in: [...] }]. *)
Definition statusIn (s : BookingStatus.t) (l : list BookingStatus.t) : bool :=
  existsb (BookingStatus.eqb s) l.

(** The [where] clause of the conflicting-booking query. *)
Definition conflictWhere (forAuPair : string) (start end_ : Date) (b : Booking) : bool :=
  String.eqb (auPairId b) forAuPair
  && statusIn (status b) [BookingStatus.PENDING; BookingStatus.APPROVED]
  && (((startDate b <=? start) && (start <=? endDate b))
      || ((startDate b <=? end_) && (end_ <=? endDate b))
      || ((start <=? startDate b) && (endDate b <=? end_))).

(** [prisma.booking.findFirst({ where: ... })]. *)
Definition conflictingBooking (table : list Booking) (forAuPair : string)
    (start end_ : Date) : option Booking :=
  find (conflictWhere forAuPair start end_) table.

(** The test [if (conflictingBooking)] of the handler. *)
Definition hasConflict (table : list Booking) (forAuPair : string)
    (start end_ : Date) : bool :=
  match conflictingBooking table forAuPair start end_ with
  | Some _ => true
  | None => false
  end.

(** [prisma.match.findFirst]: an approved match of the two users. *)
Definition approvedMatch (table : list MatchRow) (host auPair : string) : option MatchRow :=
  find (fun m => String.eqb (matchHostId m) host
                 && String.eqb (matchAuPairId m) auPair
                 && MatchStatus.eqb (matchStatus m) MatchStatus.APPROVED)
       table.

Definition respond (code : Z) (msg : string) : Response :=
  {| statusCode := code; message := msg |}.

(** The handler of [POST /] at the instant [now] ([new Date()] of its
    second check): the response and the store it leaves. *)
Definition createBooking (now : Date) (db : Store) (req : BookingRequest)
    : Response * Store :=
  match targetUserId req, reqStartDate req, reqEndDate req with
  | Some target, Some start, Some end_ =>
      if String.eqb target EmptyString then
        (respond 400 "Target user, start date, and end date are required", db)
      else if end_ <=? start then
        (respond 400 "End date must be after start date", db)
      else if start <? now then
        (respond 400 "Start date cannot be in the past", db)
      else
        match find (fun u => String.eqb (id u) target) (users db) with
        | None => (respond 404 "Target user not found or inactive", db)
        | Some targetUser =>
            if negb (isActive targetUser) then
              (respond 404 "Target user not found or inactive", db)
            else if (Role_eqb (userRole req) AU_PAIR
                       && negb (Role_eqb (role targetUser) HOST_FAMILY))
                    || (Role_eqb (userRole req) HOST_FAMILY
                          && negb (Role_eqb (role targetUser) AU_PAIR)) then
              (respond 400 "Bookings can only be made between au pairs and host families", db)
            else
              let host := if Role_eqb (userRole req) HOST_FAMILY then userId req else target in
              let auPair := if Role_eqb (userRole req) AU_PAIR then userId req else target in
              match approvedMatch (matches db) host auPair with
              | None =>
                  (respond 403 "You can only create bookings with users you have an approved match with", db)
              | Some _ =>
                  if hasConflict (bookings db) auPair start end_ then
                    (respond 400 "There is a conflicting booking for this time period", db)
                  else
                    (respond 201 "Booking request created successfully",
                     {| users := users db;
                        matches := matches db;
                        bookings := bookings db ++
                          [{| auPairId := auPair; hostId := host;
                              startDate := start; endDate := end_;
                              status := BookingStatus.PENDING |}] |})
              end
        end
  | _, _, _ =>
      (respond 400 "Target user, start date, and end date are required", db)
  end.

(** * The scorer as the weight table states it

    A second reading of the match scorer, written from its description: a
    table of weighted factors, each with its rule.  It is compared with
    [calculateMatchScore] below. *)

Module Spec.

Section Scorer.

Context {string_case : StringCase}.

Local Open Scope float_scope.

(** Two languages match when they are equal up to letter case. *)
Definition sameLanguage (a b : string) : bool :=
  String.eqb (toLowerCase a) (toLowerCase b).

(** How many of the candidate's languages match a preferred language. *)
Definition matchingCount (candidate preferred : list string) : nat :=
  fold_right
    (fun lang n => if existsb (sameLanguage lang) preferred then S n else n)
    0%nat candidate.

(** Language overlap: 100 without a preference, else the ratio of the
    matching languages to the preferred ones, times 100. *)
Definition languageSubScore (candidate preferred : list string) : number :=
  match preferred with
  | [] => 100
  | _ :: _ =>
      Z2F (Z.of_nat (matchingCount candidate preferred))
        / Z2F (Z.of_nat (List.length preferred)) * 100
  end.

(** Country preference: 25 raw points for a counterparty whose country is
    among the candidate's preferred countries, else none. *)
Definition countryPoints (preferred : list string) (country : option string) : number :=
  match country with
  | Some c => if in_dec string_dec c preferred then 25 else 0
  | None => 0
  end.

Definition msPerDay : number := 24 * 60 * 60 * 1000.

(** The age in years: the time elapsed since birth over a year of 365.25
    days, rounded down. *)
Definition age (now birth : Date) : number :=
  Math_floor ((getTime now - getTime birth) / (365.25 * msPerDay)).

Definition within (lo hi x : number) : bool := (lo <=? x) && (x <=? hi).

(** Age suitability: neutral without a birth date or without children's
    ages; the rule for young children comes before the one for teens. *)
Definition ageSubScore (now : Date) (birth : option Date)
    (children : list number) : number :=
  match birth, children with
  | Some b, _ :: _ =>
      let a := age now b in
      if existsb (fun c => c <=? 10) children && within 18 30 a then 100
      else if existsb (fun c => 11 <=? c) children && within 20 35 a then 100
      else if within 18 35 a then 70
      else 30
  | _, _ => 50
  end.

(** A table of bands: the score of the first band whose bound is not below
    the value, or the last resort. *)
Fixpoint band (table : list (number * number)) (otherwise x : number) : number :=
  match table with
  | [] => otherwise
  | (bound, s) :: rest => if x <=? bound then s else band rest otherwise x
  end.

(** Availability fit: neutral without both bounds; full when the reference
    start lies in the window; else by the distance in days between the
    reference start and the beginning of the window. *)
Definition availabilitySubScore (from to : option Date) (reference : Date) : number :=
  match from, to with
  | Some f, Some t =>
      if ((f <=? reference) && (reference <=? t))%Z then 100
      else band [(30, 80); (90, 60); (180, 30)] 10
                (abs (getTime reference - getTime f) / msPerDay)
  | _, _ => 50
  end.

(** Budget fit, in the words of the table: neutral unless both amounts are
    given; full when the rate is within the budget; else by the ratio of
    the rate to the budget. *)
Definition budgetSubScoreAsStated (rate budget : option number) : number :=
  match rate, budget with
  | Some r, Some b =>
      if r <=? b then 100 else band [(1.2, 70); (1.5, 40)] 10 (r / b)
  | _, _ => 50
  end.

(** An amount the budget rule can use: one that is given and is neither
    zero nor [NaN]. *)
Definition amount (o : option number) : option number :=
  match o with
  | Some x => if truthy x then Some x else None
  | None => None
  end.

(** Budget fit with an amount of zero counting as one that is not given. *)
Definition budgetSubScore (rate budget : option number) : number :=
  budgetSubScoreAsStated (amount rate) (amount budget).

(** The weighted sum of the five factors: the country factor counts as
    raw points, the other four are sub-scores times their weights. *)
Definition weightedSum (languageScore countryScore ageScore availabilityScore
    budgetScore : number) : number :=
  0.3 * languageScore + countryScore + 0.2 * ageScore
  + 0.15 * availabilityScore + 0.1 * budgetScore.

(** The final score for a given budget rule: the weighted sum of the
    factors, rounded. *)
Definition scoreWith (budgetRule : option number -> option number -> number)
    (clock : Clock) (candidate : AuPairProfile)
    (counterparty : HostFamilyProfile) : number :=
  let languageScore :=
    languageSubScore (orEmpty (languages candidate))
                     (orEmpty (preferredLanguages counterparty)) in
  let countryScore :=
    countryPoints (orEmpty (preferredCountries candidate)) (country counterparty) in
  let ageScore :=
    ageSubScore (dateNow clock) (dateOfBirth candidate)
                (orEmpty (childrenAges counterparty)) in
  let availabilityScore :=
    availabilitySubScore (availableFrom candidate) (availableTo candidate)
                         (newDate clock) in
  let budgetScore := budgetRule (hourlyRate candidate) (maxBudget counterparty) in
  Math_round (weightedSum languageScore countryScore ageScore
                          availabilityScore budgetScore).

Definition scoreAsStated := scoreWith budgetSubScoreAsStated.

Definition score := scoreWith budgetSubScore.

End Scorer.

(** Two intervals with inclusive bounds share an instant. *)
Definition sharesInstant (s1 e1 s2 e2 : Date) : Prop :=
  exists t : Date, s1 <= t <= e1 /\ s2 <= t <= e2.

(** The states in which a reservation blocks an overlapping one. *)
Definition active (s : BookingStatus.t) : Prop :=
  s = BookingStatus.PENDING \/ s = BookingStatus.APPROVED.

End Spec.

(** * Definitions used by the statements and their proofs *)

(** ** Binary64 values and their order *)

Module Binary64.

(** [signed s x]: the sign bit of [x] is [s], or [x] is [NaN]. *)
Definition signed (s : bool) (x : spec_float) : Prop :=
  match x with
  | S754_nan => True
  | S754_zero s' | S754_infinity s' | S754_finite s' _ _ => s' = s
  end.

Definition nonneg (x : number) : Prop := signed false (Prim2SF x).

(** A number that is neither negative (nor [-0]) nor [NaN]. *)
Definition fineSF (x : spec_float) : Prop :=
  match x with
  | S754_nan => False
  | S754_zero s | S754_infinity s | S754_finite s _ _ => s = false
  end.

Definition fine (x : number) : Prop := fineSF (Prim2SF x).

Definition posFinite (x : number) : Prop :=
  exists m e, Prim2SF x = S754_finite false m e.

Definition positive_float (x : spec_float) : bool :=
  match x with
  | S754_finite false _ _ | S754_infinity false => true
  | _ => false
  end.

(** An embedding of the numbers other than [NaN] into the integers that
    keeps their order: a finite number [m * 2^e] goes to [m * 2^(e+1074)],
    the infinities beyond every finite number. *)
Definition keyInf : Z := 2 ^ 2098.

Definition key (x : spec_float) : Z :=
  match x with
  | S754_zero _ => 0
  | S754_nan => 0
  | S754_infinity s => cond_Zopp s keyInf
  | S754_finite s m e => cond_Zopp s (Zpos m * 2 ^ (e + 1074))
  end.

Definition fkey (x : number) : Z := key (Prim2SF x).

End Binary64.

(** ** The factors of one score

    The values [calculateMatchScore] binds to [languageScore], [ageScore],
    [availabilityScore] and [budgetScore], and the points its country
    block adds, as functions of the inputs. *)

Section Factors.

Context {string_case : StringCase}.

Definition languageScore (auPair : AuPairProfile) (host : HostFamilyProfile) : number :=
  calculateLanguageMatch (orEmpty (languages auPair))
                         (orEmpty (preferredLanguages host)).

Definition countryScore (auPair : AuPairProfile) (host : HostFamilyProfile) : number :=
  if includes (preferredCountries auPair) (country host) then 25%float else 0%float.

Definition ageScore (clock : Clock) (auPair : AuPairProfile)
    (host : HostFamilyProfile) : number :=
  calculateAgeMatch (dateNow clock) (dateOfBirth auPair)
                    (orEmpty (childrenAges host)).

Definition availabilityScore (clock : Clock) (auPair : AuPairProfile) : number :=
  calculateAvailabilityMatch (availableFrom auPair) (availableTo auPair)
                             (Some (newDate clock)).

Definition budgetScore (auPair : AuPairProfile) (host : HostFamilyProfile) : number :=
  calculateBudgetMatch (hourlyRate auPair) (maxBudget host).

End Factors.

(** An amount that the check [!x] takes for missing: one that is not
    given, or is zero ([0] or [-0]) or [NaN]. *)
Definition absentOrZero (o : option number) : Prop :=
  match o with
  | None => True
  | Some x => (x =? 0)%float = true \/ is_nan x = true
  end.

(** ** The order of a ranking *)

(** [a] may stand before [b] in a ranking: the score of [b] is not above
    the score of [a]. *)
Definition notBelow (a b : ScoredUser) : Prop :=
  (matchScore b <=? matchScore a)%float = true.

(** The entries of a list whose score is [v], in the order of the list. *)
Definition withScore (v : number) (l : list ScoredUser) : list ScoredUser :=
  filter (fun c => (matchScore c =? v)%float) l.

(** An entry whose score is a number and not [NaN]. *)
Definition scored (c : ScoredUser) : Prop := is_nan (matchScore c) = false.

(** ** Bounded numbers *)

(** [atMost b x]: [x] is a number from [0] to [b], that is, neither [NaN]
    nor negative (nor [-0]), and not above [b]. *)
Definition atMost (b x : number) : Prop :=
  Binary64.fine x /\ Binary64.fkey x <= Binary64.fkey b.

(** A list of languages that names no language twice, whatever the case
    of the letters. *)
Definition distinctUpToCase {string_case : StringCase} (l : list string) : Prop :=
  NoDup (map toLowerCase l).

(** ** Well-formed inputs *)

(** A list that a JS array can hold: its length is below [2^32]. *)
Definition jsArray {A : Type} (l : list A) : Prop :=
  Z.of_nat (List.length l) < 2 ^ 32.

(** The preferred languages of every host family of the table form a JS
    array. *)
Definition preferredLanguagesAreArrays (table : list User) : Prop :=
  forall h hp, In h table -> hostFamilyProfile h = Some hp ->
               jsArray (orEmpty (preferredLanguages hp)).

(** ** Letter case *)

(** Two strings that differ in the case of their letters at most: the
    lower-casing of the runtime maps them to the same string.  This is
    how the code itself compares two language names. *)
Definition sameUpToCase {string_case : StringCase} (s t : string) : Prop :=
  toLowerCase s = toLowerCase t.

(** For ASCII strings, the strings [sameUpToCase] relates are those that
    [caseVariant] below builds, letter by letter. *)

Definition isLowerAscii (c : ascii) : bool :=
  ((97 <=? nat_of_ascii c) && (nat_of_ascii c <=? 122))%nat.

(** The letter in the other case; any other character as it is. *)
Definition swapCase (c : ascii) : ascii :=
  if isUpperAscii c then ascii_of_nat (nat_of_ascii c + 32)
  else if isLowerAscii c then ascii_of_nat (nat_of_ascii c - 32)
  else c.

(** [caseVariant s t]: [t] is [s] with the case of some letters changed. *)
Inductive caseVariant : string -> string -> Prop :=
  | cv_empty : caseVariant EmptyString EmptyString
  | cv_keep c s t : caseVariant s t -> caseVariant (String c s) (String c t)
  | cv_swap c s t : caseVariant s t -> caseVariant (String c s) (String (swapCase c) t).

Definition withLanguages (p : AuPairProfile) (l : list string) : AuPairProfile :=
  {| languages := Some l;
     preferredCountries := preferredCountries p;
     dateOfBirth := dateOfBirth p;
     availableFrom := availableFrom p;
     availableTo := availableTo p;
     hourlyRate := hourlyRate p |}.

Definition withPreferredLanguages (p : HostFamilyProfile) (l : list string)
    : HostFamilyProfile :=
  {| preferredLanguages := Some l;
     country := country p;
     childrenAges := childrenAges p;
     maxBudget := maxBudget p |}.

(** ** The budget rule and the score, read with "absent" as "not given" *)

Definition budgetRuleAsStated : Prop :=
  forall rate budget : option number,
    calculateBudgetMatch rate budget = Spec.budgetSubScoreAsStated rate budget.

Definition scoreRuleAsStated : Prop :=
  forall clock candidate counterparty,
    calculateMatchScore clock candidate counterparty
    = Spec.scoreAsStated clock candidate counterparty.

(** ** Concrete inputs *)

Module Examples.

Local Open Scope string_scope.

(** Midnight (UTC) of a day of March 2025, as a time value. *)
Definition march2025 (d : Z) : Date := (20147 + d) * 86400000.

Definition clock0 : Clock :=
  {| dateNow := march2025 1; newDate := march2025 1 |}.

(** A profile that gives nothing but its languages. *)
Definition speaks (l : list string) : AuPairProfile :=
  {| languages := Some l; preferredCountries := None; dateOfBirth := None;
     availableFrom := None; availableTo := None; hourlyRate := None |}.

(** A host family that states nothing but its preferred languages. *)
Definition prefers (l : list string) : HostFamilyProfile :=
  {| preferredLanguages := Some l; country := None; childrenAges := None;
     maxBudget := None |}.

(** Four spellings of one language, each a string of its own. *)
Definition fourSpellings : AuPairProfile :=
  speaks ["English"; "english"; "ENGLISH"; "eNGLISH"].

Definition wantsEnglish : HostFamilyProfile := prefers ["english"].

(** Scenario B: the candidate prefers "USA", the family lives in "usa". *)
Definition prefersUSA : AuPairProfile :=
  {| languages := None; preferredCountries := Some ["USA"]; dateOfBirth := None;
     availableFrom := None; availableTo := None; hourlyRate := None |}.

Definition livesInLowercaseUsa : HostFamilyProfile :=
  {| preferredLanguages := None; country := Some "usa"; childrenAges := None;
     maxBudget := None |}.

(** A candidate who asks for nothing an hour, and a family with a budget. *)
Definition freeOfCharge : AuPairProfile :=
  {| languages := None; preferredCountries := None; dateOfBirth := None;
     availableFrom := None; availableTo := None; hourlyRate := Some 0%float |}.

Definition budgetOf20 : HostFamilyProfile :=
  {| preferredLanguages := None; country := None; childrenAges := None;
     maxBudget := Some 20%float |}.

(** A user table: one au pair and three active host families, the first
    and the third with the same preferences. *)
Definition auPairUser : User :=
  {| id := "ap1"; role := AU_PAIR; isActive := true;
     auPairProfile := Some (speaks ["French"; "English"]);
     hostFamilyProfile := None |}.

Definition hostUser (name : string) (l : list string) : User :=
  {| id := name; role := HOST_FAMILY; isActive := true;
     auPairProfile := None; hostFamilyProfile := Some (prefers l) |}.

Definition userTable : list User :=
  [ hostUser "h1" ["german"; "french"];
    auPairUser;
    hostUser "h2" ["french"];
    hostUser "h3" ["spanish"; "english"] ].

(** Scenario D: an approved reservation from March 15 to March 20. *)
Definition approvedMarch15to20 : Booking :=
  {| auPairId := "ap1"; hostId := "h1";
     startDate := march2025 15; endDate := march2025 20;
     status := BookingStatus.APPROVED |}.

(** Scenario E: a rejected reservation from March 2 to March 4. *)
Definition rejectedMarch2to4 : Booking :=
  {| auPairId := "ap1"; hostId := "h1";
     startDate := march2025 2; endDate := march2025 4;
     status := BookingStatus.REJECTED |}.

(** A store in which "ap1" and "h1" have an approved match. *)
Definition store0 : Store :=
  {| users := userTable;
     matches := [ {| matchHostId := "h1"; matchAuPairId := "ap1";
                     matchStatus := MatchStatus.APPROVED |} ];
     bookings := [ approvedMarch15to20 ] |}.

(** A request of "ap1" for a booking with "h1" over the given days. *)
Definition requestDays (first last : Z) : BookingRequest :=
  {| userId := "ap1"; userRole := AU_PAIR; targetUserId := Some "h1";
     reqStartDate := Some (march2025 first); reqEndDate := Some (march2025 last) |}.

End Examples.

(** * The other routes of [routes/bookings.ts]

    The routes that read, change and delete one booking address it by its
    primary key; the table below holds the rows with their keys.  As
    before, the payload of a booking is left out. *)

Module BookingRoutes.

Record Row := {
  bookingId : string;
  booking : Booking
}.

Definition Table := list Row.

(** The table of [createBooking] and [hasConflict]: the rows without
    their keys. *)
Definition bookingsOf (table : Table) : list Booking := map booking table.

(** [prisma.booking.findUnique({ where: { id } })]. *)
Definition findUnique (table : Table) (key : string) : option Row :=
  find (fun r => String.eqb (bookingId r) key) table.

(** [prisma.booking.update({ where: { id }, data })]: the row of that key
    with its fields replaced. *)
Definition update (table : Table) (key : string) (data : Booking -> Booking) : Table :=
  map (fun r => if String.eqb (bookingId r) key
                then {| bookingId := bookingId r; booking := data (booking r) |}
                else r)
      table.

(** [prisma.booking.delete({ where: { id } })]. *)
Definition delete (table : Table) (key : string) : Table :=
  filter (fun r => negb (String.eqb (bookingId r) key)) table.

(** [orderBy: { startDate: 'asc' }]; rows of one start date are taken in
    the order of the table. *)
Fixpoint insertByStart (r : Row) (l : Table) : Table :=
  match l with
  | [] => [r]
  | x :: l' =>
      if startDate (booking x) <? startDate (booking r)
      then x :: insertByStart r l' else r :: l
  end.

Fixpoint orderByStart (l : Table) : Table :=
  match l with
  | [] => []
  | r :: l' => insertByStart r (orderByStart l')
  end.

(** [booking.auPairId !== userId && booking.hostId !== userId]. *)
Definition notAParty (user : string) (b : Booking) : bool :=
  negb (String.eqb (auPairId b) user) && negb (String.eqb (hostId b) user).

Definition withStatus (b : Booking) (s : BookingStatus.t) : Booking :=
  {| auPairId := auPairId b; hostId := hostId b;
     startDate := startDate b; endDate := endDate b; status := s |}.

(** [...(startDate && { startDate }), ...(endDate && { endDate })]. *)
Definition withDates (b : Booking) (start end_ : option Date) : Booking :=
  {| auPairId := auPairId b; hostId := hostId b;
     startDate := match start with Some s => s | None => startDate b end;
     endDate := match end_ with Some e => e | None => endDate b end;
     status := status b |}.

(** [GET /my-bookings]: the [where] clause the handler builds from the
    role of the user and the query, [status] being a status the query
    names and [upcoming] the flag [upcoming === 'true']. *)
Definition myBookingsWhere (now : Date) (user : string) (userRole : Role)
    (status_ : option BookingStatus.t) (upcoming : bool) (b : Booking) : bool :=
  match userRole with
  | AU_PAIR => String.eqb (auPairId b) user
  | HOST_FAMILY => String.eqb (hostId b) user
  | ADMIN => true
  end
  && match status_ with
     | Some s => BookingStatus.eqb (status b) s
     | None => true
     end
  && (if upcoming then now <=? startDate b else true).

Definition myBookings (now : Date) (table : Table) (user : string)
    (userRole : Role) (status_ : option BookingStatus.t) (upcoming : bool) : Table :=
  orderByStart
    (filter (fun r => myBookingsWhere now user userRole status_ upcoming (booking r))
            table).

(** [GET /:bookingId]: the response and the booking it sends. *)
Definition getBooking (table : Table) (user key : string) : Response * option Row :=
  match findUnique table key with
  | None => (respond 404 "Booking not found", None)
  | Some r =>
      if notAParty user (booking r) then
        (respond 403 "You can only view bookings you are part of", None)
      else (respond 200 EmptyString, Some r)
  end.

(** The statuses [PUT /:bookingId/status] accepts, by their names. *)
Definition requestedStatus (s : string) : option BookingStatus.t :=
  if String.eqb s "APPROVED" then Some BookingStatus.APPROVED
  else if String.eqb s "REJECTED" then Some BookingStatus.REJECTED
  else if String.eqb s "CANCELLED" then Some BookingStatus.CANCELLED
  else if String.eqb s "COMPLETED" then Some BookingStatus.COMPLETED
  else None.

(** [PUT /:bookingId/status] at the instant [now]: the handler reads the
    clock once, in the test of the status it was asked for. *)
Definition updateBookingStatus (now : Date) (table : Table) (user key : string)
    (status_ : string) : Response * Table :=
  match requestedStatus status_ with
  | None =>
      (respond 400 "Status must be APPROVED, REJECTED, CANCELLED, or COMPLETED", table)
  | Some s =>
      match findUnique table key with
      | None => (respond 404 "Booking not found", table)
      | Some r =>
          if notAParty user (booking r) then
            (respond 403 "You can only update bookings you are part of", table)
          else if BookingStatus.eqb s BookingStatus.COMPLETED
                  && (now <? endDate (booking r)) then
            (respond 400 "Cannot mark booking as completed before end date", table)
          else if BookingStatus.eqb s BookingStatus.APPROVED
                  && (startDate (booking r) <? now) then
            (respond 400 "Cannot approve a booking that has already started", table)
          else
            (respond 200 "Booking status updated successfully",
             update table key (fun b => withStatus b s))
      end
  end.

(** [PUT /:bookingId] at the instant [now]; the two dates are the instants
    the body's strings parse to, [None] for a field it leaves out. *)
Definition updateBooking (now : Date) (table : Table) (user key : string)
    (start end_ : option Date) : Response * Table :=
  match findUnique table key with
  | None => (respond 404 "Booking not found", table)
  | Some r =>
      if notAParty user (booking r) then
        (respond 403 "You can only update bookings you are part of", table)
      else if negb (BookingStatus.eqb (status (booking r)) BookingStatus.PENDING) then
        (respond 400 "Can only update pending bookings", table)
      else if match start, end_ with
              | Some s, Some e => e <=? s
              | _, _ => false
              end then
        (respond 400 "End date must be after start date", table)
      else if match start with
              | Some s => s <? now
              | None => false
              end then
        (respond 400 "Start date cannot be in the past", table)
      else
        (respond 200 "Booking updated successfully",
         update table key (fun b => withDates b start end_))
  end.

(** [DELETE /:bookingId]. *)
Definition deleteBooking (table : Table) (user key : string) : Response * Table :=
  match findUnique table key with
  | None => (respond 404 "Booking not found", table)
  | Some r =>
      if notAParty user (booking r) then
        (respond 403 "You can only delete bookings you are part of", table)
      else if negb (statusIn (status (booking r))
                      [BookingStatus.PENDING; BookingStatus.REJECTED;
                       BookingStatus.CANCELLED]) then
        (respond 400 "Can only delete pending, rejected, or cancelled bookings", table)
      else (respond 200 "Booking deleted successfully", delete table key)
  end.

(** The [where] clause of [GET /au-pair/:auPairId/availability]: with both
    dates of the query an overlap test, else the bookings that start from
    [now] on. *)
Definition availabilityWhere (now : Date) (forAuPair : string)
    (start end_ : option Date) (b : Booking) : bool :=
  String.eqb (auPairId b) forAuPair
  && statusIn (status b) [BookingStatus.PENDING; BookingStatus.APPROVED]
  && match start, end_ with
     | Some s, Some e => (startDate b <=? e) && (s <=? endDate b)
     | _, _ => now <=? startDate b
     end.

(** [select: { id, startDate, endDate, status }]: what the route sends of
    a booking. *)
Record Slot := {
  slotId : string;
  slotStart : Date;
  slotEnd : Date;
  slotStatus : BookingStatus.t
}.

Definition select (r : Row) : Slot :=
  {| slotId := bookingId r;
     slotStart := startDate (booking r);
     slotEnd := endDate (booking r);
     slotStatus := status (booking r) |}.

(** [GET /au-pair/:auPairId/availability] at the instant [now]: the
    response and the booked slots.  The two dates are the instants the
    strings of the query parse to, [None] for one the query leaves out. *)
Definition availability (now : Date) (people : list User) (table : Table)
    (forAuPair : string) (start end_ : option Date) : Response * list Slot :=
  match find (fun u => String.eqb (id u) forAuPair && Role_eqb (role u) AU_PAIR)
             people with
  | None => (respond 404 "Au pair not found or inactive", [])
  | Some u =>
      if negb (isActive u) then (respond 404 "Au pair not found or inactive", [])
      else
        (respond 200 EmptyString,
         map select
           (orderByStart
              (filter (fun r => availabilityWhere now forAuPair start end_ (booking r))
                      table)))
  end.

End BookingRoutes.

(** * The routes of [routes/matches.ts] that write the match table *)

Module MatchRoutes.

(** A row of the match table with its key, the score stored with it and
    the role that sent the request. *)
Record Row := {
  matchId : string;
  parties : MatchRow;
  storedScore : number;
  initiatedBy : Role
}.

Definition Table := list Row.

(** The table [createBooking] reads. *)
Definition matchesOf (table : Table) : list MatchRow := map parties table.

Record MatchRequest := {
  caller : string;
  callerRole : Role;
  target : option string
}.

Section Routes.

Context {string_case : StringCase}.

(** The score [POST /] stores: computed when the caller has the profile of
    the role it acts in and the target the opposite one, else 0. *)
Definition scoreFor (clock : Clock) (callerRole : Role) (currentUser : option User)
    (targetUser : User) : number :=
  match callerRole with
  | AU_PAIR =>
      match currentUser with
      | Some cu =>
          match auPairProfile cu, hostFamilyProfile targetUser with
          | Some ap, Some hp => calculateMatchScore clock ap hp
          | _, _ => 0%float
          end
      | None => 0%float
      end
  | HOST_FAMILY =>
      match currentUser with
      | Some cu =>
          match hostFamilyProfile cu, auPairProfile targetUser with
          | Some hp, Some ap => calculateMatchScore clock ap hp
          | _, _ => 0%float
          end
      | None => 0%float
      end
  | ADMIN => 0%float
  end.

(** [POST /]: a match request.  [newId] is the key the store gives the new
    row. *)
Definition createMatch (clock : Clock) (newId : string) (people : list User)
    (table : Table) (req : MatchRequest) : Response * Table :=
  match target req with
  | None => (respond 400 "Target user ID is required", table)
  | Some t =>
      if String.eqb t EmptyString then
        (respond 400 "Target user ID is required", table)
      else if String.eqb t (caller req) then
        (respond 400 "Cannot match with yourself", table)
      else
        match find (fun u => String.eqb (id u) t) people with
        | None => (respond 404 "Target user not found or inactive", table)
        | Some targetUser =>
            if negb (isActive targetUser) then
              (respond 404 "Target user not found or inactive", table)
            else if (Role_eqb (callerRole req) AU_PAIR
                       && negb (Role_eqb (role targetUser) HOST_FAMILY))
                    || (Role_eqb (callerRole req) HOST_FAMILY
                          && negb (Role_eqb (role targetUser) AU_PAIR)) then
              (respond 400 "Can only match au pairs with host families", table)
            else
              let host := if Role_eqb (callerRole req) HOST_FAMILY then caller req else t in
              let auPair := if Role_eqb (callerRole req) AU_PAIR then caller req else t in
              match find (fun m => String.eqb (matchHostId (parties m)) host
                                   && String.eqb (matchAuPairId (parties m)) auPair)
                         table with
              | Some _ =>
                  (respond 400 "Match already exists between these users", table)
              | None =>
                  let currentUser :=
                    find (fun u => String.eqb (id u) (caller req)) people in
                  (respond 201 "Match request sent successfully",
                   table ++
                   [{| matchId := newId;
                       parties := {| matchHostId := host; matchAuPairId := auPair;
                                     matchStatus := MatchStatus.PENDING |};
                       storedScore := scoreFor clock (callerRole req) currentUser targetUser;
                       initiatedBy := callerRole req |}])
              end
        end
  end.

End Routes.

(** The statuses [PUT /:matchId/status] accepts, by their names. *)
Definition requestedStatus (s : string) : option MatchStatus.t :=
  if String.eqb s "APPROVED" then Some MatchStatus.APPROVED
  else if String.eqb s "REJECTED" then Some MatchStatus.REJECTED
  else None.

Definition notAParty (user : string) (m : MatchRow) : bool :=
  negb (String.eqb (matchHostId m) user) && negb (String.eqb (matchAuPairId m) user).

Definition withStatus (r : Row) (s : MatchStatus.t) : Row :=
  {| matchId := matchId r;
     parties := {| matchHostId := matchHostId (parties r);
                   matchAuPairId := matchAuPairId (parties r);
                   matchStatus := s |};
     storedScore := storedScore r;
     initiatedBy := initiatedBy r |}.

(** [PUT /:matchId/status]. *)
Definition updateMatchStatus (table : Table) (user key status_ : string)
    : Response * Table :=
  match requestedStatus status_ with
  | None => (respond 400 "Status must be APPROVED or REJECTED", table)
  | Some s =>
      match find (fun r => String.eqb (matchId r) key) table with
      | None => (respond 404 "Match not found", table)
      | Some r =>
          if notAParty user (parties r) then
            (respond 403 "You can only update matches you are part of", table)
          else
            (respond 200 "Match status updated successfully",
             map (fun x => if String.eqb (matchId x) key then withStatus x s else x)
                 table)
      end
  end.

(** [DELETE /:matchId]. *)
Definition deleteMatch (table : Table) (user key : string) : Response * Table :=
  match find (fun r => String.eqb (matchId r) key) table with
  | None => (respond 404 "Match not found", table)
  | Some r =>
      if notAParty user (parties r) then
        (respond 403 "You can only delete matches you are part of", table)
      else
        (respond 200 "Match deleted successfully",
         filter (fun x => negb (String.eqb (matchId x) key)) table)
  end.

End MatchRoutes.

(** * Inputs of the examples for the routes *)

Module RouteExamples.

Import Examples.

Local Open Scope string_scope.

(** The entry of "h2" in the list of "ap1". *)
Definition h2Scored : ScoredUser :=
  {| user := hostUser "h2" ["french"]; matchScore := 53%float |}.

(** An administrator, who has no profile. *)
Definition adminUser : User :=
  {| id := "admin"; role := ADMIN; isActive := true;
     auPairProfile := None; hostFamilyProfile := None |}.

(** A rejected request for days on which "ap1" is booked, and a pending
    one for later days. *)
Definition rejectedMarch16to18 : Booking :=
  {| auPairId := "ap1"; hostId := "h2";
     startDate := march2025 16; endDate := march2025 18;
     status := BookingStatus.REJECTED |}.

Definition pendingMarch22to25 : Booking :=
  {| auPairId := "ap1"; hostId := "h1";
     startDate := march2025 22; endDate := march2025 25;
     status := BookingStatus.PENDING |}.

Definition bookingTable : BookingRoutes.Table :=
  [ {| BookingRoutes.bookingId := "b3"; BookingRoutes.booking := pendingMarch22to25 |};
    {| BookingRoutes.bookingId := "b1"; BookingRoutes.booking := approvedMarch15to20 |};
    {| BookingRoutes.bookingId := "b2"; BookingRoutes.booking := rejectedMarch16to18 |} ].

(** The match table of [store0] with its key, and the request of "ap1"
    for a match with "h2". *)
Definition matchTable : MatchRoutes.Table :=
  [ {| MatchRoutes.matchId := "m1";
       MatchRoutes.parties := {| matchHostId := "h1"; matchAuPairId := "ap1";
                                 matchStatus := MatchStatus.APPROVED |};
       MatchRoutes.storedScore := 38%float;
       MatchRoutes.initiatedBy := HOST_FAMILY |} ].

Definition matchRequest : MatchRoutes.MatchRequest :=
  {| MatchRoutes.caller := "ap1"; MatchRoutes.callerRole := AU_PAIR;
     MatchRoutes.target := Some "h2" |}.

End RouteExamples.

(** ** Invariants of the booking table *)

(** Every booking ends after it starts. *)
Definition datesInOrder (table : list Booking) : Prop :=
  Forall (fun b => startDate b < endDate b) table.

(** Two bookings that do not block each other: they are not two active
    bookings of one au pair whose periods share an instant. *)
Definition compatible (a b : Booking) : Prop :=
  auPairId a = auPairId b ->
  Spec.active (status a) -> Spec.active (status b) ->
  ~ Spec.sharesInstant (startDate a) (endDate a) (startDate b) (endDate b).

(** No au pair is booked twice for an instant. *)
Definition noDoubleBooking (table : list Booking) : Prop :=
  ForallOrdPairs compatible table.

(** The pair of users of a row of the match table. *)
Definition pairOf (m : MatchRow) : string * string :=
  (matchHostId m, matchAuPairId m).

(** * Facts about binary64 arithmetic

    Derived from the specification of the operations ([SpecFloat]) that
    the primitive floats are stated to follow. *)

Module Binary64Facts.

Import Binary64.

(** ** Sign bits *)

Section Signs.

Lemma binary_round_aux_signed s m e l :
  signed s (binary_round_aux prec emax s m e l).
Proof.
  unfold binary_round_aux.
  destruct (shr_fexp prec emax m e l) as [mrs' e'].
  destruct (shr_fexp prec emax _ e' loc_Exact) as [mrs'' e''].
  destruct (shr_m mrs''); simpl; auto.
  destruct (e'' <=? 971); simpl; auto.
Qed.

Lemma SFmul_signed sx sy x y :
  signed sx x -> signed sy y -> signed (xorb sx sy) (SFmul prec emax x y).
Proof.
  destruct x, y; simpl; intros; subst; auto.
  apply binary_round_aux_signed.
Qed.

Lemma SFdiv_signed sx sy x y :
  signed sx x -> signed sy y -> signed (xorb sx sy) (SFdiv prec emax x y).
Proof.
  destruct x as [?|?| |? mx ex], y as [?|?| |? my ey];
    simpl; intros; subst; auto.
  destruct (SFdiv_core_binary prec emax (Z.pos mx) ex (Z.pos my) ey) as [[mz ez] lz].
  apply binary_round_aux_signed.
Qed.

Lemma Z2F_nonneg n : 0 <= n -> nonneg (Z2F n).
Proof.
  intros Hn. unfold nonneg, Z2F.
  destruct (Z.ltb_spec n 0); [lia|].
  rewrite of_uint63_spec.
  pose proof (Uint63.to_Z_bounded (Uint63.of_Z n)) as Hb.
  destruct (Uint63.to_Z (Uint63.of_Z n)); simpl; auto; try lia.
  unfold binary_round.
  destruct (shl_align _ _ _). apply binary_round_aux_signed.
Qed.

Local Open Scope float_scope.

Lemma mul_nonneg x y : nonneg x -> nonneg y -> nonneg (x * y).
Proof.
  unfold nonneg. intros Hx Hy. rewrite mul_spec.
  apply (SFmul_signed false false); assumption.
Qed.

Lemma div_nonneg x y : nonneg x -> nonneg y -> nonneg (x / y).
Proof.
  unfold nonneg. intros Hx Hy. rewrite div_spec.
  apply (SFdiv_signed false false); assumption.
Qed.

Lemma add_0_l x : nonneg x -> 0 + x = x.
Proof.
  unfold nonneg. intros Hx. apply Prim2SF_inj. rewrite add_spec.
  change (Prim2SF 0) with (S754_zero false).
  destruct (Prim2SF x); simpl in *; subst; reflexivity.
Qed.

Lemma add_0_r x : nonneg x -> x + 0 = x.
Proof.
  unfold nonneg. intros Hx. apply Prim2SF_inj. rewrite add_spec.
  change (Prim2SF 0) with (S754_zero false).
  destruct (Prim2SF x); simpl in *; subst; reflexivity.
Qed.

Lemma mul_comm x y : x * y = y * x.
Proof.
  apply Prim2SF_inj. rewrite !mul_spec.
  destruct (Prim2SF x) as [sx|sx| |sx mx ex], (Prim2SF y) as [sy|sy| |sy my ey];
    simpl; rewrite ?(xorb_comm sx sy); try reflexivity.
  now rewrite (Pos.mul_comm mx my), (Z.add_comm ex ey).
Qed.

End Signs.

(** ** Rounding never loses a non-zero value, and the order of numbers *)

Section Order.

Lemma digits2_size m : digits2_pos m = Pos.size m.
Proof. induction m; simpl; congruence. Qed.

Lemma digits_upper m : Zpos m < 2 ^ Zpos (digits2_pos m).
Proof.
  rewrite digits2_size.
  pose proof (Pos.size_gt m) as H.
  apply Pos2Z.pos_lt_pos in H. rewrite Pos2Z.inj_pow in H. exact H.
Qed.

Lemma digits_lower m : 2 ^ (Zpos (digits2_pos m) - 1) <= Zpos m.
Proof.
  rewrite digits2_size.
  pose proof (Pos.size_le m) as H.
  apply Pos2Z.pos_le_pos in H. rewrite Pos2Z.inj_pow in H.
  replace (Zpos (Pos.size m)) with (Z.succ (Zpos (Pos.size m) - 1)) in H by lia.
  rewrite Z.pow_succ_r in H by lia.
  rewrite (Pos2Z.inj_xO m) in H. lia.
Qed.

(** A valid finite binary64 value. *)
Lemma valid_finite s m e :
  valid_binary (S754_finite s m e) = true ->
  -1074 <= e <= 971 /\ Zpos m < 2 ^ 53 /\ (-1074 < e -> 2 ^ 52 <= Zpos m).
Proof.
  intros H.
  unfold SpecFloat.valid_binary, bounded, canonical_mantissa, fexp,
    SpecFloat.emin, prec, emax in H.
  apply andb_true_iff in H. destruct H as [Hc Hb].
  apply Z.eqb_eq in Hc. apply Z.leb_le in Hb.
  pose proof (digits_upper m) as Hu. pose proof (digits_lower m) as Hl.
  set (d := Zpos (digits2_pos m)) in *.
  assert (Hd : 0 < d) by (unfold d; lia).
  split; [lia|]. split.
  - apply Z.lt_le_trans with (1 := Hu). apply Z.pow_le_mono_r; lia.
  - intros He. replace d with 53 in Hl by lia. exact Hl.
Qed.

Lemma key_finite_bound s m e :
  valid_binary (S754_finite s m e) = true ->
  0 < Zpos m * 2 ^ (e + 1074) < keyInf.
Proof.
  intros H. destruct (valid_finite _ _ _ H) as (He & Hm & _).
  assert (Hp : 0 < 2 ^ (e + 1074)) by (apply Z.pow_pos_nonneg; lia).
  split; [apply Z.mul_pos_pos; lia|].
  unfold keyInf. replace 2098 with (53 + 2045) by lia.
  rewrite (Z.pow_add_r 2 53 2045) by lia.
  assert (2 ^ (e + 1074) <= 2 ^ 2045) by (apply Z.pow_le_mono_r; lia).
  assert (0 < 2 ^ 53) by (apply Z.pow_pos_nonneg; lia).
  nia.
Qed.

Lemma keyInf_pos : 0 < keyInf.
Proof. unfold keyInf. apply Z.pow_pos_nonneg; lia. Qed.

Lemma finite_key_lt m1 e1 m2 e2 :
  valid_binary (S754_finite false m1 e1) = true ->
  valid_binary (S754_finite false m2 e2) = true ->
  e1 < e2 ->
  Zpos m1 * 2 ^ (e1 + 1074) < Zpos m2 * 2 ^ (e2 + 1074).
Proof.
  intros V1 V2 He.
  destruct (valid_finite _ _ _ V1) as (He1 & Hm1 & _).
  destruct (valid_finite _ _ _ V2) as (He2 & _ & Hm2).
  specialize (Hm2 ltac:(lia)).
  assert (Hp : 0 < 2 ^ (e1 + 1074)) by (apply Z.pow_pos_nonneg; lia).
  assert (Hq : 2 * 2 ^ (e1 + 1074) <= 2 ^ (e2 + 1074)).
  { rewrite <- Z.pow_succ_r by lia. apply Z.pow_le_mono_r; lia. }
  change (2 ^ 53) with (2 * 2 ^ 52) in Hm1.
  assert (0 < 2 ^ 52) by (apply Z.pow_pos_nonneg; lia).
  nia.
Qed.

Lemma finite_key_compare m1 m2 e :
  -1074 <= e ->
  Pos.compare_cont Eq m1 m2
  = (Zpos m1 * 2 ^ (e + 1074) ?= Zpos m2 * 2 ^ (e + 1074)).
Proof.
  intros He.
  assert (Hp : 0 < 2 ^ (e + 1074)) by (apply Z.pow_pos_nonneg; lia).
  change (Pos.compare_cont Eq m1 m2) with (Zpos m1 ?= Zpos m2).
  apply Zmult_compare_compat_r. lia.
Qed.

Lemma compare_key x y :
  valid_binary x = true -> valid_binary y = true ->
  x <> S754_nan -> y <> S754_nan ->
  SFcompare x y = Some (key x ?= key y).
Proof.
  intros Vx Vy Nx Ny. pose proof keyInf_pos as HI.
  destruct x as [sx|sx| |sx mx ex]; try congruence;
  destruct y as [sy|sy| |sy my ey]; try congruence;
  try (pose proof (key_finite_bound _ _ _ Vx) as Bx);
  try (pose proof (key_finite_bound _ _ _ Vy) as By);
  cbn [SFcompare key]; f_equal; symmetry.
  all: try (destruct sx); try (destruct sy); cbn [cond_Zopp]; try reflexivity.
  all: try (apply Z.compare_lt_iff; lia); try (apply Z.compare_gt_iff; lia);
       try (apply Z.compare_eq_iff; lia).
  - (* both negative *)
    destruct (valid_finite _ _ _ Vx) as (Hex & _). 
    rewrite Z.compare_opp.
    destruct (Z.compare_spec ex ey) as [E|E|E].
    + subst ey. rewrite (finite_key_compare mx my ex) by lia.
      apply Z.compare_antisym.
    + apply Z.compare_gt_iff. now apply finite_key_lt.
    + apply Z.compare_lt_iff. now apply finite_key_lt.
  - (* both positive *)
    destruct (valid_finite _ _ _ Vx) as (Hex & _). 
    destruct (Z.compare_spec ex ey) as [E|E|E].
    + subst ey. symmetry. apply finite_key_compare. lia.
    + apply Z.compare_lt_iff. now apply finite_key_lt.
    + apply Z.compare_gt_iff. now apply finite_key_lt.
Qed.

Lemma iter_xO m d : Zpos (Pos.iter xO m d) = Zpos m * 2 ^ Zpos d.
Proof.
  induction d as [|d IH] using Pos.peano_ind.
  - simpl. lia.
  - rewrite Pos.iter_succ, (Pos2Z.inj_xO (Pos.iter xO m d)), IH, Pos2Z.inj_succ,
      Z.pow_succ_r by lia.
    lia.
Qed.

Lemma shl_align_fst m e e' :
  e' <= e -> Zpos (fst (shl_align m e e')) = Zpos m * 2 ^ (e - e').
Proof.
  intros H. unfold shl_align.
  destruct (e' - e) as [|d|d] eqn:E; try lia.
  - replace (e - e') with 0 by lia. simpl. lia.
  - simpl fst. rewrite iter_xO. f_equal. f_equal. lia.
Qed.

Lemma shl_align_snd m e e' :
  -1074 <= e -> -1074 <= e' -> -1074 <= snd (shl_align m e e').
Proof.
  intros H H'. unfold shl_align. destruct (e' - e); simpl; lia.
Qed.

Lemma shr_1_m r : 0 <= shr_m r -> shr_m (shr_1 r) = shr_m r / 2.
Proof.
  destruct r as [m r s]. cbn [shr_m]. intros Hm.
  destruct m as [|[p|p|]|p]; cbn [shr_1 shr_m]; try lia.
  - reflexivity.
  - apply Z.div_unique with 1; lia.
  - apply Z.div_unique with 0; lia.
  - reflexivity.
Qed.

Lemma iter_shr q : forall r,
  0 <= shr_m r -> shr_m (iter_pos shr_1 q r) = shr_m r / 2 ^ Zpos q.
Proof.
  assert (Hdd : forall a k, 0 < k -> a / k / k = a / (k * k)).
  { intros a k Hk. apply Z.div_div; lia. }
  induction q as [q IH|q IH|]; intros r Hr; simpl iter_pos.
  - assert (H1 : 0 <= shr_m (shr_1 r)).
    { rewrite shr_1_m by assumption. apply Z.div_pos; lia. }
    assert (Hp : 0 < 2 ^ Zpos q) by (apply Z.pow_pos_nonneg; lia).
    assert (H2 : 0 <= shr_m (iter_pos shr_1 q (shr_1 r))).
    { rewrite IH by assumption. apply Z.div_pos; lia. }
    rewrite IH, IH, shr_1_m by assumption.
    rewrite (Pos2Z.inj_xI q).
    replace (2 * Zpos q + 1) with (1 + Zpos q + Zpos q) by lia.
    rewrite !Z.pow_add_r by lia. change (2 ^ 1) with 2.
    rewrite !Z.div_div by lia. f_equal. lia.
  - assert (Hp : 0 < 2 ^ Zpos q) by (apply Z.pow_pos_nonneg; lia).
    assert (H2 : 0 <= shr_m (iter_pos shr_1 q r)).
    { rewrite IH by assumption. apply Z.div_pos; lia. }
    rewrite IH, IH by assumption.
    rewrite (Pos2Z.inj_xO q).
    replace (2 * Zpos q) with (Zpos q + Zpos q) by lia.
    rewrite !Z.pow_add_r by lia.
    rewrite !Z.div_div by lia. reflexivity.
  - rewrite shr_1_m by assumption. reflexivity.
Qed.

Lemma shr_record_of_loc_m m l : shr_m (shr_record_of_loc m l) = m.
Proof. destruct l as [|[| |]]; reflexivity. Qed.

(** Shifting a positive mantissa to its canonical exponent keeps it
    positive, as long as the exponent is not below the least one. *)
Lemma shr_fexp_pos m e l :
  0 < m -> -1074 <= e ->
  0 < shr_m (fst (shr_fexp prec emax m e l))
  /\ -1074 <= snd (shr_fexp prec emax m e l).
Proof.
  intros Hm He. unfold shr_fexp, shr, fexp, SpecFloat.emin, prec, emax.
  destruct m as [|p|p]; try lia. cbn [Zdigits2].
  pose proof (digits_lower p) as Hl.
  set (d := Zpos (digits2_pos p)) in *.
  destruct (Z.max (d + e - 53) (3 - 1024 - 53) - e) as [|q|q] eqn:E;
    cbn [fst snd]; rewrite ?shr_record_of_loc_m; try (split; lia).
  rewrite iter_shr by (rewrite shr_record_of_loc_m; lia).
  rewrite shr_record_of_loc_m. split; [|lia].
  assert (Hq : Zpos q <= d - 1) by lia.
  assert (Hp : 0 < 2 ^ Zpos q) by (apply Z.pow_pos_nonneg; lia).
  assert (2 ^ Zpos q <= 2 ^ (d - 1)) by (apply Z.pow_le_mono_r; lia).
  apply Z.div_str_pos. lia.
Qed.

Lemma shr_fexp_nonneg m e l :
  0 <= m -> 0 <= shr_m (fst (shr_fexp prec emax m e l)).
Proof.
  intros Hm. unfold shr_fexp, shr.
  destruct (fexp prec emax (Zdigits2 m + e) - e) as [|q|q];
    cbn [fst]; rewrite ?shr_record_of_loc_m; try lia.
  rewrite iter_shr by (rewrite shr_record_of_loc_m; lia).
  rewrite shr_record_of_loc_m.
  apply Z.div_pos; [lia|]. apply Z.pow_pos_nonneg; lia.
Qed.

Lemma round_nearest_even_ge m l : m <= round_nearest_even m l.
Proof. destruct l as [|[| |]]; simpl; try lia. destruct (Z.even m); lia. Qed.

Lemma binary_round_aux_pos m e l :
  0 < m -> -1074 <= e ->
  positive_float (binary_round_aux prec emax false m e l) = true.
Proof.
  intros Hm He. unfold binary_round_aux.
  destruct (shr_fexp_pos m e l Hm He) as [H1 H1'].
  destruct (shr_fexp prec emax m e l) as [mrs' e']. cbn [fst snd] in *.
  pose proof (round_nearest_even_ge (shr_m mrs') (loc_of_shr_record mrs')) as Hr.
  set (m1 := round_nearest_even _ _) in *.
  destruct (shr_fexp_pos m1 e' loc_Exact ltac:(lia) H1') as [H2 _].
  destruct (shr_fexp prec emax m1 e' loc_Exact) as [mrs'' e'']. cbn [fst] in *.
  destruct (shr_m mrs''); try lia.
  destruct (e'' <=? emax - prec); reflexivity.
Qed.

Lemma binary_round_aux_not_nan s m e l :
  0 <= m -> binary_round_aux prec emax s m e l <> S754_nan.
Proof.
  intros Hm. unfold binary_round_aux.
  pose proof (shr_fexp_nonneg m e l Hm) as H1.
  destruct (shr_fexp prec emax m e l) as [mrs' e']. cbn [fst] in *.
  pose proof (round_nearest_even_ge (shr_m mrs') (loc_of_shr_record mrs')) as Hr.
  set (m1 := round_nearest_even _ _) in *.
  pose proof (shr_fexp_nonneg m1 e' loc_Exact ltac:(lia)) as H2.
  destruct (shr_fexp prec emax m1 e' loc_Exact) as [mrs'' e'']. cbn [fst] in *.
  destruct (shr_m mrs''); try lia; try discriminate.
  destruct (e'' <=? emax - prec); discriminate.
Qed.

Lemma binary_round_pos m e :
  -1074 <= e -> positive_float (binary_round prec emax false m e) = true.
Proof.
  intros He. unfold binary_round.
  pose proof (shl_align_snd m e (fexp prec emax (Zpos (digits2_pos m) + e)) He) as Hs.
  destruct (shl_align m e _) as [mz ez]. cbn [snd] in Hs.
  apply binary_round_aux_pos; [lia|].
  apply Hs. unfold fexp, SpecFloat.emin, prec, emax. lia.
Qed.

Lemma binary_round_not_nan s m e : binary_round prec emax s m e <> S754_nan.
Proof.
  unfold binary_round. destruct (shl_align m e _) as [mz ez].
  apply binary_round_aux_not_nan. lia.
Qed.

Lemma signed_true_not_positive r :
  signed true r -> positive_float r = false.
Proof. destruct r as [s|s| |s m e]; simpl; intros; subst; reflexivity. Qed.

Lemma key_finite_scale s m e ez :
  -1074 <= ez <= e ->
  key (S754_finite s m e)
  = cond_Zopp s (Zpos m * 2 ^ (e - ez)) * 2 ^ (ez + 1074).
Proof.
  intros H. cbn [key].
  replace (e + 1074) with ((e - ez) + (ez + 1074)) by lia.
  rewrite Z.pow_add_r by lia.
  destruct s; cbn [cond_Zopp]; lia.
Qed.

Lemma binary_normalize_positive d e :
  -1074 <= e ->
  positive_float (binary_normalize prec emax d e false) = (0 <? d).
Proof.
  intros He. destruct d as [|p|p]; cbn [binary_normalize].
  - reflexivity.
  - now apply binary_round_pos.
  - apply signed_true_not_positive. unfold binary_round.
    destruct (shl_align p e _). apply binary_round_aux_signed.
Qed.

(** The sign of a difference agrees with the order of the operands. *)
Lemma SFsub_positive x y :
  valid_binary x = true -> valid_binary y = true ->
  x <> S754_nan -> y <> S754_nan ->
  positive_float (SFsub prec emax y x) = (key x <? key y).
Proof.
  intros Vx Vy Nx Ny. pose proof keyInf_pos as HI.
  destruct x as [sx|sx| |sx mx ex]; try congruence;
  destruct y as [sy|sy| |sy my ey]; try congruence;
  try (pose proof (key_finite_bound _ _ _ Vx) as Bx);
  try (pose proof (key_finite_bound _ _ _ Vy) as By).
  all: try (cbn [SFsub key positive_float negb];
            try (destruct sx); try (destruct sy);
            cbn [cond_Zopp positive_float negb]; symmetry;
            first [ apply Z.ltb_lt; lia | apply Z.ltb_ge; lia ]).
  (* two finite numbers *)
  destruct (valid_finite _ _ _ Vx) as (Hex & _).
  destruct (valid_finite _ _ _ Vy) as (Hey & _).
  cbn [SFsub]. set (ez := Z.min ey ex).
  rewrite binary_normalize_positive by (unfold ez; lia).
  rewrite !shl_align_fst by (unfold ez; lia).
  rewrite (key_finite_scale sx mx ex ez), (key_finite_scale sy my ey ez)
    by (unfold ez; lia).
  assert (Hp : 0 < 2 ^ (ez + 1074)) by (apply Z.pow_pos_nonneg; unfold ez; lia).
  set (a := cond_Zopp sy _). set (b := cond_Zopp sx _).
  destruct (Z.ltb_spec 0 (a - b)); symmetry;
    [apply Z.ltb_lt | apply Z.ltb_ge]; nia.
Qed.

Local Open Scope float_scope.

Lemma Prim2SF_not_nan x : is_nan x = false -> Prim2SF x <> S754_nan.
Proof.
  unfold Prim2SF. intros ->.
  destruct (is_zero x); [discriminate|].
  destruct (is_infinity x); [discriminate|].
  destruct (Z.frexp x) as [r e].
  destruct (shr_fexp _ _ _ _ _) as [shr e'].
  destruct (shr_m shr); discriminate.
Qed.

Lemma SFltb_zero r : SFltb (S754_zero false) r = positive_float r.
Proof. destruct r as [s|[|]| |[|] m e]; reflexivity. Qed.

Lemma ltb_fkey x y :
  is_nan x = false -> is_nan y = false -> (x <? y) = (fkey x <? fkey y)%Z.
Proof.
  intros Hx Hy. rewrite ltb_spec. unfold SFltb, fkey.
  rewrite compare_key by auto using Prim2SF_valid, Prim2SF_not_nan.
  destruct (Z.compare_spec (key (Prim2SF x)) (key (Prim2SF y)));
    symmetry; first [apply Z.ltb_lt; lia | apply Z.ltb_ge; lia].
Qed.

Lemma leb_fkey x y :
  is_nan x = false -> is_nan y = false -> (x <=? y) = (fkey x <=? fkey y)%Z.
Proof.
  intros Hx Hy. rewrite leb_spec. unfold SFleb, fkey.
  rewrite compare_key by auto using Prim2SF_valid, Prim2SF_not_nan.
  destruct (Z.compare_spec (key (Prim2SF x)) (key (Prim2SF y)));
    symmetry; first [apply Z.leb_le; lia | apply Z.leb_gt; lia].
Qed.

Lemma eqb_fkey x y :
  is_nan x = false -> is_nan y = false -> (x =? y) = (fkey x =? fkey y)%Z.
Proof.
  intros Hx Hy. rewrite eqb_spec. unfold SFeqb, fkey.
  rewrite compare_key by auto using Prim2SF_valid, Prim2SF_not_nan.
  destruct (Z.compare_spec (key (Prim2SF x)) (key (Prim2SF y)));
    symmetry; first [apply Z.eqb_eq; lia | apply Z.eqb_neq; lia].
Qed.

Lemma sub_positive x y :
  is_nan x = false -> is_nan y = false ->
  (0 <? y - x) = (fkey x <? fkey y)%Z.
Proof.
  intros Hx Hy. rewrite ltb_spec, sub_spec.
  change (Prim2SF 0) with (S754_zero false).
  rewrite SFltb_zero. unfold SF64sub, fkey.
  apply SFsub_positive; auto using Prim2SF_valid, Prim2SF_not_nan.
Qed.

End Order.

(** ** Numbers that are neither negative nor [NaN] *)

Section Fine.

Lemma fineSF_intro x : signed false x -> x <> S754_nan -> fineSF x.
Proof. destruct x; simpl; auto; congruence. Qed.

Lemma digits_le_of_lt p k : Zpos p < 2 ^ k -> Zpos (digits2_pos p) <= k.
Proof.
  intros H. pose proof (digits_lower p) as Hl.
  destruct (Z.le_gt_cases (Zpos (digits2_pos p)) k) as [|Hgt]; [assumption|].
  assert (2 ^ k <= 2 ^ (Zpos (digits2_pos p) - 1)).
  { destruct (Z.le_gt_cases 0 k).
    - apply Z.pow_le_mono_r; lia.
    - rewrite (Z.pow_neg_r 2 k) by lia. apply Z.pow_nonneg. lia. }
  lia.
Qed.

Lemma shr_fexp_bound m e l k :
  0 < m < 2 ^ k -> 53 <= k -> -1074 <= e ->
  0 < shr_m (fst (shr_fexp prec emax m e l)) <= m
  /\ snd (shr_fexp prec emax m e l) <= e + (k - 53).
Proof.
  intros Hm Hk He. unfold shr_fexp, shr, fexp, SpecFloat.emin, prec, emax.
  destruct m as [|p|p]; try lia. cbn [Zdigits2].
  pose proof (digits_lower p) as Hl.
  pose proof (digits_le_of_lt p k ltac:(lia)) as Hd.
  set (d := Zpos (digits2_pos p)) in *.
  destruct (Z.max (d + e - 53) (3 - 1024 - 53) - e) as [|q|q] eqn:E;
    cbn [fst snd]; rewrite ?shr_record_of_loc_m; try (split; lia).
  rewrite iter_shr by (rewrite shr_record_of_loc_m; lia).
  rewrite shr_record_of_loc_m. split; [|lia].
  assert (Hq : Zpos q <= d - 1) by lia.
  assert (Hp : 0 < 2 ^ Zpos q) by (apply Z.pow_pos_nonneg; lia).
  assert (2 ^ Zpos q <= 2 ^ (d - 1)) by (apply Z.pow_le_mono_r; lia).
  split; [apply Z.div_str_pos; lia|].
  apply Z.div_le_upper_bound; [lia|]. nia.
Qed.

Lemma round_nearest_even_le m l : round_nearest_even m l <= m + 1.
Proof. destruct l as [|[| |]]; simpl; try lia. destruct (Z.even m); lia. Qed.

Lemma binary_round_aux_finite m e :
  0 < m < 2 ^ 63 -> -1074 <= e <= 0 ->
  exists m' e', binary_round_aux prec emax false m e loc_Exact
                = S754_finite false m' e'.
Proof.
  intros Hm He. unfold binary_round_aux.
  destruct (shr_fexp_bound m e loc_Exact 63 Hm ltac:(lia) ltac:(lia)) as [H1 H1'].
  destruct (shr_fexp_pos m e loc_Exact ltac:(lia) ltac:(lia)) as [_ H1''].
  destruct (shr_fexp prec emax m e loc_Exact) as [mrs' e']. cbn [fst snd] in *.
  pose proof (round_nearest_even_ge (shr_m mrs') (loc_of_shr_record mrs')) as Hr.
  pose proof (round_nearest_even_le (shr_m mrs') (loc_of_shr_record mrs')) as Hr'.
  set (m1 := round_nearest_even _ _) in *.
  assert (Hm1 : 0 < m1 < 2 ^ 64).
  { change (2 ^ 64) with (2 * 2 ^ 63). lia. }
  destruct (shr_fexp_bound m1 e' loc_Exact 64 Hm1 ltac:(lia) H1'') as [H2 H2'].
  destruct (shr_fexp prec emax m1 e' loc_Exact) as [mrs'' e'']. cbn [fst snd] in *.
  destruct (shr_m mrs'') as [|p|p]; try lia.
  unfold prec, emax.
  destruct (Z.leb_spec e'' (1024 - 53)); [eauto|lia].
Qed.

Lemma binary_round_finite p :
  Zpos p < 2 ^ 63 ->
  exists m e, binary_round prec emax false p 0 = S754_finite false m e.
Proof.
  intros Hp. unfold binary_round.
  pose proof (digits_upper p) as Hu. pose proof (digits_lower p) as Hl.
  pose proof (digits_le_of_lt p 63 Hp) as Hd.
  unfold fexp, SpecFloat.emin, prec, emax.
  set (d := Zpos (digits2_pos p)) in *.
  assert (Hd0 : 0 < d) by (unfold d; lia).
  replace (Z.max (d + 0 - 53) (3 - 1024 - 53)) with (d - 53) by lia.
  pose proof (shl_align_fst p 0 (d - 53)) as Hf.
  assert (Hs : -1074 <= snd (shl_align p 0 (d - 53)) <= 0).
  { unfold shl_align. destruct (d - 53 - 0) eqn:E; cbn [snd]; lia. }
  assert (Hm : Zpos (fst (shl_align p 0 (d - 53))) < 2 ^ 63).
  { unfold shl_align in *. destruct (d - 53 - 0) as [|q|q] eqn:E; cbn [fst] in *; try lia.
    rewrite Hf by lia.
    replace (0 - (d - 53)) with (53 - d) by lia.
    assert (2 ^ d * 2 ^ (53 - d) = 2 ^ 53).
    { rewrite <- Z.pow_add_r by lia. f_equal. lia. }
    assert (0 < 2 ^ (53 - d)) by (apply Z.pow_pos_nonneg; lia).
    assert (2 ^ 53 < 2 ^ 63) by (apply Z.pow_lt_mono_r; lia).
    nia. }
  destruct (shl_align p 0 (d - 53)) as [mz ez]. cbn [fst snd] in *.
  apply binary_round_aux_finite; lia.
Qed.

Local Open Scope float_scope.

Lemma Z2F_spec n :
  (0 <= n < 2 ^ 63)%Z ->
  Prim2SF (Z2F n) = binary_normalize prec emax n 0 false.
Proof.
  intros Hn. unfold Z2F. destruct (Z.ltb_spec n 0); [lia|].
  rewrite of_uint63_spec, Uint63.of_Z_spec. f_equal.
  apply Z.mod_small. exact Hn.
Qed.

Lemma Z2F_posFinite n : (0 < n < 2 ^ 63)%Z -> posFinite (Z2F n).
Proof.
  intros Hn. unfold posFinite. rewrite Z2F_spec by lia.
  destruct n as [|p|p]; try lia. apply binary_round_finite. lia.
Qed.

Lemma binary_normalize_not_nan n e s : binary_normalize prec emax n e s <> S754_nan.
Proof.
  destruct n; cbn [binary_normalize]; [discriminate|apply binary_round_not_nan..].
Qed.

Lemma is_nan_Prim2SF x : is_nan x = true -> Prim2SF x = S754_nan.
Proof. unfold Prim2SF. now intros ->. Qed.

Lemma not_nan_iff x : is_nan x = false <-> Prim2SF x <> S754_nan.
Proof.
  split; [apply Prim2SF_not_nan|].
  intros H. destruct (is_nan x) eqn:E; [|reflexivity].
  now apply is_nan_Prim2SF in E.
Qed.

Lemma Z2F_not_nan n : is_nan (Z2F n) = false.
Proof.
  apply not_nan_iff. unfold Z2F. destruct (n <? 0)%Z.
  - rewrite opp_spec, of_uint63_spec.
    pose proof (binary_normalize_not_nan (Uint63.to_Z (Uint63.of_Z (- n))) 0 false).
    destruct (binary_normalize _ _ _ _ _); simpl; congruence.
  - rewrite of_uint63_spec. apply binary_normalize_not_nan.
Qed.

Lemma Z2F_fine n : (0 <= n)%Z -> fine (Z2F n).
Proof.
  intros Hn. apply fineSF_intro.
  - now apply Z2F_nonneg.
  - apply not_nan_iff, Z2F_not_nan.
Qed.

Lemma fine_not_nan x : fine x -> is_nan x = false.
Proof.
  unfold fine. intros H. apply not_nan_iff. intros E. now rewrite E in H.
Qed.

Lemma fine_add x y : fine x -> fine y -> fine (x + y).
Proof.
  unfold fine. rewrite add_spec. unfold SF64add.
  destruct (Prim2SF x) as [sx|sx| |sx mx ex], (Prim2SF y) as [sy|sy| |sy my ey];
    cbn [fineSF SFadd]; intros Hx Hy; subst; try contradiction; try reflexivity.
  cbn [cond_Zopp]. apply fineSF_intro.
  - rewrite <- Pos2Z.inj_add. cbn [binary_normalize].
    unfold binary_round. destruct (shl_align _ _ _). apply binary_round_aux_signed.
  - apply binary_normalize_not_nan.
Qed.

Lemma fine_mul x c : fine x -> posFinite c -> fine (x * c).
Proof.
  unfold fine. intros Hx (m & e & Hc). rewrite mul_spec, Hc. unfold SF64mul.
  destruct (Prim2SF x) as [sx|sx| |sx mx ex]; cbn [fineSF SFmul] in *;
    subst; try contradiction; try reflexivity.
  apply fineSF_intro.
  - apply binary_round_aux_signed.
  - apply binary_round_aux_not_nan. lia.
Qed.

Lemma fine_div x y : fine x -> posFinite y -> fine (x / y).
Proof.
  unfold fine. intros Hx (m & e & Hy). rewrite div_spec, Hy. unfold SF64div.
  destruct (Prim2SF x) as [sx|sx| |sx mx ex]; cbn [fineSF SFdiv] in *;
    subst; try contradiction; try reflexivity.
  unfold SFdiv_core_binary.
  set (m' := match _ with Z0 => _ | Zpos _ => _ | Zneg _ => _ end).
  assert (Hm' : (0 <= m')%Z).
  { unfold m'. destruct (_ - _)%Z; try lia. apply Z.shiftl_nonneg. lia. }
  pose proof (Z.div_pos m' (Zpos m) Hm' ltac:(lia)) as Hq.
  unfold Z.div in Hq.
  destruct (Z.div_eucl m' (Zpos m)) as [q r]. cbn [xorb].
  apply fineSF_intro.
  - apply binary_round_aux_signed.
  - apply binary_round_aux_not_nan. exact Hq.
Qed.

Lemma Math_round_not_nan x : is_nan x = false -> is_nan (Math_round x) = false.
Proof.
  intros Hx. unfold Math_round.
  destruct (Prim2SF x) as [s|s| |s m e]; try assumption.
  destruct (0 <=? e)%Z; [assumption|].
  destruct (_ && _); [reflexivity|apply Z2F_not_nan].
Qed.

End Fine.

End Binary64Facts.

(** ** The number model on known values *)

Section NumberExamples.

Local Open Scope float_scope.

Example Math_round_ties :
  (Math_round 2.5, Math_round (-2.5), Math_round 0.49999999999999994,
   Math_round 142.5)
  = (3, -2, 0, 143).
Proof. reflexivity. Qed.

Example Math_round_negative_zero :
  (Math_round (-0.5), Math_round (-0.2)) = (neg_zero, neg_zero).
Proof. reflexivity. Qed.

Example Math_floor_values :
  (Math_floor 2.7, Math_floor (-2.7), Math_floor 0.5, Math_floor (-0.5))
  = (2, -3, 0, -1).
Proof. reflexivity. Qed.

Example truthy_values :
  (truthy 0, truthy neg_zero, truthy nan, truthy 0.1) = (false, false, false, true).
Proof. reflexivity. Qed.

(** The weights in binary64: the products the scorer forms are the
    expected numbers, although 0.3, 0.2, 0.15 and 0.1 are not binary
    fractions. *)
Example weighted_constants :
  (100 * 0.3, 100 * 0.2, 70 * 0.2, 50 * 0.15, 100 * 0.1, 70 * 0.1)
  = (30, 20, 14, 7.5, 10, 7).
Proof. reflexivity. Qed.

(** A year of 365.25 days and a day, in milliseconds. *)
Example time_constants :
  (365.25 * 24 * 60 * 60 * 1000, 1000 * 60 * 60 * 24) = (31557600000, 86400000).
Proof. reflexivity. Qed.

End NumberExamples.

(** * The match scorer *)

Section ScorerFacts.

Import Binary64 Binary64Facts.

Context {string_case : StringCase}.

Local Open Scope float_scope.

(** Splits the goal along every test the scorer makes. *)
Ltac case_ifs :=
  repeat match goal with
         | |- context [if ?b then _ else _] => destruct b
         end.

(** Closes a fact about constants by evaluation. *)
Ltac by_evaluation := vm_compute; reflexivity.

Ltac pos_const := eexists; eexists; by_evaluation.

(** ** The sum the scorer accumulates *)

Lemma calculateLanguageMatch_nonneg candidate preferred :
  nonneg (calculateLanguageMatch candidate preferred).
Proof.
  unfold calculateLanguageMatch.
  destruct (List.length preferred =? 0)%nat; [by_evaluation|].
  apply mul_nonneg; [|by_evaluation].
  apply div_nonneg; apply Z2F_nonneg; lia.
Qed.

(** The statements of [calculateMatchScore], which add to [score] one
    factor after the other and skip the country block without a match,
    compute the weighted sum of the five factors. *)
Lemma calculateMatchScore_sum clock auPair host :
  calculateMatchScore clock auPair host
  = Math_round
      (Spec.weightedSum (languageScore auPair host) (countryScore auPair host)
                        (ageScore clock auPair host)
                        (availabilityScore clock auPair)
                        (budgetScore auPair host)).
Proof.
  unfold calculateMatchScore, Spec.weightedSum, languageScore, countryScore,
    ageScore, availabilityScore, budgetScore.
  cbv zeta.
  set (L := calculateLanguageMatch _ _).
  assert (HL : nonneg (L * 0.3)).
  { apply mul_nonneg; [apply calculateLanguageMatch_nonneg|by_evaluation]. }
  rewrite (add_0_l _ HL).
  rewrite (mul_comm 0.3), (mul_comm 0.2), (mul_comm 0.15), (mul_comm 0.1).
  destruct (includes _ _); [reflexivity|].
  now rewrite (add_0_r _ HL).
Qed.

(** ** Each helper follows its rule of the weight table *)

Lemma existsb_pointwise {A : Type} (f g : A -> bool) l :
  (forall x, f x = g x) -> existsb f l = existsb g l.
Proof.
  intros H. induction l as [|x l IH]; simpl; [reflexivity|].
  now rewrite H, IH.
Qed.

Lemma length_filter_matching candidate preferred :
  List.length
    (filter (fun lang =>
               existsb (fun p => String.eqb (toLowerCase p) (toLowerCase lang))
                       preferred)
            candidate)
  = Spec.matchingCount candidate preferred.
Proof.
  induction candidate as [|lang rest IH]; simpl; [reflexivity|].
  rewrite (existsb_pointwise _ (Spec.sameLanguage lang)).
  - destruct (existsb _ preferred); simpl; now rewrite IH.
  - intros p. unfold Spec.sameLanguage. apply String.eqb_sym.
Qed.

Lemma calculateLanguageMatch_spec candidate preferred :
  calculateLanguageMatch candidate preferred
  = Spec.languageSubScore candidate preferred.
Proof.
  unfold calculateLanguageMatch, Spec.languageSubScore.
  destruct preferred as [|p preferred]; [reflexivity|].
  cbn [List.length Nat.eqb]. now rewrite length_filter_matching.
Qed.

Lemma includes_spec preferred c :
  includes preferred c = true
  <-> exists x, c = Some x /\ In x (orEmpty preferred).
Proof.
  unfold includes. destruct preferred as [l|], c as [x|]; simpl.
  - rewrite existsb_exists. split.
    + intros (y & Hy & E). apply String.eqb_eq in E. subst. eauto.
    + intros (y & [= <-] & Hy). exists x. split; [assumption|apply String.eqb_refl].
  - split; [discriminate|]. intros (y & [=] & _).
  - split; [discriminate|]. intros (y & _ & []).
  - split; [discriminate|]. intros (y & [=] & _).
Qed.

Lemma countryScore_spec auPair host :
  countryScore auPair host
  = Spec.countryPoints (orEmpty (preferredCountries auPair)) (country host).
Proof.
  unfold Spec.countryPoints, countryScore.
  destruct (includes _ _) eqn:E.
  - apply includes_spec in E. destruct E as (x & -> & Hx).
    destruct (in_dec string_dec x _); [reflexivity|contradiction].
  - destruct (country host) as [x|]; [|reflexivity].
    destruct (in_dec string_dec x _) as [Hx|]; [|reflexivity].
    assert (includes (preferredCountries auPair) (Some x) = true)
      by (apply includes_spec; eauto).
    congruence.
Qed.

Lemma calculateAgeMatch_spec now birth children :
  calculateAgeMatch now birth children = Spec.ageSubScore now birth children.
Proof.
  unfold calculateAgeMatch, Spec.ageSubScore, Spec.age, Spec.within.
  destruct birth as [b|]; [|reflexivity].
  destruct children as [|c children]; [reflexivity|].
  cbn [List.length Nat.eqb].
  change (365.25 * Spec.msPerDay) with (365.25 * 24 * 60 * 60 * 1000).
  cbv zeta. now rewrite <- !andb_assoc.
Qed.

Lemma calculateAvailabilityMatch_spec from to reference :
  calculateAvailabilityMatch from to (Some reference)
  = Spec.availabilitySubScore from to reference.
Proof.
  unfold calculateAvailabilityMatch, Spec.availabilitySubScore.
  destruct from as [f|], to as [t|]; reflexivity.
Qed.

Lemma calculateBudgetMatch_spec rate budget :
  calculateBudgetMatch rate budget = Spec.budgetSubScore rate budget.
Proof.
  unfold calculateBudgetMatch, Spec.budgetSubScore, Spec.budgetSubScoreAsStated,
    Spec.amount.
  destruct rate as [r|], budget as [b|]; try reflexivity.
  - destruct (truthy r), (truthy b); reflexivity.
  - destruct (truthy r); reflexivity.
Qed.

(** C1, as the code has it.  For every candidate profile and every
    counterparty, the score is the rounded weighted sum [0.3 * language
    + country + 0.2 * age + 0.15 * availability + 0.1 * budget]: the
    country factor is 0 or 25 raw points, and the other four sub-scores
    follow the rules of the weight table (language overlap ratio, age bands
    over the age in years of 365.25 days, availability distance bands,
    budget ratio bands), a rate or a budget of zero counting as one that
    is not given. *)
Theorem calculateMatchScore_refines_spec clock candidate counterparty :
  calculateMatchScore clock candidate counterparty
  = Spec.score clock candidate counterparty.
Proof.
  rewrite calculateMatchScore_sum. unfold Spec.score, Spec.scoreWith. cbv zeta.
  unfold languageScore, ageScore, availabilityScore, budgetScore.
  now rewrite calculateLanguageMatch_spec, countryScore_spec,
    calculateAgeMatch_spec, calculateAvailabilityMatch_spec,
    calculateBudgetMatch_spec.
Qed.

(** ** The values the helpers can take *)

Lemma calculateAgeMatch_range now birth children :
  In (calculateAgeMatch now birth children) [50; 100; 70; 30].
Proof.
  unfold calculateAgeMatch. destruct birth; [|simpl; auto].
  cbv zeta. case_ifs; simpl; auto.
Qed.

Lemma calculateAvailabilityMatch_range from to start :
  In (calculateAvailabilityMatch from to start) [50; 100; 80; 60; 30; 10].
Proof.
  unfold calculateAvailabilityMatch.
  destruct from, to, start; cbv zeta; case_ifs; simpl; auto 10.
Qed.

Lemma calculateBudgetMatch_range rate budget :
  In (calculateBudgetMatch rate budget) [50; 100; 70; 40; 10].
Proof.
  unfold calculateBudgetMatch.
  destruct rate, budget; cbv zeta; case_ifs; simpl; auto 10.
Qed.

Lemma calculateLanguageMatch_fine candidate preferred :
  jsArray preferred -> fine (calculateLanguageMatch candidate preferred).
Proof.
  unfold jsArray, calculateLanguageMatch. intros Hp.
  destruct preferred as [|p preferred]; cbn [List.length Nat.eqb].
  - by_evaluation.
  - apply fine_mul; [|pos_const].
    apply fine_div; [apply Z2F_fine; lia|].
    apply Z2F_posFinite. cbn [List.length] in *.
    assert (2 ^ 32 < 2 ^ 63)%Z by (apply Z.pow_lt_mono_r; lia). lia.
Qed.

Lemma fine_weighted s a w l :
  fine s -> In a l -> Forall (fun c => fine (c * w)) l -> fine (s + a * w).
Proof.
  intros Hs Ha Hl. apply fine_add; [assumption|].
  rewrite Forall_forall in Hl. now apply Hl.
Qed.

(** The score of a host family whose preferred languages fit a JS array is
    a number, not [NaN]. *)
Lemma calculateMatchScore_not_nan clock auPair host :
  jsArray (orEmpty (preferredLanguages host)) ->
  is_nan (calculateMatchScore clock auPair host) = false.
Proof.
  intros Hp. unfold calculateMatchScore. cbv zeta.
  apply Math_round_not_nan, fine_not_nan.
  apply fine_weighted with (l := [50; 100; 70; 40; 10]);
    [|apply calculateBudgetMatch_range|repeat constructor; by_evaluation].
  apply fine_weighted with (l := [50; 100; 80; 60; 30; 10]);
    [|apply calculateAvailabilityMatch_range|repeat constructor; by_evaluation].
  apply fine_weighted with (l := [50; 100; 70; 30]);
    [|apply calculateAgeMatch_range|repeat constructor; by_evaluation].
  assert (H0 : fine (0 + calculateLanguageMatch (orEmpty (languages auPair))
                                 (orEmpty (preferredLanguages host)) * 0.3)).
  { apply fine_add; [by_evaluation|].
    apply fine_mul; [now apply calculateLanguageMatch_fine|pos_const]. }
  destruct (includes _ _); [|exact H0].
  apply fine_add; [exact H0|by_evaluation].
Qed.

End ScorerFacts.

(** ** The budget factor *)

Section BudgetFacts.

Local Open Scope float_scope.

Lemma truthy_false_iff x :
  truthy x = false <-> (x =? 0) = true \/ is_nan x = true.
Proof.
  unfold truthy. rewrite negb_false_iff, orb_true_iff. reflexivity.
Qed.

Lemma absentOrZero_spec o :
  absentOrZero o <-> o = None \/ exists x, o = Some x /\ truthy x = false.
Proof.
  destruct o as [x|]; simpl.
  - rewrite <- truthy_false_iff. split.
    + intros H. right. eauto.
    + intros [[=]|(y & [= <-] & H)]. exact H.
  - split; auto.
Qed.

(** C4, as the code has it.  If the rate or the budget is absent, or is
    zero or [NaN], the budget sub-score is 50; else, if the rate is at
    most the budget, it is 100 (rate 15 against budget 20 contributes
    [0.1 * 100 = 10] points); else the ratio rate/budget decides: at most
    1.2 gives 70, at most 1.5 gives 40, anything larger 10. *)
Theorem calculateBudgetMatch_rule (rate budget : option number) :
  (absentOrZero rate \/ absentOrZero budget ->
   calculateBudgetMatch rate budget = 50)
  /\ (forall r b,
        rate = Some r -> budget = Some b ->
        ~ absentOrZero rate -> ~ absentOrZero budget ->
        calculateBudgetMatch rate budget
        = if r <=? b then 100
          else if r / b <=? 1.2 then 70
          else if r / b <=? 1.5 then 40
          else 10)
  /\ calculateBudgetMatch (Some 15) (Some 20) = 100
  /\ 0.1 * 100 = 10.
Proof.
  repeat split.
  - rewrite !absentOrZero_spec.
    intros [[->|(x & -> & Hx)]|[->|(x & -> & Hx)]];
      unfold calculateBudgetMatch;
      try reflexivity; try (destruct rate; reflexivity).
    + rewrite Hx. destruct budget; reflexivity.
    + destruct rate as [r|]; [|reflexivity].
      rewrite Hx, orb_true_r. reflexivity.
  - intros r b -> -> Hr Hb. unfold calculateBudgetMatch.
    destruct (truthy r) eqn:Er.
    + destruct (truthy b) eqn:Eb; [reflexivity|].
      exfalso. apply Hb, truthy_false_iff, Eb.
    + exfalso. apply Hr, truthy_false_iff, Er.
Qed.

(** The rule at rate 24 and budget 20, where neither is zero. *)
Lemma calculateBudgetMatch_rule_witness :
  calculateBudgetMatch (Some 24) (Some 20) = 70.
Proof.
  refine (proj1 (proj2 (calculateBudgetMatch_rule (Some 24) (Some 20)))
            24 20 eq_refl eq_refl _ _);
    intros [H|H]; vm_compute in H; discriminate.
Defined.

(** C4, as it is stated, fails: a rate of 0 is at most a budget of 20, and
    the sub-score is 50, not 100. *)
Lemma budgetRuleAsStated_fails : ~ budgetRuleAsStated.
Proof.
  intros H. specialize (H (Some 0) (Some 20)).
  vm_compute in H. discriminate.
Qed.

End BudgetFacts.

(** ** Single factors in the final score *)

Section FactorFacts.

Import Binary64 Binary64Facts.

Context {string_case : StringCase}.

Local Open Scope float_scope.

(** C5.  The country factor is 25 points when the counterparty's country
    is, as the very same string, among the candidate's preferred
    countries, and nothing otherwise: the score is then the rounded sum of
    the other four factors alone.  The strings are compared as they are:
    a candidate who prefers "USA" gets nothing for a family in "usa". *)
Theorem country_contributes_25_or_0 clock auPair host :
  let matched :=
    exists c, country host = Some c /\ In c (orEmpty (preferredCountries auPair)) in
  (matched ->
   countryScore auPair host = 25
   /\ calculateMatchScore clock auPair host
      = Math_round (0.3 * languageScore auPair host + 25
                    + 0.2 * ageScore clock auPair host
                    + 0.15 * availabilityScore clock auPair
                    + 0.1 * budgetScore auPair host))
  /\ (~ matched ->
      countryScore auPair host = 0
      /\ calculateMatchScore clock auPair host
         = Math_round (0.3 * languageScore auPair host
                       + 0.2 * ageScore clock auPair host
                       + 0.15 * availabilityScore clock auPair
                       + 0.1 * budgetScore auPair host))
  /\ (preferredCountries auPair = Some ["USA"%string] ->
      country host = Some "usa"%string ->
      countryScore auPair host = 0).
Proof.
  intros matched.
  assert (Hc : countryScore auPair host
               = if includes (preferredCountries auPair) (country host)
                 then 25 else 0) by reflexivity.
  pose proof (includes_spec (preferredCountries auPair) (country host)) as Hi.
  fold matched in Hi.
  split; [intros Hm | split; [intros Hm | intros Hp Hh]].
  - apply Hi in Hm. rewrite calculateMatchScore_sum, Hc, Hm. now split.
  - assert (Hn : includes (preferredCountries auPair) (country host) = false).
    { destruct (includes _ _); [|reflexivity]. exfalso. now apply Hm, Hi. }
    rewrite calculateMatchScore_sum, Hc, Hn. split; [reflexivity|].
    unfold Spec.weightedSum. do 4 f_equal.
    apply add_0_r. rewrite mul_comm.
    apply mul_nonneg; [apply calculateLanguageMatch_nonneg|vm_compute; reflexivity].
  - rewrite Hc, Hp, Hh. reflexivity.
Qed.

(** C7.  When the counterparty prefers no language, the language sub-score
    is 100 whatever the candidate speaks, and the language factor is
    [0.3 * 100 = 30] points of the sum that is rounded to the score. *)
Theorem empty_preference_gives_30_points clock auPair host :
  orEmpty (preferredLanguages host) = [] ->
  languageScore auPair host = 100
  /\ 0.3 * languageScore auPair host = 30
  /\ calculateMatchScore clock auPair host
     = Math_round (30 + countryScore auPair host
                   + 0.2 * ageScore clock auPair host
                   + 0.15 * availabilityScore clock auPair
                   + 0.1 * budgetScore auPair host).
Proof.
  intros Hp.
  assert (HL : languageScore auPair host = 100).
  { unfold languageScore. rewrite Hp. reflexivity. }
  repeat split.
  - exact HL.
  - rewrite HL. reflexivity.
  - rewrite calculateMatchScore_sum, HL. reflexivity.
Qed.

(** C10.  A rate or a budget that is given as 0 is taken for a missing
    one: the budget sub-score is the neutral 50, so the budget factor is
    [0.1 * 50 = 5] points, not the [0.1 * 100 = 10] of a rate within the
    budget. *)
Theorem zero_amount_counts_as_absent clock auPair host :
  hourlyRate auPair = Some 0 \/ maxBudget host = Some 0 ->
  budgetScore auPair host = 50
  /\ calculateMatchScore clock auPair host
     = Math_round (0.3 * languageScore auPair host + countryScore auPair host
                   + 0.2 * ageScore clock auPair host
                   + 0.15 * availabilityScore clock auPair
                   + 5)
  /\ 0.1 * 100 = 10.
Proof.
  intros Hz.
  assert (HB : budgetScore auPair host = 50).
  { unfold budgetScore, calculateBudgetMatch.
    destruct Hz as [-> | ->].
    - destruct (maxBudget host); reflexivity.
    - destruct (hourlyRate auPair) as [r|]; [|reflexivity].
      change (truthy 0) with false. now rewrite orb_true_r. }
  repeat split.
  - exact HB.
  - rewrite calculateMatchScore_sum, HB. reflexivity.
Qed.

End FactorFacts.

Section FactorExamples.

Import Examples.

Local Open Scope float_scope.

(** Scenario B: "USA" is preferred, the family lives in "usa". *)
Lemma country_contributes_25_or_0_witness :
  countryScore prefersUSA livesInLowercaseUsa = 0.
Proof.
  apply (proj2 (proj2 (country_contributes_25_or_0 clock0 prefersUSA
                         livesInLowercaseUsa)));
    reflexivity.
Defined.

(** A family without preferred languages and a candidate without any. *)
Lemma empty_preference_gives_30_points_witness :
  languageScore (speaks []) (prefers []) = 100.
Proof.
  apply (empty_preference_gives_30_points clock0 (speaks []) (prefers [])).
  reflexivity.
Defined.

(** A candidate who asks for nothing, a family with a budget of 20. *)
Lemma zero_amount_counts_as_absent_witness :
  budgetScore freeOfCharge budgetOf20 = 50.
Proof.
  apply (zero_amount_counts_as_absent clock0 freeOfCharge budgetOf20).
  left. reflexivity.
Defined.

(** C1, with the budget rule as the table words it, fails: for a candidate
    who asks for nothing an hour and a family with a budget of 20 the table
    gives the budget sub-score 100 and the score 58; the code gives 50 and
    53. *)
Lemma scoreRuleAsStated_fails : ~ scoreRuleAsStated.
Proof.
  intros H. specialize (H clock0 freeOfCharge budgetOf20).
  vm_compute in H. discriminate.
Qed.

(** C3 fails on the code.  A candidate who lists one language in four
    spellings matches the one preferred language four times: the language
    sub-score is 400, and the score is 143, above 100. *)
Theorem score_above_100 :
  languageScore fourSpellings wantsEnglish = 400
  /\ calculateMatchScore clock0 fourSpellings wantsEnglish = 143
  /\ isInteger 143 = true
  /\ (143 <=? 100) = false.
Proof. repeat split; vm_compute; reflexivity. Qed.

End FactorExamples.

(** ** Letter case *)

Section LowerCase.

Context {string_case : StringCase}.

Lemma existsb_map_lower z preferred :
  existsb (fun p => String.eqb (toLowerCase p) z) preferred
  = existsb (fun y => String.eqb y z) (map toLowerCase preferred).
Proof.
  induction preferred as [|p preferred IH]; simpl; [reflexivity|].
  now rewrite IH.
Qed.

Lemma length_filter_lower candidate preferred :
  List.length
    (filter (fun lang =>
               existsb (fun p => String.eqb (toLowerCase p) (toLowerCase lang))
                       preferred)
            candidate)
  = List.length
      (filter (fun x => existsb (fun y => String.eqb y x) (map toLowerCase preferred))
              (map toLowerCase candidate)).
Proof.
  induction candidate as [|lang rest IH]; simpl; [reflexivity|].
  rewrite existsb_map_lower.
  destruct (existsb _ _); simpl; now rewrite IH.
Qed.

(** The language sub-score depends on the lower-cased languages only. *)
Lemma calculateLanguageMatch_lower candidate candidate' preferred preferred' :
  map toLowerCase candidate = map toLowerCase candidate' ->
  map toLowerCase preferred = map toLowerCase preferred' ->
  calculateLanguageMatch candidate preferred
  = calculateLanguageMatch candidate' preferred'.
Proof.
  intros Hc Hp. unfold calculateLanguageMatch.
  assert (Hl : List.length preferred = List.length preferred').
  { rewrite <- (length_map toLowerCase preferred), Hp. apply length_map. }
  now rewrite !length_filter_lower, Hc, Hp, Hl.
Qed.

End LowerCase.

Section LetterCase.

Context {string_case : StringCase}.

Local Open Scope float_scope.

Lemma sameUpToCase_map l l' :
  Forall2 sameUpToCase l l' -> map toLowerCase l = map toLowerCase l'.
Proof.
  induction 1 as [|s t l l' Hst _ IH]; simpl; [reflexivity|].
  unfold sameUpToCase in Hst. now rewrite IH, Hst.
Qed.

Lemma lowerAscii_swapCase c : lowerAscii (swapCase c) = lowerAscii c.
Proof. destruct c as [[] [] [] [] [] [] [] []]; reflexivity. Qed.

Lemma caseVariant_lower s t : caseVariant s t -> lowerString s = lowerString t.
Proof.
  induction 1 as [|c s t _ IH|c s t _ IH]; simpl.
  - reflexivity.
  - now rewrite IH.
  - now rewrite IH, lowerAscii_swapCase.
Qed.

(** C6.  Whatever the lower-casing function of the runtime is, the score
    does not change when language names, on either side, are replaced by
    names that differ from them in letter case only, that is, by names
    with the same lower-casing.  For ASCII names these are the names with
    the case of some letters changed; "French" and "English" against the
    preferred "french" give the language sub-score 100, which is
    [0.3 * 100 = 30] points. *)
Theorem score_invariant_under_letter_case clock auPair host languages' preferred' :
  Forall2 sameUpToCase (orEmpty (languages auPair)) languages' ->
  Forall2 sameUpToCase (orEmpty (preferredLanguages host)) preferred' ->
  calculateMatchScore clock (withLanguages auPair languages')
                      (withPreferredLanguages host preferred')
  = calculateMatchScore clock auPair host
  /\ calculateLanguageMatch languages' preferred'
     = calculateLanguageMatch (orEmpty (languages auPair))
                              (orEmpty (preferredLanguages host))
  /\ (forall s t, caseVariant s t -> @sameUpToCase AsciiCase s t)
  /\ @calculateLanguageMatch AsciiCase ["French"; "English"]%string ["french"%string]
     = 100
  /\ 0.3 * 100 = 30.
Proof.
  intros Hl Hp.
  assert (HL : calculateLanguageMatch languages' preferred'
               = calculateLanguageMatch (orEmpty (languages auPair))
                                        (orEmpty (preferredLanguages host))).
  { apply calculateLanguageMatch_lower; symmetry; now apply sameUpToCase_map. }
  split; [|split; [exact HL|split; [exact caseVariant_lower|split; reflexivity]]].
  unfold calculateMatchScore. cbn [withLanguages withPreferredLanguages
    languages preferredLanguages preferredCountries dateOfBirth availableFrom
    availableTo hourlyRate country childrenAges maxBudget orEmpty].
  now rewrite HL.
Qed.

End LetterCase.

Section LetterCaseExample.

Import Examples.

Local Open Scope float_scope.

(** Builds the derivation of [caseVariant s t] for two given strings. *)
Ltac case_variant :=
  repeat match goal with
         | |- caseVariant EmptyString EmptyString => apply cv_empty
         | |- caseVariant (String ?c _) (String ?c _) => apply cv_keep
         | |- caseVariant (String ?c ?s) (String _ ?t) =>
             change (caseVariant (String c s) (String (swapCase c) t));
             apply cv_swap
         end.

(** The candidate of scenario A, who writes "french" and "ENGLISH",
    against a family that writes "FRENCH". *)
Lemma score_invariant_under_letter_case_witness :
  calculateMatchScore clock0 (withLanguages (speaks ["French"; "English"]%string)
                                            ["french"; "ENGLISH"]%string)
                      (withPreferredLanguages (prefers ["french"%string])
                                              ["FRENCH"%string])
  = calculateMatchScore clock0 (speaks ["French"; "English"]%string)
                        (prefers ["french"%string]).
Proof.
  apply (score_invariant_under_letter_case (string_case := AsciiCase) clock0
           (speaks ["French"; "English"]%string) (prefers ["french"%string])).
  - repeat constructor; apply caseVariant_lower; case_variant.
  - repeat constructor; apply caseVariant_lower; case_variant.
Defined.

End LetterCaseExample.

(** * Ranking *)

Section SortFacts.

Context {A : Type} (comparefn : A -> A -> number) (k : A -> Z) (good : A -> Prop).
Context (R : A -> A -> Prop) (sel : A -> bool).

(** On the elements in question the comparison function orders by the key
    [k], descending; [R] is that order, and [sel] picks elements of one
    key. *)
Hypothesis comparefn_key :
  forall x y, good x -> good y -> (0 <? comparefn x y)%float = (k x <? k y).
Hypothesis R_key :
  forall x y, good x -> good y -> (R x y <-> k y <= k x).
Hypothesis sel_key :
  forall x y, good x -> good y -> sel x = true -> sel y = true -> k x = k y.

Lemma insert_perm x l : Permutation (x :: l) (insert comparefn x l).
Proof.
  induction l as [|y l IH]; simpl; [reflexivity|].
  destruct (0 <? comparefn x y)%float; [|reflexivity].
  rewrite perm_swap. now apply perm_skip.
Qed.

Lemma sort_perm l : Permutation l (sort comparefn l).
Proof.
  induction l as [|x l IH]; simpl; [reflexivity|].
  rewrite <- insert_perm. now apply perm_skip.
Qed.

Lemma insert_sorted x l :
  good x -> Forall good l ->
  StronglySorted R l -> StronglySorted R (insert comparefn x l).
Proof.
  intros Hx Hl Hs. induction Hs as [|y l Hs IH Hy]; simpl.
  - repeat constructor.
  - inversion Hl as [|? ? Gy Gl]; subst.
    rewrite comparefn_key by assumption.
    destruct (Z.ltb_spec (k x) (k y)) as [Hlt|Hge].
    + constructor; [now apply IH|].
      rewrite <- insert_perm. constructor; [|assumption].
      apply R_key; [assumption..|lia].
    + constructor; [now constructor|].
      constructor; [apply R_key; assumption|].
      rewrite Forall_forall in *. intros z Hz.
      apply R_key; [auto..|].
      specialize (Hy z Hz). apply R_key in Hy; auto. lia.
Qed.

Lemma sort_sorted l : Forall good l -> StronglySorted R (sort comparefn l).
Proof.
  induction l as [|x l IH]; simpl; intros Hl; [constructor|].
  inversion Hl; subst.
  apply insert_sorted; auto.
  now rewrite <- sort_perm.
Qed.

(** An element is moved only behind elements of a larger key, so it
    overtakes no element of its own key. *)
Lemma insert_stable x l :
  good x -> Forall good l ->
  filter sel (insert comparefn x l) = filter sel (x :: l).
Proof.
  intros Hx Hl. induction Hl as [|y l Gy Gl IH]; [reflexivity|].
  cbn [insert]. rewrite comparefn_key by assumption.
  destruct (Z.ltb_spec (k x) (k y)) as [Hlt|Hge]; [|reflexivity].
  cbn [filter] in *. rewrite IH.
  destruct (sel x) eqn:Sx, (sel y) eqn:Sy; try reflexivity.
  pose proof (sel_key x y Hx Gy Sx Sy). lia.
Qed.

Lemma sort_stable l :
  Forall good l -> filter sel (sort comparefn l) = filter sel l.
Proof.
  induction l as [|x l IH]; simpl; intros Hl; [reflexivity|].
  inversion Hl; subst.
  rewrite insert_stable; auto.
  - simpl. now rewrite IH.
  - now rewrite <- sort_perm.
Qed.

End SortFacts.

Lemma slice0_firstn {A : Type} (l : list A) n :
  0 <= n -> slice0 l n = firstn (Z.to_nat n) l.
Proof.
  intros Hn. unfold slice0.
  destruct (Z.ltb_spec n 0); [lia|].
  destruct (Z.le_ge_cases n (Z.of_nat (List.length l))).
  - now rewrite Z.min_l.
  - rewrite Z.min_r, Nat2Z.id by assumption.
    rewrite firstn_all. symmetry. apply firstn_all2. lia.
Qed.

(** * The counterparties of a user *)

Section CounterpartyFacts.

Context {string_case : StringCase}.


Lemma In_slice0 {A : Type} (l : list A) n x : In x (slice0 l n) -> In x l.
Proof.
  unfold slice0. generalize (Z.to_nat
    (if n <? 0 then Z.max (Z.of_nat (List.length l) + n) 0
     else Z.min n (Z.of_nat (List.length l)))).
  intros k. revert l. induction k as [|k IH]; intros [|y l]; simpl; try tauto.
  intros [->|Hin]; [now left|right; now apply IH].
Qed.

Lemma In_sort {A : Type} (comparefn : A -> A -> number) l x :
  In x (sort comparefn l) <-> In x l.
Proof.
  split; intros Hin.
  - apply (Permutation_in x (Permutation_sym (sort_perm comparefn l))), Hin.
  - apply (Permutation_in x (sort_perm comparefn l)), Hin.
Qed.

Lemma In_scoreHosts clock i ap hosts c :
  In c (scoreHosts clock i ap hosts) ->
  In (user c) hosts
  /\ exists hp j, hostFamilyProfile (user c) = Some hp
                  /\ matchScore c = calculateMatchScore (clock j) ap hp.
Proof.
  revert i. induction hosts as [|h hosts IH]; intros i; simpl; [tauto|].
  destruct (hostFamilyProfile h) as [hp|] eqn:E.
  - intros [<-|Hin]; simpl.
    + split; [now left|]. now exists hp, i.
    + destruct (IH _ Hin) as [Hu Hs]. split; [now right|assumption].
  - intros Hin. destruct (IH _ Hin) as [Hu Hs]. split; [now right|assumption].
Qed.

Lemma In_scoreAuPairs clock i hp auPairs c :
  In c (scoreAuPairs clock i hp auPairs) ->
  In (user c) auPairs
  /\ exists ap j, auPairProfile (user c) = Some ap
                  /\ matchScore c = calculateMatchScore (clock j) ap hp.
Proof.
  revert i. induction auPairs as [|a auPairs IH]; intros i; simpl; [tauto|].
  destruct (auPairProfile a) as [ap|] eqn:E.
  - intros [<-|Hin]; simpl.
    + split; [now left|]. now exists ap, i.
    + destruct (IH _ Hin) as [Hu Hs]. split; [now right|assumption].
  - intros Hin. destruct (IH _ Hin) as [Hu Hs]. split; [now right|assumption].
Qed.

Lemma scoreHosts_In clock i ap hosts h hp :
  In h hosts -> hostFamilyProfile h = Some hp ->
  exists j, In {| user := h; matchScore := calculateMatchScore (clock j) ap hp |}
               (scoreHosts clock i ap hosts).
Proof.
  revert i. induction hosts as [|x hosts IH]; intros i; simpl; [tauto|].
  intros [->|Hin] Hp.
  - rewrite Hp. exists i. now left.
  - destruct (hostFamilyProfile x).
    + destruct (IH (S i) Hin Hp) as [j Hj]. exists j. now right.
    + apply (IH i Hin Hp).
Qed.

Lemma scoreAuPairs_In clock i hp auPairs a ap :
  In a auPairs -> auPairProfile a = Some ap ->
  exists j, In {| user := a; matchScore := calculateMatchScore (clock j) ap hp |}
               (scoreAuPairs clock i hp auPairs).
Proof.
  revert i. induction auPairs as [|x auPairs IH]; intros i; simpl; [tauto|].
  intros [->|Hin] Hp.
  - rewrite Hp. exists i. now left.
  - destruct (auPairProfile x).
    + destruct (IH (S i) Hin Hp) as [j Hj]. exists j. now right.
    + apply (IH i Hin Hp).
Qed.

Lemma In_findMany table r userId x :
  In x (findMany table r userId)
  <-> In x table /\ role x = r /\ isActive x = true /\ id x <> userId.
Proof.
  unfold findMany. rewrite filter_In, !andb_true_iff, negb_true_iff.
  rewrite String.eqb_neq.
  assert (Hr : Role_eqb (role x) r = true <-> role x = r)
    by (destruct (role x), r; simpl; split; congruence).
  tauto.
Qed.

Lemma potentialMatches_length clock table u :
  (List.length (potentialMatches clock table u) <= List.length table)%nat.
Proof.
  assert (Hh : forall ap l i, (List.length (scoreHosts clock i ap l) <= List.length l)%nat).
  { intros ap l. induction l as [|h l IH]; intros i; simpl; [lia|].
    destruct (hostFamilyProfile h); simpl.
    - specialize (IH (S i)). lia.
    - specialize (IH i). lia. }
  assert (Ha : forall hp l i, (List.length (scoreAuPairs clock i hp l) <= List.length l)%nat).
  { intros hp l. induction l as [|h l IH]; intros i; simpl; [lia|].
    destruct (auPairProfile h); simpl.
    - specialize (IH (S i)). lia.
    - specialize (IH i). lia. }
  assert (Hf : forall r x, (List.length (findMany table r x) <= List.length table)%nat).
  { intros r x. apply filter_length_le. }
  unfold potentialMatches.
  destruct (role u), (auPairProfile u), (hostFamilyProfile u); simpl; try lia.
  all: try (etransitivity; [apply Hh|apply Hf]).
  all: etransitivity; [apply Ha|apply Hf].
Qed.

Lemma sort_length {A : Type} (comparefn : A -> A -> number) l :
  List.length (sort comparefn l) = List.length l.
Proof. symmetry. apply Permutation_length, sort_perm. Qed.

End CounterpartyFacts.

Section RankingFacts.

Import Binary64 Binary64Facts.

Context {string_case : StringCase}.

Lemma scoreHosts_scored clock i auPair hosts :
  (forall h hp, In h hosts -> hostFamilyProfile h = Some hp ->
                jsArray (orEmpty (preferredLanguages hp))) ->
  Forall scored (scoreHosts clock i auPair hosts).
Proof.
  revert i. induction hosts as [|h hosts IH]; intros i Hh; simpl; [constructor|].
  destruct (hostFamilyProfile h) as [hp|] eqn:E.
  - constructor.
    + apply calculateMatchScore_not_nan. apply (Hh h); [now left|assumption].
    + apply IH. intros h' hp' Hin. apply Hh. now right.
  - apply IH. intros h' hp' Hin. apply Hh. now right.
Qed.

Lemma scoreAuPairs_scored clock i host auPairs :
  jsArray (orEmpty (preferredLanguages host)) ->
  Forall scored (scoreAuPairs clock i host auPairs).
Proof.
  intros Hh. revert i. induction auPairs as [|a auPairs IH]; intros i; simpl;
    [constructor|].
  destruct (auPairProfile a) as [ap|].
  - constructor; [now apply calculateMatchScore_not_nan|apply IH].
  - apply IH.
Qed.

Lemma potentialMatches_scored clock table u :
  preferredLanguagesAreArrays table -> In u table ->
  Forall scored (potentialMatches clock table u).
Proof.
  intros Ht Hu. unfold potentialMatches.
  destruct (role u), (auPairProfile u) as [ap|], (hostFamilyProfile u) as [hp|] eqn:E;
    try constructor.
  all: try (apply scoreHosts_scored; intros h hp' Hin;
            apply Ht; unfold findMany in Hin; now apply filter_In in Hin).
  all: apply scoreAuPairs_scored; now apply (Ht u).
Qed.

(** C8.  For every user and every user table (whose preferred-language
    lists fit JS arrays), [findMatches] returns the top [N] of a ranking of
    the counterparties of the user, for a caller-supplied [N >= 0] and for
    20 when none is supplied.  The ranking holds the counterparties and
    nothing else: each entry is an active user of the table of the
    opposite role, other than the caller, with the profile of its role and
    with the score of the au pair's profile against the host family's;
    and each such user of the table has an entry.  The scores of the
    ranking never increase, and entries of equal score keep the order
    they had in the input, the scored list [potentialMatches] that lists
    them in the order of the table.  [GET /potential] passes a positive
    limit on and asks for 20 when the limit is missing or not a number. *)
Theorem findMatches_ranks_by_score clock table userId u N :
  findUnique table userId = Some u ->
  preferredLanguagesAreArrays table ->
  0 <= N ->
  exists ranking,
    (forall c, In c ranking ->
       In (user c) table /\ isActive (user c) = true /\ id (user c) <> userId
       /\ ((role u = AU_PAIR /\ role (user c) = HOST_FAMILY
            /\ exists ap hp j, auPairProfile u = Some ap
                               /\ hostFamilyProfile (user c) = Some hp
                               /\ matchScore c = calculateMatchScore (clock j) ap hp)
           \/ (role u = HOST_FAMILY /\ role (user c) = AU_PAIR
               /\ exists ap hp j, auPairProfile (user c) = Some ap
                                  /\ hostFamilyProfile u = Some hp
                                  /\ matchScore c = calculateMatchScore (clock j) ap hp)))
    /\ (forall x ap hp,
          In x table -> isActive x = true -> id x <> userId ->
          (role u = AU_PAIR /\ auPairProfile u = Some ap
           /\ role x = HOST_FAMILY /\ hostFamilyProfile x = Some hp)
          \/ (role u = HOST_FAMILY /\ hostFamilyProfile u = Some hp
              /\ role x = AU_PAIR /\ auPairProfile x = Some ap) ->
          exists c j, In c ranking /\ user c = x
                      /\ matchScore c = calculateMatchScore (clock j) ap hp)
    /\ Permutation (potentialMatches clock table u) ranking
    /\ StronglySorted notBelow ranking
    /\ (forall v, withScore v ranking = withScore v (potentialMatches clock table u))
    /\ findMatches clock table userId (Some N) = Ok (firstn (Z.to_nat N) ranking)
    /\ findMatches clock table userId None = Ok (firstn 20 ranking)
    /\ (0 < N -> getPotential clock table userId (Some N)
                 = Ok (firstn (Z.to_nat N) ranking))
    /\ getPotential clock table userId None = Ok (firstn 20 ranking).
Proof.
  intros Hu Ht HN.
  assert (Hin : In u table) by (apply find_some in Hu; tauto).
  assert (Hid : id u = userId).
  { unfold findUnique in Hu. apply find_some in Hu. now apply String.eqb_eq. }
  pose proof (potentialMatches_scored clock table u Ht Hin) as Hs.
  assert (Hsound : forall c, In c (potentialMatches clock table u) ->
       In (user c) table /\ isActive (user c) = true /\ id (user c) <> userId
       /\ ((role u = AU_PAIR /\ role (user c) = HOST_FAMILY
            /\ exists ap hp j, auPairProfile u = Some ap
                               /\ hostFamilyProfile (user c) = Some hp
                               /\ matchScore c = calculateMatchScore (clock j) ap hp)
           \/ (role u = HOST_FAMILY /\ role (user c) = AU_PAIR
               /\ exists ap hp j, auPairProfile (user c) = Some ap
                                  /\ hostFamilyProfile u = Some hp
                                  /\ matchScore c = calculateMatchScore (clock j) ap hp))).
  { intros c Hc. unfold potentialMatches in Hc. rewrite Hid in Hc.
    destruct (role u) eqn:Er.
    - destruct (auPairProfile u) as [ap|] eqn:Ea;
        [|destruct (hostFamilyProfile u); contradiction].
      apply In_scoreHosts in Hc. destruct Hc as [Hc [hp [j [Hp Hsc]]]].
      apply In_findMany in Hc. destruct Hc as [Hc [Hr [Hact Hne]]].
      split; [assumption|]. split; [assumption|]. split; [assumption|].
      left. split; [reflexivity|]. split; [assumption|]. now exists ap, hp, j.
    - destruct (hostFamilyProfile u) as [hp|] eqn:Eh;
        [|destruct (auPairProfile u); contradiction].
      assert (Hc' : In c (scoreAuPairs clock 0 hp (findMany table AU_PAIR userId)))
        by (destruct (auPairProfile u); assumption).
      apply In_scoreAuPairs in Hc'. destruct Hc' as [Hc' [ap [j [Hp Hsc]]]].
      apply In_findMany in Hc'. destruct Hc' as [Hc' [Hr [Hact Hne]]].
      split; [assumption|]. split; [assumption|]. split; [assumption|].
      right. split; [reflexivity|]. split; [assumption|]. now exists ap, hp, j.
    - destruct (auPairProfile u), (hostFamilyProfile u); contradiction. }
  assert (Hcomplete : forall x ap hp,
          In x table -> isActive x = true -> id x <> userId ->
          (role u = AU_PAIR /\ auPairProfile u = Some ap
           /\ role x = HOST_FAMILY /\ hostFamilyProfile x = Some hp)
          \/ (role u = HOST_FAMILY /\ hostFamilyProfile u = Some hp
              /\ role x = AU_PAIR /\ auPairProfile x = Some ap) ->
          exists c j, In c (potentialMatches clock table u) /\ user c = x
                      /\ matchScore c = calculateMatchScore (clock j) ap hp).
  { intros x ap hp Hx Hact Hne Hroles. unfold potentialMatches. rewrite Hid.
    destruct Hroles as [[Hr [Hp [Hrx Hpx]]]|[Hr [Hp [Hrx Hpx]]]]; rewrite Hr, Hp.
    - destruct (scoreHosts_In clock 0 ap (findMany table HOST_FAMILY userId) x hp)
        as [j Hj]; [now apply In_findMany|assumption|].
      eexists. exists j. split; [exact Hj|]. split; reflexivity.
    - destruct (scoreAuPairs_In clock 0 hp (findMany table AU_PAIR userId) x ap)
        as [j Hj]; [now apply In_findMany|assumption|].
      destruct (auPairProfile u);
        (eexists; exists j; split; [exact Hj|]; split; reflexivity). }
  set (pm := potentialMatches clock table u) in *.
  assert (Hcmp : forall x y, scored x -> scored y ->
            (0 <? byScoreDesc x y)%float
            = (fkey (matchScore x) <? fkey (matchScore y))).
  { intros x y Hx Hy. now apply sub_positive. }
  assert (HR : forall x y, scored x -> scored y ->
            (notBelow x y <-> fkey (matchScore y) <= fkey (matchScore x))).
  { intros x y Hx Hy. unfold notBelow. rewrite leb_fkey by assumption.
    apply Z.leb_le. }
  exists (sort byScoreDesc pm).
  split; [intros c Hc; apply Hsound; now apply In_sort in Hc|].
  split.
  { intros x ap hp Hx Hact Hne Hroles.
    destruct (Hcomplete x ap hp Hx Hact Hne Hroles) as [c [j [Hc [Hux Hsc]]]].
    exists c, j. split; [now apply In_sort|]. now split. }
  repeat split.
  - apply sort_perm.
  - now apply (sort_sorted byScoreDesc (fun c => fkey (matchScore c)) scored).
  - intros v. unfold withScore.
    destruct (is_nan v) eqn:Ev.
    + (* no entry has the score NaN *)
      assert (Hnone : forall l, filter (fun c => (matchScore c =? v)%float) l = []).
      { induction l as [|c l IH]; simpl; [reflexivity|].
        rewrite eqb_spec, (is_nan_Prim2SF v Ev).
        unfold SFeqb, SFcompare. now destruct (Prim2SF (matchScore c)). }
      now rewrite !Hnone.
    + apply (sort_stable byScoreDesc (fun c => fkey (matchScore c)) scored);
        [assumption| |assumption].
      intros x y Hx Hy Ex Ey.
      rewrite eqb_fkey in Ex, Ey by assumption.
      apply Z.eqb_eq in Ex, Ey. congruence.
  - unfold findMatches. now rewrite Hu, slice0_firstn.
  - unfold findMatches. rewrite Hu, slice0_firstn by lia. reflexivity.
  - intros HN'. unfold getPotential, findMatches, requestedLimit.
    destruct (Z.eqb_spec N 0); [lia|]. now rewrite Hu, slice0_firstn.
  - unfold getPotential, findMatches, requestedLimit.
    rewrite Hu, slice0_firstn by lia. reflexivity.
Qed.

End RankingFacts.

Section RankingExample.

Import Examples.

Local Open Scope string_scope.

(** The ranking of the three host families of [userTable] for "ap1",
    cut to two entries: "h2" with the score 53, then "h1", which comes
    before "h3" in the table and has the same score 38. *)
Lemma findMatches_ranks_by_score_witness :
  findMatches (fun _ => clock0) userTable "ap1" (Some 2)
  = Ok [ {| user := hostUser "h2" ["french"]; matchScore := 53%float |};
         {| user := hostUser "h1" ["german"; "french"]; matchScore := 38%float |} ]
  /\ exists ranking,
       (forall x ap hp,
          In x userTable -> isActive x = true -> id x <> "ap1" ->
          (role auPairUser = AU_PAIR /\ auPairProfile auPairUser = Some ap
           /\ role x = HOST_FAMILY /\ hostFamilyProfile x = Some hp)
          \/ (role auPairUser = HOST_FAMILY /\ hostFamilyProfile auPairUser = Some hp
              /\ role x = AU_PAIR /\ auPairProfile x = Some ap) ->
          exists c, In c ranking /\ user c = x
                    /\ matchScore c = calculateMatchScore clock0 ap hp)
       /\ StronglySorted notBelow ranking
       /\ findMatches (fun _ => clock0) userTable "ap1" (Some 2)
          = Ok (firstn (Z.to_nat 2) ranking)
       /\ findMatches (fun _ => clock0) userTable "ap1" None = Ok (firstn 20 ranking).
Proof.
  split; [vm_compute; reflexivity|].
  destruct (findMatches_ranks_by_score (fun _ => clock0) userTable "ap1" auPairUser 2)
    as [ranking [_ [Hall [_ [Hsorted [_ [Htop [Hdefault _]]]]]]]].
  - reflexivity.
  - intros h hp Hin Hp. unfold jsArray.
    simpl in Hin.
    destruct Hin as [<-|[<-|[<-|[<-|[]]]]]; simpl in Hp;
      try discriminate; injection Hp as <-; simpl; lia.
  - lia.
  - exists ranking. split; [|split; [assumption|split; assumption]].
    intros x ap hp Hx Hact Hne Hroles.
    destruct (Hall x ap hp Hx Hact Hne Hroles) as [c [j Hc]]. now exists c.
Defined.

End RankingExample.

(** * Bookings *)

Section ConflictFacts.

Lemma statusIn_active s :
  statusIn s [BookingStatus.PENDING; BookingStatus.APPROVED] = true
  <-> Spec.active s.
Proof.
  unfold Spec.active. destruct s; simpl; split; intros H;
    try discriminate; try reflexivity; auto; destruct H; discriminate.
Qed.

(** The three conditions of the query are the overlap of two intervals
    with inclusive bounds. *)
Lemma three_conditions_overlap s e bs be :
  s <= e -> bs <= be ->
  (((bs <=? s) && (s <=? be)) || ((bs <=? e) && (e <=? be))
   || ((s <=? bs) && (be <=? e))) = true
  <-> Spec.sharesInstant s e bs be.
Proof.
  intros Hse Hb. unfold Spec.sharesInstant.
  rewrite !orb_true_iff, !andb_true_iff, !Z.leb_le. split.
  - intros [[[H1 H2]|[H1 H2]]|[H1 H2]].
    + exists s. lia.
    + exists e. lia.
    + exists bs. lia.
  - intros (t & Ht & Hbt).
    destruct (Z.le_gt_cases bs s); [left; left; lia|].
    destruct (Z.le_gt_cases e be); [left; right; lia|].
    right. lia.
Qed.

Lemma hasConflict_true table forAuPair start end_ :
  hasConflict table forAuPair start end_ = true
  <-> exists b, In b table /\ conflictWhere forAuPair start end_ b = true.
Proof.
  unfold hasConflict, conflictingBooking.
  destruct (find _ table) as [b|] eqn:E.
  - apply find_some in E. split; [eauto|reflexivity].
  - split; [discriminate|]. intros (b & Hin & Hb).
    rewrite (find_none _ _ E b Hin) in Hb. discriminate.
Qed.

Lemma conflictWhere_spec forAuPair start end_ b :
  start <= end_ -> startDate b <= endDate b ->
  conflictWhere forAuPair start end_ b = true
  <-> auPairId b = forAuPair /\ Spec.active (status b)
      /\ Spec.sharesInstant start end_ (startDate b) (endDate b).
Proof.
  intros Hse Hb. unfold conflictWhere.
  rewrite !andb_true_iff, String.eqb_eq, statusIn_active,
    (three_conditions_overlap start end_ _ _ Hse Hb).
  tauto.
Qed.

(** C2.  For a proposed interval and reservations that are intervals
    (start not after end), the check finds a conflict exactly when a
    reservation of the au pair whose status is PENDING or APPROVED shares
    an instant with the proposed interval, bounds included.  So
    reservations in any other status cause no conflict, an active
    reservation that touches the proposed interval at a boundary instant
    does, and reservations that leave a gap on either side do not. *)
Theorem hasConflict_iff_active_overlap table forAuPair start end_ :
  start <= end_ ->
  (forall b, In b table -> startDate b <= endDate b) ->
  (hasConflict table forAuPair start end_ = true
   <-> exists b, In b table /\ auPairId b = forAuPair
                 /\ Spec.active (status b)
                 /\ Spec.sharesInstant start end_ (startDate b) (endDate b))
  /\ ((forall b, In b table -> ~ Spec.active (status b)) ->
      hasConflict table forAuPair start end_ = false)
  /\ (forall b, In b table -> auPairId b = forAuPair -> Spec.active (status b) ->
        endDate b = start \/ startDate b = end_ ->
        hasConflict table forAuPair start end_ = true)
  /\ ((forall b, In b table -> endDate b < start \/ end_ < startDate b) ->
      hasConflict table forAuPair start end_ = false).
Proof.
  intros Hse Hwf.
  assert (Hiff : hasConflict table forAuPair start end_ = true
                 <-> exists b, In b table /\ auPairId b = forAuPair
                               /\ Spec.active (status b)
                               /\ Spec.sharesInstant start end_ (startDate b) (endDate b)).
  { rewrite hasConflict_true. split; intros (b & Hin & H); exists b;
      (split; [assumption|]); apply (conflictWhere_spec _ _ _ b Hse (Hwf b Hin));
      assumption. }
  split; [exact Hiff|]. repeat split.
  - intros Hna. apply not_true_is_false. intros H.
    apply Hiff in H. destruct H as (b & Hin & _ & Ha & _). now apply (Hna b).
  - intros b Hin Hid Ha Htouch. apply Hiff. exists b. repeat split; try assumption.
    specialize (Hwf b Hin). unfold Spec.sharesInstant.
    destruct Htouch; [exists start|exists end_]; lia.
  - intros Hgap. apply not_true_is_false. intros H.
    apply Hiff in H. destruct H as (b & Hin & _ & _ & t & Ht & Hbt).
    specialize (Hgap b Hin). lia.
Qed.

End ConflictFacts.

Section ConflictExamples.

Import Examples.

Local Open Scope string_scope.

(** Scenario D: March 10 to 15 against an approved reservation from March
    15 to 20.  Scenario E: March 1 to 5 against a rejected reservation
    from March 2 to 4. *)
Lemma hasConflict_iff_active_overlap_witness :
  hasConflict [approvedMarch15to20] "ap1" (march2025 10) (march2025 15) = true
  /\ hasConflict [rejectedMarch2to4] "ap1" (march2025 1) (march2025 5) = false.
Proof.
  assert (HD : forall b, In b [approvedMarch15to20] -> startDate b <= endDate b).
  { intros b [<-|[]]. vm_compute. discriminate. }
  assert (HE : forall b, In b [rejectedMarch2to4] -> startDate b <= endDate b).
  { intros b [<-|[]]. vm_compute. discriminate. }
  split.
  - refine (proj1 (proj2 (proj2
              (hasConflict_iff_active_overlap [approvedMarch15to20] "ap1"
                 (march2025 10) (march2025 15) _ HD)))
              approvedMarch15to20 _ eq_refl _ _).
    + vm_compute. discriminate.
    + now left.
    + right. reflexivity.
    + right. reflexivity.
  - refine (proj1 (proj2
              (hasConflict_iff_active_overlap [rejectedMarch2to4] "ap1"
                 (march2025 1) (march2025 5) _ HE)) _).
    + vm_compute. discriminate.
    + intros b [<-|[]] [H|H]; discriminate H.
Defined.

End ConflictExamples.

Section CreateBookingFacts.

Local Open Scope string_scope.

(** C9.  A request whose end is not strictly after its start, or whose
    start is strictly before the current instant, is answered with status
    400 and leaves the store as it was; a request that reaches the
    conflict check (it is answered with the conflict message, or with 201
    and a new booking) has passed both checks. *)
Theorem createBooking_validates_dates now db req start end_ :
  reqStartDate req = Some start ->
  reqEndDate req = Some end_ ->
  ((~ start < end_ \/ start < now) ->
   statusCode (fst (createBooking now db req)) = 400
   /\ snd (createBooking now db req) = db)
  /\ ((message (fst (createBooking now db req))
       = "There is a conflicting booking for this time period"
       \/ statusCode (fst (createBooking now db req)) = 201
       \/ snd (createBooking now db req) <> db) ->
      start < end_ /\ now <= start).
Proof.
  intros Hs He. unfold createBooking. rewrite Hs, He.
  destruct (targetUserId req) as [target|]; cbn [fst snd respond statusCode message].
  2: { split; [auto|]. intros [Hr|[Hr|Hr]]; [discriminate Hr..|contradiction]. }
  destruct (String.eqb target EmptyString);
    cbn [fst snd respond statusCode message].
  1: { split; [auto|]. intros [Hr|[Hr|Hr]]; [discriminate Hr..|contradiction]. }
  destruct (Z.leb_spec end_ start) as [Hle|Hlt];
    cbn [fst snd respond statusCode message].
  1: { split; [auto|]. intros [Hr|[Hr|Hr]]; [discriminate Hr..|contradiction]. }
  destruct (Z.ltb_spec start now) as [Hpast|Hfuture];
    cbn [fst snd respond statusCode message].
  1: { split; [auto|]. intros [Hr|[Hr|Hr]]; [discriminate Hr..|contradiction]. }
  split; [lia|]. intros _. lia.
Qed.

End CreateBookingFacts.

Section CreateBookingExamples.

Import Examples.

(** A request from March 10 to March 10, sent on March 1. *)
Lemma createBooking_validates_dates_witness :
  statusCode (fst (createBooking (march2025 1) store0 (requestDays 10 10))) = 400
  /\ snd (createBooking (march2025 1) store0 (requestDays 10 10)) = store0.
Proof.
  apply (proj1 (createBooking_validates_dates (march2025 1) store0
                  (requestDays 10 10) (march2025 10) (march2025 10)
                  eq_refl eq_refl)).
  left. vm_compute. discriminate.
Defined.

End CreateBookingExamples.

(** * More about [findMatches] *)

Section FindMatchesFacts.

Context {string_case : StringCase}.


(** X2.  A caller who has the role ADMIN, or who lacks the profile of its
    role, gets the empty list and no error, whatever the table and the
    limit. *)
Theorem findMatches_without_profile clock table userId limit u :
  findUnique table userId = Some u ->
  role u = ADMIN
  \/ (role u = AU_PAIR /\ auPairProfile u = None)
  \/ (role u = HOST_FAMILY /\ hostFamilyProfile u = None) ->
  findMatches clock table userId limit = Ok []
  /\ getPotential clock table userId limit = Ok [].
Proof.
  intros Hu Hcase.
  assert (Hpm : potentialMatches clock table u = []).
  { unfold potentialMatches.
    destruct Hcase as [->|[[-> ->]|[-> ->]]]; [| |now destruct (auPairProfile u)];
      [now destruct (auPairProfile u), (hostFamilyProfile u)|reflexivity]. }
  unfold getPotential, findMatches. rewrite Hu, Hpm. simpl.
  unfold slice0. simpl. now rewrite !firstn_nil.
Qed.


(** X4.  Matching is mutual: when an active user finds a counterparty in
    its list, that counterparty finds the user in its own full list, with
    the same score, as long as the clock reads the same. *)
Theorem findMatches_mutual k table userId limit u l c N :
  findUnique table userId = Some u ->
  isActive u = true ->
  findMatches (fun _ => k) table userId limit = Ok l ->
  In c l ->
  findUnique table (id (user c)) = Some (user c) ->
  Z.of_nat (List.length table) <= N ->
  exists l' c', findMatches (fun _ => k) table (id (user c)) (Some N) = Ok l'
                /\ In c' l' /\ user c' = u /\ matchScore c' = matchScore c.
Proof.
  intros Hu Hact Hl Hc Hx HN.
  assert (Hid : id u = userId).
  { unfold findUnique in Hu. apply find_some in Hu. now apply String.eqb_eq. }
  assert (Hin : In u table) by (unfold findUnique in Hu; now apply find_some in Hu).
  unfold findMatches in Hl. rewrite Hu in Hl. injection Hl as <-.
  apply In_slice0, In_sort in Hc.
  unfold findMatches. rewrite Hx.
  set (pm := potentialMatches (fun _ => k) table (user c)).
  assert (Hall : slice0 (sort byScoreDesc pm) N = sort byScoreDesc pm).
  { rewrite slice0_firstn by lia. apply firstn_all2.
    rewrite sort_length.
    pose proof (potentialMatches_length (fun _ => k) table (user c)) as Hlen.
    fold pm in Hlen. lia. }
  rewrite Hall.
  assert (Hpm : In {| user := u; matchScore := matchScore c |} pm).
  { unfold pm. unfold potentialMatches in Hc |- *. rewrite Hid in Hc.
    destruct (role u) eqn:Er.
    - destruct (auPairProfile u) as [ap|] eqn:Ea;
        [|destruct (hostFamilyProfile u); contradiction].
      apply In_scoreHosts in Hc. destruct Hc as [Hh [hp [j [Hp Hs]]]].
      apply In_findMany in Hh. destruct Hh as [Hh [Hr [Hacth Hne]]].
      rewrite Hr, Hp.
      destruct (scoreAuPairs_In (fun _ => k) 0 hp
                  (findMany table AU_PAIR (id (user c))) u ap) as [j' Hj'];
        [apply In_findMany; repeat split; congruence|assumption|].
      rewrite Hs.
      destruct (auPairProfile (user c)); exact Hj'.
    - destruct (hostFamilyProfile u) as [hp|] eqn:Eh;
        [|destruct (auPairProfile u); contradiction].
      assert (Hc' : In c (scoreAuPairs (fun _ => k) 0 hp (findMany table AU_PAIR userId)))
        by (destruct (auPairProfile u); assumption).
      apply In_scoreAuPairs in Hc'. destruct Hc' as [Ha [ap [j [Hp Hs]]]].
      apply In_findMany in Ha. destruct Ha as [Ha [Hr [Hacta Hne]]].
      rewrite Hr, Hp.
      destruct (scoreHosts_In (fun _ => k) 0 ap
                  (findMany table HOST_FAMILY (id (user c))) u hp) as [j' Hj'];
        [apply In_findMany; repeat split; congruence|assumption|].
      rewrite Hs. exact Hj'.
    - destruct (auPairProfile u), (hostFamilyProfile u); contradiction. }
  exists (sort byScoreDesc pm), {| user := u; matchScore := matchScore c |}.
  repeat split. now apply In_sort.
Qed.

End FindMatchesFacts.

Section FindMatchesExamples.

Import Examples RouteExamples.

Local Open Scope string_scope.

(** An administrator gets the empty list. *)
Lemma findMatches_without_profile_witness :
  findMatches (fun _ => clock0) (adminUser :: userTable) "admin" None = Ok []
  /\ getPotential (fun _ => clock0) (adminUser :: userTable) "admin" None = Ok [].
Proof.
  apply (findMatches_without_profile _ _ _ _ adminUser).
  - reflexivity.
  - left. reflexivity.
Defined.


(** "h2" is in the list of "ap1", and "ap1" in the list of "h2", both
    with the score 53. *)
Lemma findMatches_mutual_witness :
  exists l' c', findMatches (fun _ => clock0) userTable "h2" (Some 4) = Ok l'
                /\ In c' l' /\ user c' = auPairUser /\ matchScore c' = 53%float.
Proof.
  apply (findMatches_mutual clock0 userTable "ap1" (Some 1) auPairUser
           [h2Scored] h2Scored 4).
  - reflexivity.
  - reflexivity.
  - reflexivity.
  - now left.
  - reflexivity.
  - simpl. lia.
Defined.

End FindMatchesExamples.

(** * More about [POST /] of the bookings *)

Section CreateBookingMore.

(** The host and the au pair of a request, as the handler names them. *)
Lemma createBooking_cases now db req :
  (statusCode (fst (createBooking now db req)) <> 201
   /\ snd (createBooking now db req) = db)
  \/ (exists target start end_ targetUser m,
        let host := if Role_eqb (userRole req) HOST_FAMILY then userId req else target in
        let auPair := if Role_eqb (userRole req) AU_PAIR then userId req else target in
        targetUserId req = Some target
        /\ reqStartDate req = Some start /\ reqEndDate req = Some end_
        /\ start < end_ /\ now <= start
        /\ find (fun u => String.eqb (id u) target) (users db) = Some targetUser
        /\ isActive targetUser = true
        /\ (userRole req = AU_PAIR -> role targetUser = HOST_FAMILY)
        /\ (userRole req = HOST_FAMILY -> role targetUser = AU_PAIR)
        /\ approvedMatch (matches db) host auPair = Some m
        /\ hasConflict (bookings db) auPair start end_ = false
        /\ createBooking now db req
           = (respond 201 "Booking request created successfully"%string,
              {| users := users db; matches := matches db;
                 bookings := bookings db ++
                   [{| auPairId := auPair; hostId := host;
                       startDate := start; endDate := end_;
                       status := BookingStatus.PENDING |}] |})).
Proof.
  unfold createBooking.
  destruct (targetUserId req) as [target|]; [|left; split; [discriminate|reflexivity]].
  destruct (reqStartDate req) as [start|]; [|left; split; [discriminate|reflexivity]].
  destruct (reqEndDate req) as [end_|]; [|left; split; [discriminate|reflexivity]].
  destruct (String.eqb target EmptyString); [left; split; [discriminate|reflexivity]|].
  destruct (Z.leb_spec end_ start) as [Hle|Hlt]; [left; split; [discriminate|reflexivity]|].
  destruct (Z.ltb_spec start now) as [Hpast|Hfuture];
    [left; split; [discriminate|reflexivity]|].
  destruct (find (fun u => String.eqb (id u) target) (users db)) as [targetUser|] eqn:Et;
    [|left; split; [discriminate|reflexivity]].
  destruct (isActive targetUser) eqn:Eact; cbn [negb];
    [|left; split; [discriminate|reflexivity]].
  destruct ((Role_eqb (userRole req) AU_PAIR && negb (Role_eqb (role targetUser) HOST_FAMILY))
            || (Role_eqb (userRole req) HOST_FAMILY
                  && negb (Role_eqb (role targetUser) AU_PAIR))) eqn:Eroles;
    [left; split; [discriminate|reflexivity]|].
  cbv zeta.
  destruct (approvedMatch (matches db) _ _) as [m|] eqn:Em;
    [|left; split; [discriminate|reflexivity]].
  destruct (hasConflict (bookings db) _ start end_) eqn:Ec;
    [left; split; [discriminate|reflexivity]|].
  right. exists target, start, end_, targetUser, m. cbv zeta.
  repeat split; try assumption; try reflexivity.
  - intros Hr. rewrite Hr in Eroles. simpl in Eroles.
    destruct (role targetUser); simpl in Eroles; congruence.
  - intros Hr. rewrite Hr in Eroles. simpl in Eroles.
    destruct (role targetUser); simpl in Eroles; congruence.
Qed.

Lemma approvedMatch_some table host auPair m :
  approvedMatch table host auPair = Some m ->
  In m table /\ matchHostId m = host /\ matchAuPairId m = auPair
  /\ matchStatus m = MatchStatus.APPROVED.
Proof.
  unfold approvedMatch. intros Hf. apply find_some in Hf.
  destruct Hf as [Hin Hc]. apply andb_true_iff in Hc. destruct Hc as [Hc Hs].
  apply andb_true_iff in Hc. destruct Hc as [Hh Ha].
  apply String.eqb_eq in Hh, Ha.
  repeat split; try assumption. now destruct (matchStatus m).
Qed.


(** X6.  A booking is created only for a target who is in the user table
    and active, of the role opposite to the caller's when the caller is an
    au pair or a host family, and only when the match table holds an
    APPROVED match with the host and the au pair of the new booking. *)
Theorem createBooking_needs_approved_match now db req :
  statusCode (fst (createBooking now db req)) = 201 ->
  exists b t m,
    bookings (snd (createBooking now db req)) = bookings db ++ [b]
    /\ In t (users db) /\ targetUserId req = Some (id t) /\ isActive t = true
    /\ (userRole req = AU_PAIR -> role t = HOST_FAMILY)
    /\ (userRole req = HOST_FAMILY -> role t = AU_PAIR)
    /\ In m (matches db)
    /\ matchHostId m = hostId b /\ matchAuPairId m = auPairId b
    /\ matchStatus m = MatchStatus.APPROVED.
Proof.
  intros Hcode.
  destruct (createBooking_cases now db req)
    as [[Hne _]|[target [start [end_ [tu [m H]]]]]]; [contradiction|].
  cbv zeta in H.
  destruct H as [Ht [_ [_ [_ [_ [Hf [Hact [Hr1 [Hr2 [Hm [_ Hr]]]]]]]]]]].
  rewrite Hr. cbn [snd bookings].
  apply find_some in Hf. destruct Hf as [Hin Hid]. apply String.eqb_eq in Hid.
  apply approvedMatch_some in Hm. destruct Hm as [Hm [Hh [Ha Hs]]].
  eexists. exists tu, m. split; [reflexivity|].
  cbn [auPairId hostId]. rewrite Hid. repeat split; assumption.
Qed.

Lemma hasConflict_false table forAuPair start end_ b :
  hasConflict table forAuPair start end_ = false ->
  In b table -> conflictWhere forAuPair start end_ b = false.
Proof.
  unfold hasConflict, conflictingBooking. intros Hc Hin.
  destruct (find (conflictWhere forAuPair start end_) table) eqn:E; [discriminate|].
  apply (find_none _ _ E b Hin).
Qed.

Lemma sharesInstant_sym s1 e1 s2 e2 :
  Spec.sharesInstant s1 e1 s2 e2 -> Spec.sharesInstant s2 e2 s1 e1.
Proof. intros [t [H1 H2]]. exists t. now split. Qed.

Lemma ForallOrdPairs_app_one {A : Type} (R : A -> A -> Prop) l x :
  ForallOrdPairs R l -> Forall (fun a => R a x) l -> ForallOrdPairs R (l ++ [x]).
Proof.
  intros Hl Hx. induction Hl as [|a l Ha Hl IH]; simpl.
  - constructor; constructor.
  - inversion Hx as [|? ? Hax Hlx]; subst. constructor.
    + apply Forall_app. split; [assumption|]. constructor; [assumption|constructor].
    + now apply IH.
Qed.

(** X7.  [POST /] keeps the booking table sound: when every stored
    booking ends after it starts and no au pair is booked twice for an
    instant (two PENDING or APPROVED bookings of one au pair never share
    an instant), the same holds of the table the handler leaves. *)
Theorem createBooking_keeps_table_sound now db req :
  datesInOrder (bookings db) ->
  noDoubleBooking (bookings db) ->
  datesInOrder (bookings (snd (createBooking now db req)))
  /\ noDoubleBooking (bookings (snd (createBooking now db req))).
Proof.
  intros Hord Hno.
  destruct (createBooking_cases now db req)
    as [[_ Hdb]|[target [start [end_ [tu [m H]]]]]].
  - rewrite Hdb. now split.
  - cbv zeta in H.
    destruct H as [_ [_ [_ [Hlt [_ [_ [_ [_ [_ [_ [Hc Hr]]]]]]]]]]].
    rewrite Hr. cbn [snd bookings]. split.
    + apply Forall_app. split; [assumption|].
      constructor; [assumption|constructor].
    + apply ForallOrdPairs_app_one; [assumption|].
      apply Forall_forall. intros b Hin.
      unfold compatible. cbn [auPairId startDate endDate status].
      intros Hsame Hactive _ Hshare.
      pose proof (hasConflict_false _ _ _ _ b Hc Hin) as Hw.
      assert (Hb : startDate b < endDate b).
      { unfold datesInOrder in Hord. rewrite Forall_forall in Hord. now apply Hord. }
      assert (Hw' : conflictWhere
                (if Role_eqb (userRole req) AU_PAIR then userId req else target)
                start end_ b = true).
      { apply conflictWhere_spec; [lia|lia|].
        repeat split; [assumption|assumption|now apply sharesInstant_sym]. }
      congruence.
Qed.

(** X8.  A request that was answered with 201 is refused with status
    400 when it is sent again, at any instant and whatever else was
    booked in between: the booking it created stands in its way. *)
Theorem createBooking_twice_is_refused now now' db req more :
  statusCode (fst (createBooking now db req)) = 201 ->
  let db' := snd (createBooking now db req) in
  let db'' := {| users := users db'; matches := matches db';
                 bookings := bookings db' ++ more |} in
  statusCode (fst (createBooking now' db'' req)) = 400
  /\ snd (createBooking now' db'' req) = db''.
Proof.
  intros Hcode db' db''.
  destruct (createBooking_cases now db req)
    as [[Hne _]|[target [start [end_ [tu [m H]]]]]]; [contradiction|].
  cbv zeta in H.
  destruct H as [Ht [Hs [He [Hlt [_ [Hf [Hact [Hr1 [Hr2 [Hm [_ Hr]]]]]]]]]]].
  assert (Hdb' : db' = snd (createBooking now db req)) by reflexivity.
  rewrite Hr in Hdb'. cbn [snd] in Hdb'.
  assert (Hu : users db'' = users db) by (unfold db''; rewrite Hdb'; reflexivity).
  assert (Hm' : matches db'' = matches db) by (unfold db''; rewrite Hdb'; reflexivity).
  assert (Hb : hasConflict (bookings db'')
                 (if Role_eqb (userRole req) AU_PAIR then userId req else target)
                 start end_ = true).
  { apply hasConflict_true. eexists. split.
    - unfold db''. rewrite Hdb'. cbn [bookings].
      apply in_or_app. left. apply in_or_app. right. left. reflexivity.
    - unfold conflictWhere. cbn [auPairId startDate endDate status].
      rewrite String.eqb_refl. simpl.
      destruct (Z.leb_spec start start); [|lia].
      destruct (Z.leb_spec start end_); [|lia]. reflexivity. }
  destruct (createBooking_cases now' db'' req)
    as [[Hne Hsame]|[target2 [start2 [end2 [tu2 [m2 H2]]]]]].
  - split; [|assumption].
    revert Hne. unfold createBooking. rewrite Ht, Hs, He, Hu, Hm', Hf, Hact, Hm, Hb.
    destruct (String.eqb target EmptyString); [reflexivity|].
    destruct (end_ <=? start); [reflexivity|].
    destruct (start <? now'); [reflexivity|].
    cbn [negb].
    destruct ((Role_eqb (userRole req) AU_PAIR && negb (Role_eqb (role tu) HOST_FAMILY))
              || (Role_eqb (userRole req) HOST_FAMILY
                    && negb (Role_eqb (role tu) AU_PAIR))); reflexivity.
  - exfalso. cbv zeta in H2.
    destruct H2 as [Ht2 [Hs2 [He2 [_ [_ [_ [_ [_ [_ [_ [Hc2 _]]]]]]]]]]].
    rewrite Ht in Ht2. rewrite Hs in Hs2. rewrite He in He2.
    injection Ht2 as <-. injection Hs2 as <-. injection He2 as <-.
    congruence.
Qed.

End CreateBookingMore.

Section CreateBookingMoreExamples.

Import Examples.

(** A request of "ap1" for March 10 to 12, sent on March 1, is granted. *)
Lemma createBooking_needs_approved_match_witness :
  exists b t m,
    bookings (snd (createBooking (march2025 1) store0 (requestDays 10 12)))
    = bookings store0 ++ [b]
    /\ In t (users store0) /\ targetUserId (requestDays 10 12) = Some (id t)
    /\ isActive t = true
    /\ (userRole (requestDays 10 12) = AU_PAIR -> role t = HOST_FAMILY)
    /\ (userRole (requestDays 10 12) = HOST_FAMILY -> role t = AU_PAIR)
    /\ In m (matches store0)
    /\ matchHostId m = hostId b /\ matchAuPairId m = auPairId b
    /\ matchStatus m = MatchStatus.APPROVED.
Proof.
  apply (createBooking_needs_approved_match (march2025 1) store0 (requestDays 10 12)).
  reflexivity.
Defined.

(** The store of the examples is sound, and stays so. *)
Lemma createBooking_keeps_table_sound_witness :
  datesInOrder (bookings (snd (createBooking (march2025 1) store0 (requestDays 10 12))))
  /\ noDoubleBooking
       (bookings (snd (createBooking (march2025 1) store0 (requestDays 10 12)))).
Proof.
  apply (createBooking_keeps_table_sound (march2025 1) store0 (requestDays 10 12)).
  - constructor; [vm_compute; reflexivity|constructor].
  - constructor; constructor.
Defined.

(** The same request a day later. *)
Lemma createBooking_twice_is_refused_witness :
  statusCode
    (fst (createBooking (march2025 2)
            (snd (createBooking (march2025 1) store0 (requestDays 10 12)))
            (requestDays 10 12))) = 400.
Proof.
  pose proof (createBooking_twice_is_refused (march2025 1) (march2025 2) store0
                (requestDays 10 12) [] eq_refl) as H.
  cbv zeta in H. destruct H as [H _].
  rewrite app_nil_r in H. exact H.
Defined.

End CreateBookingMoreExamples.

(** * The routes that read, change and delete bookings *)

Section BookingRouteFacts.

Import BookingRoutes.

Lemma findUnique_some table key r :
  findUnique table key = Some r -> In r table /\ bookingId r = key.
Proof.
  unfold findUnique. intros Hf. apply find_some in Hf.
  destruct Hf as [Hin Hk]. apply String.eqb_eq in Hk. now split.
Qed.

Lemma findUnique_stranger table key user r :
  (forall x, In x table -> bookingId x = key ->
             auPairId (booking x) <> user /\ hostId (booking x) <> user) ->
  findUnique table key = Some r -> notAParty user (booking r) = true.
Proof.
  intros Hs Hf. apply findUnique_some in Hf. destruct Hf as [Hin Hk].
  destruct (Hs r Hin Hk) as [Ha Hh]. unfold notAParty.
  apply String.eqb_neq in Ha, Hh. now rewrite Ha, Hh.
Qed.

Lemma notAParty_false user b :
  notAParty user b = false <-> auPairId b = user \/ hostId b = user.
Proof.
  unfold notAParty.
  destruct (String.eqb_spec (auPairId b) user), (String.eqb_spec (hostId b) user);
    simpl; split; intros H; try tauto; try discriminate.
Qed.

Lemma requestedStatus_not_pending s t :
  requestedStatus s = Some t -> t <> BookingStatus.PENDING.
Proof.
  unfold requestedStatus.
  repeat match goal with
         | |- context [String.eqb ?a ?b] => destruct (String.eqb a b)
         end; intros H; inversion H; discriminate.
Qed.

Lemma findUnique_update table key f k :
  findUnique (update table key f) k
  = match findUnique table k with
    | Some r => Some (if String.eqb (bookingId r) key
                      then {| bookingId := bookingId r; booking := f (booking r) |}
                      else r)
    | None => None
    end.
Proof.
  unfold findUnique, update. induction table as [|x table IH]; simpl; [reflexivity|].
  destruct (String.eqb (bookingId x) key) eqn:Ek; simpl.
  - destruct (String.eqb (bookingId x) k); [now rewrite Ek|apply IH].
  - destruct (String.eqb (bookingId x) k); [now rewrite Ek|apply IH].
Qed.

Lemma findUnique_delete table key k :
  findUnique (delete table key) k
  = if String.eqb k key then None else findUnique table k.
Proof.
  unfold findUnique, delete. induction table as [|x table IH]; simpl.
  - now destruct (String.eqb k key).
  - destruct (String.eqb_spec (bookingId x) key) as [Hx|Hx]; simpl.
    + rewrite IH. destruct (String.eqb_spec k key) as [Hk|Hk]; [reflexivity|].
      destruct (String.eqb_spec (bookingId x) k); [congruence|reflexivity].
    + destruct (String.eqb_spec (bookingId x) k) as [Hxk|Hxk].
      * destruct (String.eqb_spec k key); [congruence|reflexivity].
      * apply IH.
Qed.

(** The rows an update leaves: the same keys in the same order, each row
    with another key as it was, each row with the key changed by [f]. *)
Lemma update_rows table key f :
  Forall2 (fun r r' =>
             bookingId r' = bookingId r
             /\ (bookingId r <> key -> r' = r)
             /\ (bookingId r = key -> booking r' = f (booking r)))
          table (update table key f).
Proof.
  unfold update. induction table as [|x table IH]; simpl; constructor; [|assumption].
  destruct (String.eqb_spec (bookingId x) key) as [Hk|Hk]; simpl.
  - split; [reflexivity|]. split; [intros Hne; contradiction|reflexivity].
  - split; [reflexivity|]. split; [reflexivity|intros He; contradiction].
Qed.

Lemma insertByStart_perm r l : Permutation (r :: l) (insertByStart r l).
Proof.
  induction l as [|x l IH]; simpl; [reflexivity|].
  destruct (startDate (booking x) <? startDate (booking r)); [|reflexivity].
  rewrite perm_swap. now constructor.
Qed.

Lemma orderByStart_perm l : Permutation l (orderByStart l).
Proof.
  induction l as [|r l IH]; simpl; [constructor|].
  rewrite <- insertByStart_perm. now constructor.
Qed.

Lemma insertByStart_sorted r l :
  StronglySorted (fun a b => startDate (booking a) <= startDate (booking b)) l ->
  StronglySorted (fun a b => startDate (booking a) <= startDate (booking b))
                 (insertByStart r l).
Proof.
  induction l as [|x l IH]; simpl; intros Hs.
  - constructor; constructor.
  - inversion Hs as [|? ? Hl Hx]; subst.
    destruct (Z.ltb_spec (startDate (booking x)) (startDate (booking r))) as [Hlt|Hge].
    + constructor; [now apply IH|].
      apply (Permutation_Forall (insertByStart_perm r l)).
      constructor; [lia|assumption].
    + constructor; [assumption|]. constructor; [assumption|].
      eapply Forall_impl; [|exact Hx]. simpl. intros a Ha. lia.
Qed.

Lemma orderByStart_sorted l :
  StronglySorted (fun a b => startDate (booking a) <= startDate (booking b))
                 (orderByStart l).
Proof.
  induction l as [|r l IH]; simpl; [constructor|]. now apply insertByStart_sorted.
Qed.

Lemma In_orderByStart l r : In r (orderByStart l) <-> In r l.
Proof.
  split; intros Hin.
  - apply (Permutation_in r (Permutation_sym (orderByStart_perm l))), Hin.
  - apply (Permutation_in r (orderByStart_perm l)), Hin.
Qed.

(** X9.  A user who is neither the au pair nor the host of the booking
    of a key can neither read nor change nor delete it: the four routes
    that address a booking answer 403 or 404 (400 for a status that is not
    allowed), send no booking and leave the table as it was. *)
Theorem booking_routes_refuse_strangers now table user key status_ start end_ :
  (forall r, In r table -> bookingId r = key ->
             auPairId (booking r) <> user /\ hostId (booking r) <> user) ->
  (snd (getBooking table user key) = None
   /\ In (statusCode (fst (getBooking table user key))) [403; 404])
  /\ (snd (updateBookingStatus now table user key status_) = table
      /\ In (statusCode (fst (updateBookingStatus now table user key status_)))
            [400; 403; 404])
  /\ (snd (updateBooking now table user key start end_) = table
      /\ In (statusCode (fst (updateBooking now table user key start end_)))
            [403; 404])
  /\ (snd (deleteBooking table user key) = table
      /\ In (statusCode (fst (deleteBooking table user key))) [403; 404]).
Proof.
  intros Hs.
  pose proof (findUnique_stranger table key user) as Hn.
  unfold getBooking, updateBookingStatus, updateBooking, deleteBooking.
  destruct (findUnique table key) as [r|].
  - rewrite (Hn r Hs eq_refl).
    destruct (requestedStatus status_); simpl; tauto.
  - destruct (requestedStatus status_); simpl; tauto.
Qed.

Lemma updateBookingStatus_cases now table user key status_ :
  (statusCode (fst (updateBookingStatus now table user key status_)) <> 200
   /\ snd (updateBookingStatus now table user key status_) = table)
  \/ (exists r s,
        findUnique table key = Some r
        /\ requestedStatus status_ = Some s
        /\ notAParty user (booking r) = false
        /\ (s = BookingStatus.COMPLETED -> endDate (booking r) <= now)
        /\ (s = BookingStatus.APPROVED -> now <= startDate (booking r))
        /\ updateBookingStatus now table user key status_
           = (respond 200 "Booking status updated successfully",
              update table key (fun b => withStatus b s))).
Proof.
  unfold updateBookingStatus.
  destruct (requestedStatus status_) as [s|] eqn:Es;
    [|left; split; [discriminate|reflexivity]].
  destruct (findUnique table key) as [r|]; [|left; split; [discriminate|reflexivity]].
  destruct (notAParty user (booking r)) eqn:Ep;
    [left; split; [discriminate|reflexivity]|].
  destruct (BookingStatus.eqb s BookingStatus.COMPLETED
            && (now <? endDate (booking r))) eqn:Ec;
    [left; split; [discriminate|reflexivity]|].
  destruct (BookingStatus.eqb s BookingStatus.APPROVED
            && (startDate (booking r) <? now)) eqn:Ea;
    [left; split; [discriminate|reflexivity]|].
  right. exists r, s. repeat split; try assumption.
  - intros ->. simpl in Ec. apply Z.ltb_ge in Ec. exact Ec.
  - intros ->. simpl in Ea. apply Z.ltb_ge in Ea. exact Ea.
Qed.

(** X10.  [PUT /:bookingId/status] changes a status only at the request of
    the au pair or the host of the booking, and never to PENDING; it marks
    a booking COMPLETED only when its end date is not after the current
    instant, and APPROVED only when its start date is not before it. *)
Theorem updateBookingStatus_rules now table user key status_ :
  statusCode (fst (updateBookingStatus now table user key status_)) = 200 ->
  exists r s,
    findUnique table key = Some r
    /\ requestedStatus status_ = Some s
    /\ (auPairId (booking r) = user \/ hostId (booking r) = user)
    /\ In s [BookingStatus.APPROVED; BookingStatus.REJECTED;
             BookingStatus.CANCELLED; BookingStatus.COMPLETED]
    /\ (s = BookingStatus.COMPLETED -> endDate (booking r) <= now)
    /\ (s = BookingStatus.APPROVED -> now <= startDate (booking r)).
Proof.
  intros Hcode.
  destruct (updateBookingStatus_cases now table user key status_)
    as [[Hne _]|[r [s [Hf [Hs [Hp [Hc [Ha _]]]]]]]]; [contradiction|].
  exists r, s. split; [assumption|]. split; [assumption|].
  split; [now apply notAParty_false|]. split; [|now split].
  pose proof (requestedStatus_not_pending _ _ Hs) as Hnp.
  destruct s; simpl; tauto.
Qed.

Lemma In_update table key f r :
  In r table ->
  In (if String.eqb (bookingId r) key
      then {| bookingId := bookingId r; booking := f (booking r) |} else r)
     (update table key f).
Proof.
  intros Hin. unfold update.
  apply (in_map (fun r => if String.eqb (bookingId r) key
                          then {| bookingId := bookingId r; booking := f (booking r) |}
                          else r)), Hin.
Qed.

Lemma compatible_sym a b : compatible a b -> compatible b a.
Proof.
  unfold compatible. intros H Hid Hb Ha Hs.
  apply H; [congruence|assumption|assumption|now apply sharesInstant_sym].
Qed.

Lemma ForallOrdPairs_map_In {A B : Type} (R : B -> B -> Prop) (f : A -> B) l x y :
  ForallOrdPairs R (map f l) -> In x l -> In y l -> x <> y ->
  R (f x) (f y) \/ R (f y) (f x).
Proof.
  induction l as [|a l IH]; simpl; [tauto|].
  intros Hp Hx Hy Hne. inversion Hp as [|? ? Ha Hl]; subst.
  rewrite Forall_forall in Ha.
  destruct Hx as [->|Hx], Hy as [->|Hy].
  - contradiction.
  - left. apply Ha. now apply in_map.
  - right. apply Ha. now apply in_map.
  - now apply IH.
Qed.

Lemma ForallOrdPairs_Forall2 {A : Type} (R : A -> A -> Prop) (Q : A -> A -> Prop) l l' :
  (forall a a' b b', Q a a' -> Q b b' -> R a b -> R a' b') ->
  Forall2 Q l l' -> ForallOrdPairs R l -> ForallOrdPairs R l'.
Proof.
  intros HQ H2. induction H2 as [|a a' l l' Ha H2 IH]; intros Hp; [constructor|].
  inversion Hp as [|? ? Hal Hl]; subst. constructor; [|now apply IH].
  clear IH Hp Hl. induction H2 as [|b b' l l' Hb H2 IH]; [constructor|].
  inversion Hal; subst. constructor; [now apply (HQ a a' b b')|now apply IH].
Qed.

Lemma bookingsOf_update_Forall2 table key f :
  Forall2 (fun b b' => b' = b \/ b' = f b)
          (bookingsOf table) (bookingsOf (update table key f)).
Proof.
  unfold bookingsOf, update. induction table as [|x table IH]; simpl; constructor;
    [|assumption].
  destruct (String.eqb (bookingId x) key); simpl; [now right|now left].
Qed.


(** X12.  A status change keeps the table free of double bookings when it
    does not approve, or when it approves a booking that is PENDING or
    APPROVED already. *)
Theorem updateBookingStatus_keeps_noDoubleBooking now table user key status_ :
  noDoubleBooking (bookingsOf table) ->
  (requestedStatus status_ = Some BookingStatus.APPROVED ->
   forall r, In r table -> bookingId r = key -> Spec.active (status (booking r))) ->
  noDoubleBooking (bookingsOf (snd (updateBookingStatus now table user key status_))).
Proof.
  intros Hno Happ.
  destruct (updateBookingStatus_cases now table user key status_)
    as [[_ Hsame]|[r [s [Hf [Hs [_ [_ [_ Hr]]]]]]]]; [now rewrite Hsame|].
  rewrite Hr. cbn [snd]. unfold noDoubleBooking.
  assert (H2 : Forall2 (fun b b' =>
                 auPairId b' = auPairId b /\ startDate b' = startDate b
                 /\ endDate b' = endDate b
                 /\ (Spec.active (status b') -> Spec.active (status b)))
               (bookingsOf table)
               (bookingsOf (update table key (fun b => withStatus b s)))).
  { unfold bookingsOf, update. clear Hr Hf.
    assert (Hall : forall x, In x table -> In x table) by auto.
    revert Hall. generalize table at 1 3 4. intros l.
    induction l as [|x l IH]; intros Hall; simpl; constructor.
    - destruct (String.eqb_spec (bookingId x) key) as [Hk|Hk]; simpl;
        [|now repeat split].
      repeat split. intros Hact.
      pose proof (requestedStatus_not_pending _ _ Hs) as Hnp.
      destruct s; unfold Spec.active in Hact;
        try (destruct Hact; discriminate); try congruence.
      apply (Happ Hs x); [apply Hall; now left|assumption].
    - apply IH. intros y Hy. apply Hall. now right. }
  eapply ForallOrdPairs_Forall2; [|exact H2|exact Hno].
  intros a a' b b' [Ha1 [Ha2 [Ha3 Ha4]]] [Hb1 [Hb2 [Hb3 Hb4]]] Hc.
  unfold compatible in *. rewrite Ha1, Ha2, Ha3, Hb1, Hb2, Hb3.
  intros Hid Hacta Hactb. apply Hc; auto.
Qed.

(** X13.  An approval looks at nothing but the parties and the start date
    of the booking: the au pair or the host gets any booking that has not
    started APPROVED, whatever its status was (REJECTED, CANCELLED and
    COMPLETED included) and whatever else is booked; when another PENDING
    or APPROVED booking of the same au pair shares an instant with it,
    the au pair is booked twice afterwards. *)
Theorem updateBookingStatus_approves_without_conflict_check
    now table user key r other :
  findUnique table key = Some r ->
  auPairId (booking r) = user \/ hostId (booking r) = user ->
  now <= startDate (booking r) ->
  statusCode (fst (updateBookingStatus now table user key "APPROVED")) = 200
  /\ (In other table -> bookingId other <> key ->
      auPairId (booking other) = auPairId (booking r) ->
      Spec.active (status (booking other)) ->
      Spec.sharesInstant (startDate (booking other)) (endDate (booking other))
                         (startDate (booking r)) (endDate (booking r)) ->
      ~ noDoubleBooking
          (bookingsOf (snd (updateBookingStatus now table user key "APPROVED")))).
Proof.
  intros Hf Hparty Hstart.
  unfold updateBookingStatus.
  change (requestedStatus "APPROVED") with (Some BookingStatus.APPROVED).
  rewrite Hf. rewrite (proj2 (notAParty_false user (booking r)) Hparty).
  cbn [BookingStatus.eqb andb].
  destruct (Z.ltb_spec (startDate (booking r)) now) as [Hlt|_]; [lia|].
  cbn [fst snd respond statusCode]. split; [reflexivity|].
  intros Hin Hkey Hsame Hact Hshare Hno.
  destruct (findUnique_some _ _ _ Hf) as [Hr Hk].
  pose proof (In_update table key (fun b => withStatus b BookingStatus.APPROVED) r Hr)
    as Hr'.
  pose proof (In_update table key (fun b => withStatus b BookingStatus.APPROVED) other
                Hin) as Ho'.
  replace (String.eqb (bookingId r) key) with true in Hr'
    by (symmetry; now apply String.eqb_eq).
  destruct (String.eqb_spec (bookingId other) key) as [|_]; [contradiction|].
  assert (Hne : other <> {| bookingId := bookingId r;
                            booking := withStatus (booking r) BookingStatus.APPROVED |}).
  { intros ->. simpl in Hkey. congruence. }
  destruct (ForallOrdPairs_map_In compatible booking _ _ _ Hno Ho' Hr' Hne) as [Hc|Hc].
  - apply Hc; [assumption|assumption|now right|assumption].
  - apply compatible_sym in Hc. apply Hc; [assumption|assumption|now right|assumption].
Qed.

Lemma updateBooking_cases now table user key start end_ :
  (statusCode (fst (updateBooking now table user key start end_)) <> 200
   /\ snd (updateBooking now table user key start end_) = table)
  \/ (exists r,
        findUnique table key = Some r
        /\ notAParty user (booking r) = false
        /\ status (booking r) = BookingStatus.PENDING
        /\ (forall s, start = Some s -> now <= s)
        /\ (forall s e, start = Some s -> end_ = Some e -> s < e)
        /\ updateBooking now table user key start end_
           = (respond 200 "Booking updated successfully",
              update table key (fun b => withDates b start end_))).
Proof.
  unfold updateBooking.
  destruct (findUnique table key) as [r|]; [|left; split; [discriminate|reflexivity]].
  destruct (notAParty user (booking r)) eqn:Ep;
    [left; split; [discriminate|reflexivity]|].
  destruct (BookingStatus.eqb (status (booking r)) BookingStatus.PENDING) eqn:Est;
    cbn [negb]; [|left; split; [discriminate|reflexivity]].
  destruct (match start, end_ with
            | Some s, Some e => e <=? s
            | _, _ => false
            end) eqn:Eorder;
    [left; split; [discriminate|reflexivity]|].
  destruct (match start with
            | Some s => s <? now
            | None => false
            end) eqn:Epast;
    [left; split; [discriminate|reflexivity]|].
  right. exists r. split; [reflexivity|]. split; [assumption|].
  split; [now destruct (status (booking r))|].
  split; [|split; [|reflexivity]].
  - intros s ->. now apply Z.ltb_ge in Epast.
  - intros s e -> ->. now apply Z.leb_gt in Eorder.
Qed.

(** X14.  [PUT /:bookingId] changes the dates of a booking only at the
    request of its au pair or its host and only while it is PENDING; a
    start date it stores is not before the current instant, and it is
    before the end date sent with it.  The route never changes a key, a
    party or a status, nor any booking but the addressed one. *)
Theorem updateBooking_rules now table user key start end_ :
  statusCode (fst (updateBooking now table user key start end_)) = 200 ->
  (exists r,
     findUnique table key = Some r
     /\ (auPairId (booking r) = user \/ hostId (booking r) = user)
     /\ status (booking r) = BookingStatus.PENDING
     /\ (forall s, start = Some s -> now <= s)
     /\ (forall s e, start = Some s -> end_ = Some e -> s < e))
  /\ Forall2 (fun r r' =>
                bookingId r' = bookingId r
                /\ auPairId (booking r') = auPairId (booking r)
                /\ hostId (booking r') = hostId (booking r)
                /\ status (booking r') = status (booking r)
                /\ (bookingId r = key ->
                    startDate (booking r')
                    = match start with Some s => s | None => startDate (booking r) end
                    /\ endDate (booking r')
                       = match end_ with Some e => e | None => endDate (booking r) end)
                /\ (bookingId r <> key -> r' = r))
             table (snd (updateBooking now table user key start end_)).
Proof.
  intros Hcode.
  destruct (updateBooking_cases now table user key start end_)
    as [[Hne _]|[r [Hf [Hp [Hst [Hnow [Hlt Hr]]]]]]]; [contradiction|].
  split.
  - exists r. split; [assumption|]. split; [now apply notAParty_false|].
    split; [assumption|]. now split.
  - rewrite Hr. cbn [snd].
    eapply Forall2_impl; [|apply update_rows]. simpl.
    intros x x' [Hk [Hother Hthis]].
    destruct (String.eqb_spec (bookingId x) key) as [He|Hne].
    + rewrite (Hthis He). split; [assumption|].
      split; [reflexivity|]. split; [reflexivity|]. split; [reflexivity|].
      split; [intros _; split; reflexivity|intros Hc; contradiction].
    + rewrite (Hother Hne). split; [reflexivity|].
      split; [reflexivity|]. split; [reflexivity|]. split; [reflexivity|].
      split; [intros Hc; contradiction|reflexivity].
Qed.

(** X15.  A lone end date is stored as it is sent: for a PENDING booking
    the route answers its au pair or host with 200 whatever the date, and
    the booking keeps its start date and gets that end date, be it before
    the start. *)
Theorem updateBooking_lone_end_date now table user key r e :
  findUnique table key = Some r ->
  auPairId (booking r) = user \/ hostId (booking r) = user ->
  status (booking r) = BookingStatus.PENDING ->
  statusCode (fst (updateBooking now table user key None (Some e))) = 200
  /\ (exists r',
        findUnique (snd (updateBooking now table user key None (Some e))) key = Some r'
        /\ startDate (booking r') = startDate (booking r)
        /\ endDate (booking r') = e)
  /\ (e <= startDate (booking r) ->
      ~ datesInOrder (bookingsOf (snd (updateBooking now table user key None (Some e))))).
Proof.
  intros Hf Hparty Hst.
  unfold updateBooking. rewrite Hf.
  rewrite (proj2 (notAParty_false user (booking r)) Hparty), Hst.
  cbn [BookingStatus.eqb negb fst snd respond statusCode].
  destruct (findUnique_some _ _ _ Hf) as [Hr Hk].
  assert (Hnew : findUnique (update table key (fun b => withDates b None (Some e))) key
                 = Some {| bookingId := bookingId r;
                           booking := withDates (booking r) None (Some e) |}).
  { rewrite findUnique_update, Hf, Hk, String.eqb_refl. reflexivity. }
  split; [reflexivity|]. split.
  - eexists. split; [exact Hnew|]. split; reflexivity.
  - intros Hle Hord. apply findUnique_some in Hnew. destruct Hnew as [Hin _].
    unfold datesInOrder, bookingsOf in Hord. rewrite Forall_forall in Hord.
    specialize (Hord _ (in_map booking _ _ Hin)). simpl in Hord. lia.
Qed.

(** X16.  A change of dates that sends both dates, or none, keeps every
    booking of the table ending after it starts. *)
Theorem updateBooking_keeps_dates_in_order now table user key start end_ :
  datesInOrder (bookingsOf table) ->
  (start = None <-> end_ = None) ->
  datesInOrder (bookingsOf (snd (updateBooking now table user key start end_))).
Proof.
  intros Hord Hboth.
  destruct (updateBooking_cases now table user key start end_)
    as [[_ Hsame]|[r [_ [_ [_ [_ [Hlt Hr]]]]]]]; [now rewrite Hsame|].
  rewrite Hr. cbn [snd]. unfold datesInOrder in *.
  pose proof (bookingsOf_update_Forall2 table key
                (fun b => withDates b start end_)) as H2.
  revert Hord. induction H2 as [|b b' l l' Hb H2 IH]; intros Hord; [constructor|].
  inversion Hord as [|? ? Hb0 Hl]; subst. constructor; [|now apply IH].
  destruct Hb as [->| ->]; [assumption|].
  destruct start as [s|], end_ as [e|]; simpl.
  - now apply Hlt.
  - destruct Hboth as [_ Hn]. discriminate (Hn eq_refl).
  - destruct Hboth as [Hn _]. discriminate (Hn eq_refl).
  - assumption.
Qed.

Lemma In_delete table key r :
  In r (delete table key) <-> In r table /\ bookingId r <> key.
Proof.
  unfold delete. rewrite filter_In, negb_true_iff, String.eqb_neq. tauto.
Qed.

Lemma unique_key table x y :
  NoDup (map bookingId table) -> In x table -> In y table ->
  bookingId x = bookingId y -> x = y.
Proof.
  induction table as [|z table IH]; [contradiction|].
  simpl. intros Hnd Hx Hy Hk. inversion Hnd as [|? ? Hnz Hnd']; subst.
  destruct Hx as [Hx|Hx], Hy as [Hy|Hy].
  - congruence.
  - exfalso. apply Hnz. rewrite Hx, Hk. now apply in_map.
  - exfalso. apply Hnz. rewrite Hy, <- Hk. now apply in_map.
  - now apply IH.
Qed.

(** X17.  [DELETE /:bookingId] removes a booking only at the request of
    its au pair or its host and only when it is PENDING, REJECTED or
    CANCELLED.  After a deletion the key is gone and every booking of
    another key is found as before; with keys that are unique no APPROVED
    or COMPLETED booking ever leaves the table. *)
Theorem deleteBooking_rules table user key :
  (statusCode (fst (deleteBooking table user key)) = 200 ->
   exists r,
     findUnique table key = Some r
     /\ (auPairId (booking r) = user \/ hostId (booking r) = user)
     /\ In (status (booking r))
           [BookingStatus.PENDING; BookingStatus.REJECTED; BookingStatus.CANCELLED]
     /\ findUnique (snd (deleteBooking table user key)) key = None
     /\ forall k, k <> key ->
                  findUnique (snd (deleteBooking table user key)) k
                  = findUnique table k)
  /\ (statusCode (fst (deleteBooking table user key)) <> 200 ->
      snd (deleteBooking table user key) = table)
  /\ (NoDup (map bookingId table) ->
      forall r, In r table ->
                status (booking r) = BookingStatus.APPROVED
                \/ status (booking r) = BookingStatus.COMPLETED ->
                In r (snd (deleteBooking table user key))).
Proof.
  unfold deleteBooking.
  destruct (findUnique table key) as [r|] eqn:Hf;
    [|split; [discriminate|split; [reflexivity|intros _ x Hx _; exact Hx]]].
  destruct (notAParty user (booking r)) eqn:Ep;
    [split; [discriminate|split; [reflexivity|intros _ x Hx _; exact Hx]]|].
  destruct (statusIn (status (booking r))
              [BookingStatus.PENDING; BookingStatus.REJECTED; BookingStatus.CANCELLED])
    eqn:Est; cbn [negb fst snd respond statusCode];
    [|split; [discriminate|split; [reflexivity|intros _ x Hx _; exact Hx]]].
  assert (Hst : In (status (booking r))
                   [BookingStatus.PENDING; BookingStatus.REJECTED;
                    BookingStatus.CANCELLED]).
  { destruct (status (booking r)); simpl in *; try discriminate; tauto. }
  split; [|split; [intros Hne; exfalso; now apply Hne|]].
  - intros _. exists r. split; [reflexivity|].
    split; [now apply notAParty_false|]. split; [assumption|].
    split.
    + rewrite findUnique_delete. now rewrite String.eqb_refl.
    + intros k Hk. rewrite findUnique_delete.
      destruct (String.eqb_spec k key); [contradiction|reflexivity].
  - intros Hnd x Hx Hsx. apply In_delete. split; [assumption|].
    intros Hk. destruct (findUnique_some _ _ _ Hf) as [Hr Hkr].
    assert (Heq : x = r)
      by (apply (unique_key table); [assumption..|congruence]).
    subst x. destruct Hsx as [Hs|Hs]; rewrite Hs in Hst; simpl in Hst;
      repeat (destruct Hst as [Hst|Hst]; try discriminate); contradiction.
Qed.

Lemma availabilityWhere_conflictWhere now forAuPair s e b :
  s <= e -> startDate b <= endDate b ->
  availabilityWhere now forAuPair (Some s) (Some e) b = conflictWhere forAuPair s e b.
Proof.
  intros Hse Hb. unfold availabilityWhere, conflictWhere. f_equal.
  destruct (Z.leb_spec (startDate b) e), (Z.leb_spec s (endDate b)),
           (Z.leb_spec (startDate b) s), (Z.leb_spec e (endDate b)),
           (Z.leb_spec s (startDate b)), (Z.leb_spec (endDate b) e);
    simpl; try reflexivity; lia.
Qed.

Lemma availability_ok now people table forAuPair start end_ :
  statusCode (fst (availability now people table forAuPair start end_)) = 200 ->
  snd (availability now people table forAuPair start end_)
  = map select
      (orderByStart
         (filter (fun r => availabilityWhere now forAuPair start end_ (booking r))
                 table)).
Proof.
  unfold availability.
  destruct (find _ people) as [u|]; [|discriminate].
  destruct (isActive u); [reflexivity|discriminate].
Qed.

(** X18.  The availability route and the conflict check of [POST /]
    agree: for a period that does not end before it starts and a table
    whose bookings do not either, the route lists no booked slot for the
    period exactly when a booking request for that au pair and period
    finds no conflicting booking. *)
Theorem availability_agrees_with_conflict_check now people table forAuPair s e :
  s <= e ->
  (forall r, In r table -> startDate (booking r) <= endDate (booking r)) ->
  statusCode (fst (availability now people table forAuPair (Some s) (Some e))) = 200 ->
  (snd (availability now people table forAuPair (Some s) (Some e)) = []
   <-> hasConflict (bookingsOf table) forAuPair s e = false)
  /\ (forall r, In r table ->
        conflictWhere forAuPair s e (booking r) = true ->
        In (select r) (snd (availability now people table forAuPair (Some s) (Some e)))).
Proof.
  intros Hse Hwf Hcode. rewrite (availability_ok _ _ _ _ _ _ Hcode).
  split.
  - split.
    + intros Hnil.
      destruct (hasConflict (bookingsOf table) forAuPair s e) eqn:Ec; [|reflexivity].
      apply hasConflict_true in Ec. destruct Ec as [b [Hin Hc]].
      unfold bookingsOf in Hin. apply in_map_iff in Hin.
      destruct Hin as [r [<- Hr]].
      assert (Hsel : In (select r)
                (map select
                   (orderByStart
                      (filter (fun r => availabilityWhere now forAuPair (Some s) (Some e)
                                          (booking r)) table)))).
      { apply in_map, In_orderByStart, filter_In. split; [assumption|].
        rewrite availabilityWhere_conflictWhere; auto. }
      rewrite Hnil in Hsel. contradiction.
    + intros Hc.
      destruct (filter (fun r => availabilityWhere now forAuPair (Some s) (Some e)
                                   (booking r)) table) as [|r l] eqn:Ef;
        [reflexivity|].
      assert (Hr : In r (r :: l)) by now left.
      rewrite <- Ef in Hr. apply filter_In in Hr. destruct Hr as [Hr Hw].
      rewrite availabilityWhere_conflictWhere in Hw by auto.
      assert (Ht : hasConflict (bookingsOf table) forAuPair s e = true).
      { apply hasConflict_true. exists (booking r). split; [|assumption].
        unfold bookingsOf. now apply in_map. }
      congruence.
  - intros r Hr Hc. apply in_map, In_orderByStart, filter_In. split; [assumption|].
    rewrite availabilityWhere_conflictWhere; auto.
Qed.

(** X19.  The availability route answers 404 for an id under which no
    active au pair is stored.  The slots it lists are in the order of
    their start dates, and they are the PENDING and APPROVED bookings of
    that au pair: those that share an instant with the period when the
    query gives both dates, else (one date alone is ignored) those that
    start at the current instant or later. *)
Theorem availability_lists_booked_slots now people table forAuPair start end_ :
  let slots := snd (availability now people table forAuPair start end_) in
  let inPeriod r :=
    match start, end_ with
    | Some s, Some e => startDate (booking r) <= e /\ s <= endDate (booking r)
    | _, _ => now <= startDate (booking r)
    end in
  StronglySorted (fun x y => slotStart x <= slotStart y) slots
  /\ (forall slot, In slot slots ->
        exists r, In r table /\ slot = select r
                  /\ auPairId (booking r) = forAuPair
                  /\ Spec.active (status (booking r)) /\ inPeriod r)
  /\ (statusCode (fst (availability now people table forAuPair start end_)) = 200 ->
      forall r, In r table -> auPairId (booking r) = forAuPair ->
                Spec.active (status (booking r)) -> inPeriod r ->
                In (select r) slots)
  /\ ((forall u, In u people -> id u = forAuPair -> role u = AU_PAIR ->
                 isActive u = false) ->
      statusCode (fst (availability now people table forAuPair start end_)) = 404
      /\ slots = []).
Proof.
  intros slots inPeriod.
  assert (Hw : forall r,
            availabilityWhere now forAuPair start end_ (booking r) = true
            <-> auPairId (booking r) = forAuPair
                /\ Spec.active (status (booking r)) /\ inPeriod r).
  { intros r. unfold availabilityWhere, inPeriod.
    rewrite !andb_true_iff, String.eqb_eq, statusIn_active.
    destruct start as [s|], end_ as [e|];
      rewrite ?andb_true_iff, ?Z.leb_le; tauto. }
  set (rows := orderByStart
                 (filter (fun r => availabilityWhere now forAuPair start end_ (booking r))
                         table)).
  assert (Hsorted : StronglySorted (fun x y => slotStart x <= slotStart y)
                                   (map select rows)).
  { pose proof (orderByStart_sorted
                  (filter (fun r => availabilityWhere now forAuPair start end_ (booking r))
                          table)) as Hs.
    fold rows in Hs. induction Hs as [|r l Hl IH Hr]; simpl; constructor.
    - assumption.
    - rewrite Forall_map. exact Hr. }
  assert (Hcases : (statusCode (fst (availability now people table forAuPair start end_))
                    = 200 /\ slots = map select rows
                    /\ exists u, In u people /\ id u = forAuPair /\ role u = AU_PAIR
                                 /\ isActive u = true)
                   \/ (statusCode (fst (availability now people table forAuPair
                                          start end_)) = 404 /\ slots = [])).
  { unfold slots, availability.
    destruct (find _ people) as [u|] eqn:Eu; [|right; now split].
    destruct (isActive u) eqn:Ea; [|right; now split].
    left. split; [reflexivity|]. split; [reflexivity|].
    apply find_some in Eu. destruct Eu as [Hin Hc].
    apply andb_true_iff in Hc. destruct Hc as [Hid Hr]. apply String.eqb_eq in Hid.
    exists u. repeat split; try assumption. now destruct (role u). }
  destruct Hcases as [[Hcode [Hslots [u [Hu [Hid [Hr Ha]]]]]]|[Hcode Hslots]];
    rewrite Hslots.
  - split; [assumption|]. split; [|split].
    + intros slot Hin. apply in_map_iff in Hin. destruct Hin as [r [<- Hin]].
      apply In_orderByStart, filter_In in Hin. destruct Hin as [Hin Hc].
      exists r. split; [assumption|]. split; [reflexivity|]. now apply Hw.
    + intros _ r Hin Hap Hact Hper.
      apply in_map, In_orderByStart, filter_In. split; [assumption|].
      apply Hw. now repeat split.
    + intros Hnone. specialize (Hnone u Hu Hid Hr). congruence.
  - split; [constructor|]. split; [intros slot Hin; contradiction|].
    split; [intros H200; congruence|]. intros _. now split.
Qed.

(** X20.  [GET /my-bookings] lists bookings in the order of their start
    dates.  An au pair gets the bookings in which it is the au pair, a
    host family those in which it is the host, any other role (an
    administrator) the bookings of everybody; a status of the query keeps
    the bookings of that status, and [upcoming] those that start at the
    current instant or later. *)
Theorem myBookings_lists now table user userRole status_ upcoming :
  StronglySorted (fun a b => startDate (booking a) <= startDate (booking b))
                 (myBookings now table user userRole status_ upcoming)
  /\ (forall r,
        In r (myBookings now table user userRole status_ upcoming)
        <-> In r table
            /\ (userRole = AU_PAIR -> auPairId (booking r) = user)
            /\ (userRole = HOST_FAMILY -> hostId (booking r) = user)
            /\ (forall s, status_ = Some s -> status (booking r) = s)
            /\ (upcoming = true -> now <= startDate (booking r)))
  /\ (userRole = ADMIN -> status_ = None -> upcoming = false ->
      Permutation table (myBookings now table user userRole status_ upcoming)).
Proof.
  unfold myBookings. split; [apply orderByStart_sorted|]. split.
  - intros r. rewrite In_orderByStart, filter_In.
    assert (Hw : myBookingsWhere now user userRole status_ upcoming (booking r) = true
                 <-> (userRole = AU_PAIR -> auPairId (booking r) = user)
                     /\ (userRole = HOST_FAMILY -> hostId (booking r) = user)
                     /\ (forall s, status_ = Some s -> status (booking r) = s)
                     /\ (upcoming = true -> now <= startDate (booking r))).
    { unfold myBookingsWhere. rewrite !andb_true_iff.
      assert (H1 : match userRole with
                   | AU_PAIR => String.eqb (auPairId (booking r)) user
                   | HOST_FAMILY => String.eqb (hostId (booking r)) user
                   | ADMIN => true
                   end = true
                   <-> (userRole = AU_PAIR -> auPairId (booking r) = user)
                       /\ (userRole = HOST_FAMILY -> hostId (booking r) = user)).
      { destruct userRole; rewrite ?String.eqb_eq; split; intros H;
          try (split; intros He; try discriminate He; assumption);
          try reflexivity; destruct H as [Ha Hh]; auto. }
      assert (H2 : match status_ with
                   | Some s => BookingStatus.eqb (status (booking r)) s
                   | None => true
                   end = true
                   <-> forall s, status_ = Some s -> status (booking r) = s).
      { destruct status_ as [s|]; split.
        - intros He s' Hs. injection Hs as <-.
          destruct (status (booking r)), s; simpl in He; congruence.
        - intros Hs. rewrite (Hs s eq_refl). now destruct s.
        - intros _ s Hs. discriminate Hs.
        - reflexivity. }
      assert (H3 : (if upcoming then now <=? startDate (booking r) else true) = true
                   <-> (upcoming = true -> now <= startDate (booking r))).
      { destruct upcoming; rewrite ?Z.leb_le; split; auto. discriminate. }
      tauto. }
    tauto.
  - intros -> -> ->.
    assert (Hall : filter (fun r => myBookingsWhere now user ADMIN None false (booking r))
                          table = table).
    { induction table as [|x l IH]; simpl; [reflexivity|]. now rewrite IH. }
    rewrite Hall. apply orderByStart_perm.
Qed.

End BookingRouteFacts.

Section BookingRouteExamples.

Import Examples RouteExamples BookingRoutes.

Local Open Scope string_scope.

(** "h3" has no part in the booking "b1". *)
Lemma booking_routes_refuse_strangers_witness :
  snd (getBooking bookingTable "h3" "b1") = None
  /\ snd (deleteBooking bookingTable "h3" "b1") = bookingTable.
Proof.
  pose proof (booking_routes_refuse_strangers (march2025 1) bookingTable "h3" "b1"
                "CANCELLED" None None) as H.
  assert (Hs : forall r, In r bookingTable -> bookingId r = "b1" ->
                         auPairId (booking r) <> "h3" /\ hostId (booking r) <> "h3").
  { intros r [<-|[<-|[<-|[]]]] Hk; try discriminate Hk. split; discriminate. }
  destruct (H Hs) as [[Hget _] [_ [_ [Hdel _]]]]. now split.
Defined.

(** On March 1 the host "h1" approves the pending booking "b3". *)
Lemma updateBookingStatus_rules_witness :
  exists r s,
    findUnique bookingTable "b3" = Some r
    /\ requestedStatus "APPROVED" = Some s
    /\ (auPairId (booking r) = "h1" \/ hostId (booking r) = "h1")
    /\ In s [BookingStatus.APPROVED; BookingStatus.REJECTED;
             BookingStatus.CANCELLED; BookingStatus.COMPLETED]
    /\ (s = BookingStatus.COMPLETED -> endDate (booking r) <= march2025 1)
    /\ (s = BookingStatus.APPROVED -> march2025 1 <= startDate (booking r)).
Proof.
  apply (updateBookingStatus_rules (march2025 1) bookingTable "h1" "b3" "APPROVED").
  reflexivity.
Defined.


Lemma bookingTable_noDoubleBooking : noDoubleBooking (bookingsOf bookingTable).
Proof.
  repeat constructor; unfold compatible, Spec.active; simpl;
    intros _ Ha Hb; try (destruct Ha; discriminate); try (destruct Hb; discriminate).
  intros [t [H1 H2]]. unfold march2025 in *. lia.
Qed.

(** Approving the pending booking "b3" keeps the table of the examples
    free of double bookings. *)
Lemma updateBookingStatus_keeps_noDoubleBooking_witness :
  noDoubleBooking
    (bookingsOf (snd (updateBookingStatus (march2025 1) bookingTable "h1" "b3"
                        "APPROVED"))).
Proof.
  apply updateBookingStatus_keeps_noDoubleBooking.
  - exact bookingTable_noDoubleBooking.
  - intros _ r [<-|[<-|[<-|[]]]] Hk; try discriminate Hk. now left.
Defined.

(** On March 1 the host "h2" approves the booking "b2", which was
    rejected and lies within the approved booking "b1": "ap1" is booked
    twice. *)
Lemma updateBookingStatus_approves_without_conflict_check_witness :
  statusCode (fst (updateBookingStatus (march2025 1) bookingTable "h2" "b2" "APPROVED"))
  = 200
  /\ ~ noDoubleBooking
       (bookingsOf (snd (updateBookingStatus (march2025 1) bookingTable "h2" "b2"
                           "APPROVED"))).
Proof.
  destruct (updateBookingStatus_approves_without_conflict_check (march2025 1)
              bookingTable "h2" "b2"
              {| bookingId := "b2"; booking := rejectedMarch16to18 |}
              {| bookingId := "b1"; booking := approvedMarch15to20 |}
              eq_refl (or_intror eq_refl)) as [Hcode Hdouble].
  - vm_compute. discriminate.
  - split; [exact Hcode|]. apply Hdouble.
    + right. left. reflexivity.
    + discriminate.
    + reflexivity.
    + now right.
    + exists (march2025 16). vm_compute. repeat split; discriminate.
Defined.

(** The au pair moves the pending booking "b3" to March 26 to 28. *)
Lemma updateBooking_rules_witness :
  exists r,
    findUnique bookingTable "b3" = Some r
    /\ (auPairId (booking r) = "ap1" \/ hostId (booking r) = "ap1")
    /\ status (booking r) = BookingStatus.PENDING
    /\ (forall s, Some (march2025 26) = Some s -> march2025 1 <= s)
    /\ (forall s e, Some (march2025 26) = Some s -> Some (march2025 28) = Some e -> s < e).
Proof.
  apply (updateBooking_rules (march2025 1) bookingTable "ap1" "b3"
           (Some (march2025 26)) (Some (march2025 28))).
  reflexivity.
Defined.

(** The au pair sends March 21 as the end of the pending booking "b3",
    which starts on March 22. *)
Lemma updateBooking_lone_end_date_witness :
  statusCode (fst (updateBooking (march2025 1) bookingTable "ap1" "b3" None
                     (Some (march2025 21)))) = 200
  /\ ~ datesInOrder
       (bookingsOf (snd (updateBooking (march2025 1) bookingTable "ap1" "b3" None
                           (Some (march2025 21))))).
Proof.
  destruct (updateBooking_lone_end_date (march2025 1) bookingTable "ap1" "b3"
              {| bookingId := "b3"; booking := pendingMarch22to25 |} (march2025 21)
              eq_refl (or_introl eq_refl) eq_refl) as [Hcode [_ Hbad]].
  split; [exact Hcode|]. apply Hbad. vm_compute. discriminate.
Defined.

(** The same booking moved with both dates. *)
Lemma updateBooking_keeps_dates_in_order_witness :
  datesInOrder
    (bookingsOf (snd (updateBooking (march2025 1) bookingTable "ap1" "b3"
                        (Some (march2025 26)) (Some (march2025 28))))).
Proof.
  apply updateBooking_keeps_dates_in_order.
  - repeat constructor.
  - split; discriminate.
Defined.

(** The host "h2" deletes the rejected booking "b2"; the approved booking
    "b1" cannot be deleted. *)
Lemma deleteBooking_rules_witness :
  findUnique (snd (deleteBooking bookingTable "h2" "b2")) "b2" = None
  /\ snd (deleteBooking bookingTable "ap1" "b1") = bookingTable.
Proof.
  split.
  - destruct (proj1 (deleteBooking_rules bookingTable "h2" "b2") eq_refl)
      as [r [_ [_ [_ [Hgone _]]]]].
    exact Hgone.
  - apply (proj1 (proj2 (deleteBooking_rules bookingTable "ap1" "b1"))).
    vm_compute. discriminate.
Defined.

(** "ap1" is booked from March 15 to March 20: the route lists a slot for
    March 20 to 21, and a request for these days meets a conflict. *)
Lemma availability_agrees_with_conflict_check_witness :
  snd (availability (march2025 1) userTable bookingTable "ap1"
         (Some (march2025 20)) (Some (march2025 21))) = []
  <-> hasConflict (bookingsOf bookingTable) "ap1" (march2025 20) (march2025 21) = false.
Proof.
  refine (proj1 (availability_agrees_with_conflict_check (march2025 1) userTable
                   bookingTable "ap1" (march2025 20) (march2025 21) _ _ eq_refl)).
  - vm_compute. discriminate.
  - intros r [<-|[<-|[<-|[]]]]; vm_compute; discriminate.
Defined.

End BookingRouteExamples.

(** * The routes that write the match table *)

Section MatchRouteFacts.

Import MatchRoutes.

Context {string_case : StringCase}.

(** The host and the au pair of a match request, as the handler names
    them. *)
Lemma createMatch_cases clock newId people table req :
  (statusCode (fst (createMatch clock newId people table req)) <> 201
   /\ snd (createMatch clock newId people table req) = table)
  \/ (exists t targetUser,
        let host := if Role_eqb (callerRole req) HOST_FAMILY then caller req else t in
        let auPair := if Role_eqb (callerRole req) AU_PAIR then caller req else t in
        target req = Some t /\ t <> EmptyString /\ t <> caller req
        /\ find (fun u => String.eqb (id u) t) people = Some targetUser
        /\ isActive targetUser = true
        /\ (callerRole req = AU_PAIR -> role targetUser = HOST_FAMILY)
        /\ (callerRole req = HOST_FAMILY -> role targetUser = AU_PAIR)
        /\ find (fun m => String.eqb (matchHostId (parties m)) host
                          && String.eqb (matchAuPairId (parties m)) auPair) table = None
        /\ createMatch clock newId people table req
           = (respond 201 "Match request sent successfully",
              (table ++
               [{| matchId := newId;
                   parties := {| matchHostId := host; matchAuPairId := auPair;
                                 matchStatus := MatchStatus.PENDING |};
                   storedScore :=
                     scoreFor clock (callerRole req)
                       (find (fun u => String.eqb (id u) (caller req)) people)
                       targetUser;
                   initiatedBy := callerRole req |}])%list)).
Proof.
  unfold createMatch.
  destruct (target req) as [t|]; [|left; split; [discriminate|reflexivity]].
  destruct (String.eqb_spec t EmptyString) as [He|Hnempty];
    [left; split; [discriminate|reflexivity]|].
  destruct (String.eqb_spec t (caller req)) as [Heq|Hne];
    [left; split; [discriminate|reflexivity]|].
  destruct (find (fun u => String.eqb (id u) t) people) as [targetUser|] eqn:Et;
    [|left; split; [discriminate|reflexivity]].
  destruct (isActive targetUser) eqn:Eact; cbn [negb];
    [|left; split; [discriminate|reflexivity]].
  destruct ((Role_eqb (callerRole req) AU_PAIR
               && negb (Role_eqb (role targetUser) HOST_FAMILY))
            || (Role_eqb (callerRole req) HOST_FAMILY
                  && negb (Role_eqb (role targetUser) AU_PAIR))) eqn:Eroles;
    [left; split; [discriminate|reflexivity]|].
  cbv zeta.
  destruct (find _ table) as [m|] eqn:Em; [left; split; [discriminate|reflexivity]|].
  right. exists t, targetUser. cbv zeta.
  split; [reflexivity|]. split; [assumption|]. split; [assumption|].
  split; [assumption|]. split; [assumption|].
  split; [|split; [|split; [assumption|reflexivity]]].
  - intros Hr. rewrite Hr in Eroles. simpl in Eroles.
    destruct (role targetUser); simpl in Eroles; congruence.
  - intros Hr. rewrite Hr in Eroles. simpl in Eroles.
    destruct (role targetUser); simpl in Eroles; congruence.
Qed.

Lemma find_pair_none table host auPair :
  find (fun m => String.eqb (matchHostId (parties m)) host
                 && String.eqb (matchAuPairId (parties m)) auPair) table = None
  <-> ~ In (host, auPair) (map pairOf (matchesOf table)).
Proof.
  unfold matchesOf. rewrite map_map. split.
  - intros Hn Hin. apply in_map_iff in Hin. destruct Hin as [m [Hp Hin]].
    apply (find_none _ _ Hn) in Hin. unfold pairOf in Hp. injection Hp as Hh Ha.
    rewrite Hh, Ha, !String.eqb_refl in Hin. discriminate.
  - intros Hnot. induction table as [|m table IH]; simpl; [reflexivity|].
    destruct (String.eqb_spec (matchHostId (parties m)) host) as [Hh|Hh];
      destruct (String.eqb_spec (matchAuPairId (parties m)) auPair) as [Ha|Ha]; simpl.
    1: { exfalso. apply Hnot. left. unfold pairOf. now rewrite Hh, Ha. }
    all: apply IH; intros Hin; apply Hnot; now right.
Qed.


(** X22.  The match table holds at most one match for a host and an au
    pair, whoever of the two asked: [POST /] keeps the pairs of the table
    distinct, and a request that was granted is refused with 400 when it
    is sent again, whatever was added to the table since. *)
Theorem createMatch_keeps_pairs_unique clock newId people table req :
  NoDup (map pairOf (matchesOf table)) ->
  NoDup (map pairOf (matchesOf (snd (createMatch clock newId people table req))))
  /\ (statusCode (fst (createMatch clock newId people table req)) = 201 ->
      forall clock' newId' more,
        let table' := (snd (createMatch clock newId people table req) ++ more)%list in
        statusCode (fst (createMatch clock' newId' people table' req)) = 400
        /\ snd (createMatch clock' newId' people table' req) = table').
Proof.
  intros Hnd.
  destruct (createMatch_cases clock newId people table req)
    as [[Hne Hsame]|[t [tu H]]].
  - rewrite Hsame. split; [assumption|]. intros Hc. contradiction.
  - cbv zeta in H. destruct H as [Ht [_ [Hne [Hf [Hact [Hr1 [Hr2 [Hnone Hr]]]]]]]].
    rewrite Hr. cbn [fst snd]. split.
    + unfold matchesOf. rewrite !map_app. simpl.
      apply find_pair_none in Hnone.
      apply NoDup_app; [exact Hnd|repeat constructor; intros []|].
      intros p Hp [<-|[]]. contradiction.
    + intros _ clock' newId' more.
      match goal with
      | |- context [createMatch clock' newId' people ?l req] => set (table' := l)
      end.
      assert (Hex : exists m,
                find (fun m => String.eqb (matchHostId (parties m))
                                 (if Role_eqb (callerRole req) HOST_FAMILY
                                  then caller req else t)
                               && String.eqb (matchAuPairId (parties m))
                                    (if Role_eqb (callerRole req) AU_PAIR
                                     then caller req else t)) table' = Some m).
      { destruct (find _ table') as [m|] eqn:Ef; [now exists m|exfalso].
        apply find_pair_none in Ef. apply Ef. unfold table', matchesOf.
        rewrite !map_app. apply in_or_app. left. apply in_or_app. right.
        now left. }
      destruct Hex as [m Hm].
      unfold createMatch. rewrite Ht, Hf, Hact. cbv zeta. rewrite Hm.
      destruct (String.eqb t EmptyString); [now split|].
      destruct (String.eqb t (caller req)); [now split|].
      cbn [negb].
      destruct ((Role_eqb (callerRole req) AU_PAIR
                   && negb (Role_eqb (role tu) HOST_FAMILY))
                || (Role_eqb (callerRole req) HOST_FAMILY
                      && negb (Role_eqb (role tu) AU_PAIR))); now split.
Qed.

Lemma find_by_id people x :
  NoDup (map id people) -> In x people ->
  find (fun u => String.eqb (id u) (id x)) people = Some x.
Proof.
  induction people as [|y people IH]; [contradiction|].
  simpl. intros Hnd Hin. inversion Hnd as [|? ? Hny Hnd']; subst.
  destruct (String.eqb_spec (id y) (id x)) as [He|Hne].
  - destruct Hin as [->|Hin]; [reflexivity|].
    exfalso. apply Hny. rewrite He. now apply in_map.
  - destruct Hin as [->|Hin]; [contradiction|]. now apply IH.
Qed.

(** X23.  The score stored with a match request is the score the list of
    potential matches shows the caller for the target, when both are
    computed at the same clock reading, the ids of the user table are
    distinct and the caller acts in the role it is stored with. *)
Theorem createMatch_stores_listed_score k newId people table req limit u l c :
  NoDup (map id people) ->
  findUnique people (caller req) = Some u ->
  role u = callerRole req ->
  findMatches (fun _ => k) people (caller req) limit = Ok l ->
  In c l ->
  target req = Some (id (user c)) ->
  statusCode (fst (createMatch k newId people table req)) = 201 ->
  exists row,
    snd (createMatch k newId people table req) = (table ++ [row])%list
    /\ storedScore row = matchScore c.
Proof.
  intros Hnd Hu Hrole Hl Hc Ht Hcode.
  destruct (createMatch_cases k newId people table req)
    as [[Hne _]|[t [tu H]]]; [contradiction|].
  cbv zeta in H. destruct H as [Ht' [_ [_ [Hf [_ [_ [_ [_ Hr]]]]]]]].
  rewrite Ht in Ht'. injection Ht' as <-.
  rewrite Hr. cbn [snd]. eexists. split; [reflexivity|]. cbn [storedScore].
  unfold findMatches in Hl. rewrite Hu in Hl. injection Hl as <-.
  apply In_slice0, In_sort in Hc.
  assert (Hid : id u = caller req).
  { unfold findUnique in Hu. apply find_some in Hu. now apply String.eqb_eq. }
  unfold findUnique in Hu. rewrite Hu.
  unfold potentialMatches in Hc. rewrite Hid, Hrole in Hc.
  unfold scoreFor.
  destruct (callerRole req).
  - destruct (auPairProfile u) as [ap|] eqn:Ea;
      [|destruct (hostFamilyProfile u); contradiction].
    apply In_scoreHosts in Hc. destruct Hc as [Hin [hp [j [Hp Hs]]]].
    apply In_findMany in Hin. destruct Hin as [Hin _].
    rewrite (find_by_id people (user c) Hnd Hin) in Hf. injection Hf as <-.
    now rewrite Hp, Hs.
  - destruct (hostFamilyProfile u) as [hp|] eqn:Eh;
      [|destruct (auPairProfile u); contradiction].
    assert (Hc' : In c (scoreAuPairs (fun _ => k) 0 hp
                          (findMany people AU_PAIR (caller req))))
      by (destruct (auPairProfile u); assumption).
    apply In_scoreAuPairs in Hc'. destruct Hc' as [Hin [ap [j [Hp Hs]]]].
    apply In_findMany in Hin. destruct Hin as [Hin _].
    rewrite (find_by_id people (user c) Hnd Hin) in Hf. injection Hf as <-.
    now rewrite Hp, Hs.
  - destruct (auPairProfile u), (hostFamilyProfile u); contradiction.
Qed.

Lemma match_notAParty_false user m :
  notAParty user m = false <-> matchHostId m = user \/ matchAuPairId m = user.
Proof.
  unfold notAParty.
  destruct (String.eqb_spec (matchHostId m) user),
           (String.eqb_spec (matchAuPairId m) user);
    simpl; split; intros H; try tauto; try discriminate.
Qed.




(** X25.  A user who is neither the host nor the au pair of the match of
    a key can neither change its status nor delete it: the two routes
    answer 403 or 404 (400 for a status that is not allowed) and leave the
    table as it was.  A deletion that is granted removes the matches of
    that key and no other. *)
Theorem match_routes_refuse_strangers table user key status_ :
  ((forall r, In r table -> matchId r = key ->
              matchHostId (parties r) <> user /\ matchAuPairId (parties r) <> user) ->
   (snd (updateMatchStatus table user key status_) = table
    /\ In (statusCode (fst (updateMatchStatus table user key status_)))
          [400; 403; 404])
   /\ (snd (deleteMatch table user key) = table
       /\ In (statusCode (fst (deleteMatch table user key))) [403; 404]))
  /\ (statusCode (fst (deleteMatch table user key)) = 200 ->
      (exists r, In r table /\ matchId r = key
                 /\ (matchHostId (parties r) = user \/ matchAuPairId (parties r) = user))
      /\ forall x, In x (snd (deleteMatch table user key))
                   <-> In x table /\ matchId x <> key).
Proof.
  split.
  - intros Hs.
    assert (Hn : forall r, find (fun r => String.eqb (matchId r) key) table = Some r ->
                           notAParty user (parties r) = true).
    { intros r Hf. apply find_some in Hf. destruct Hf as [Hin Hk].
      apply String.eqb_eq in Hk. destruct (Hs r Hin Hk) as [Hh Ha].
      unfold notAParty. apply String.eqb_neq in Hh, Ha. now rewrite Hh, Ha. }
    unfold updateMatchStatus, deleteMatch.
    destruct (find _ table) as [r|].
    + rewrite (Hn r eq_refl). destruct (requestedStatus status_); simpl; tauto.
    + destruct (requestedStatus status_); simpl; tauto.
  - unfold deleteMatch.
    destruct (find _ table) as [r|] eqn:Hf; [|discriminate].
    destruct (notAParty user (parties r)) eqn:Ep; [discriminate|].
    intros _. cbn [snd]. apply find_some in Hf. destruct Hf as [Hin Hk].
    apply String.eqb_eq in Hk. split.
    + exists r. split; [assumption|]. split; [assumption|].
      now apply match_notAParty_false.
    + intros x. rewrite filter_In, negb_true_iff, String.eqb_neq. tauto.
Qed.

Lemma approvedMatch_app_pending table row host auPair :
  matchStatus (parties row) = MatchStatus.PENDING ->
  approvedMatch (matchesOf (table ++ [row])) host auPair
  = approvedMatch (matchesOf table) host auPair.
Proof.
  intros Hp. unfold approvedMatch, matchesOf. rewrite map_app.
  induction (map parties table) as [|m l IH]; simpl.
  - rewrite Hp. simpl. now rewrite andb_false_r.
  - destruct (_ && _); [reflexivity|apply IH].
Qed.

(** X26.  A match request opens no booking: the handler of the booking
    requests answers every request as it did before the match request was
    stored, and a request for a booking between the two users of a match
    request that was just granted is refused. *)
Theorem pending_match_allows_no_booking clock newId people table req :
  (forall now people' stored breq,
     fst (createBooking now
            {| users := people';
               matches := matchesOf (snd (createMatch clock newId people table req));
               bookings := stored |} breq)
     = fst (createBooking now
              {| users := people'; matches := matchesOf table; bookings := stored |}
              breq))
  /\ (statusCode (fst (createMatch clock newId people table req)) = 201 ->
      forall now people' stored start end_,
        statusCode
          (fst (createBooking now
                  {| users := people';
                     matches := matchesOf (snd (createMatch clock newId people table req));
                     bookings := stored |}
                  {| userId := caller req; userRole := callerRole req;
                     targetUserId := target req;
                     reqStartDate := start; reqEndDate := end_ |})) <> 201).
Proof.
  assert (Hsame : forall host auPair,
            approvedMatch (matchesOf (snd (createMatch clock newId people table req)))
                          host auPair
            = approvedMatch (matchesOf table) host auPair).
  { intros host auPair.
    destruct (createMatch_cases clock newId people table req)
      as [[_ Hsame]|[t [tu H]]]; [now rewrite Hsame|].
    cbv zeta in H. destruct H as [_ [_ [_ [_ [_ [_ [_ [_ Hr]]]]]]]].
    rewrite Hr. cbn [snd]. now apply approvedMatch_app_pending. }
  assert (Hfst : forall now people' stored breq,
     fst (createBooking now
            {| users := people';
               matches := matchesOf (snd (createMatch clock newId people table req));
               bookings := stored |} breq)
     = fst (createBooking now
              {| users := people'; matches := matchesOf table; bookings := stored |}
              breq)).
  { intros now people' stored breq. unfold createBooking. cbn [users matches bookings].
    destruct (targetUserId breq) as [t|]; [|reflexivity].
    destruct (reqStartDate breq) as [s|]; [|reflexivity].
    destruct (reqEndDate breq) as [e|]; [|reflexivity].
    destruct (String.eqb t EmptyString); [reflexivity|].
    destruct (e <=? s); [reflexivity|].
    destruct (s <? now); [reflexivity|].
    destruct (find _ people') as [tu|]; [|reflexivity].
    destruct (negb (isActive tu)); [reflexivity|].
    destruct (_ || _); [reflexivity|].
    cbv zeta. rewrite Hsame.
    destruct (approvedMatch _ _ _); [|reflexivity].
    destruct (hasConflict _ _ _ _); reflexivity. }
  split; [exact Hfst|].
  intros Hcode now people' stored start end_. rewrite Hfst.
  destruct (createMatch_cases clock newId people table req)
    as [[Hne _]|[t [tu H]]]; [contradiction|].
  cbv zeta in H. destruct H as [Ht [_ [_ [_ [_ [_ [_ [Hnone _]]]]]]]].
  assert (Hno : approvedMatch (matchesOf table)
                  (if Role_eqb (callerRole req) HOST_FAMILY then caller req else t)
                  (if Role_eqb (callerRole req) AU_PAIR then caller req else t) = None).
  { destruct (approvedMatch _ _ _) as [m|] eqn:Em; [exfalso|reflexivity].
    apply approvedMatch_some in Em. destruct Em as [Hin [Hh [Ha _]]].
    apply find_pair_none in Hnone. apply Hnone.
    apply in_map_iff. exists m. split; [|assumption].
    unfold pairOf. now rewrite Hh, Ha. }
  unfold createBooking.
  cbn [users matches bookings targetUserId reqStartDate reqEndDate userId userRole].
  rewrite Ht.
  destruct start as [s|]; [|discriminate].
  destruct end_ as [e|]; [|discriminate].
  destruct (String.eqb t EmptyString); [discriminate|].
  destruct (e <=? s); [discriminate|].
  destruct (s <? now); [discriminate|].
  destruct (find _ people') as [tu'|]; [|discriminate].
  destruct (negb (isActive tu')); [discriminate|].
  destruct (_ || _); [discriminate|].
  cbv zeta. rewrite Hno. discriminate.
Qed.

(** X27.  Either user of a match request, the one who sent it included,
    can approve it, and the approval opens bookings: once the request of
    an au pair or a host family is granted and approved, a booking request
    between the two for a period that is in order, not in the past and
    free of conflicts is answered with 201. *)
Theorem approved_match_allows_booking clock newId people table req t user :
  statusCode (fst (createMatch clock newId people table req)) = 201 ->
  (forall r, In r table -> matchId r <> newId) ->
  callerRole req <> ADMIN ->
  target req = Some t ->
  user = caller req \/ user = t ->
  let table1 := snd (createMatch clock newId people table req) in
  let table2 := snd (updateMatchStatus table1 user newId "APPROVED") in
  statusCode (fst (updateMatchStatus table1 user newId "APPROVED")) = 200
  /\ forall now stored start end_,
       start < end_ -> now <= start ->
       hasConflict stored
         (if Role_eqb (callerRole req) AU_PAIR then caller req else t) start end_
       = false ->
       statusCode
         (fst (createBooking now
                 {| users := people; matches := matchesOf table2; bookings := stored |}
                 {| userId := caller req; userRole := callerRole req;
                    targetUserId := Some t;
                    reqStartDate := Some start; reqEndDate := Some end_ |})) = 201.
Proof.
  intros Hcode Hfresh Hrole Ht Huser table1 table2.
  destruct (createMatch_cases clock newId people table req)
    as [[Hne _]|[t' [tu H]]]; [contradiction|].
  cbv zeta in H. rewrite Ht in H.
  destruct H as [Heq [Hnempty [Hne [Hf [Hact [Hr1 [Hr2 [Hnone Hr]]]]]]]].
  injection Heq as <-.
  set (host := if Role_eqb (callerRole req) HOST_FAMILY then caller req else t) in *.
  set (auPair := if Role_eqb (callerRole req) AU_PAIR then caller req else t) in *.
  set (row := {| matchId := newId;
                 parties := {| matchHostId := host; matchAuPairId := auPair;
                               matchStatus := MatchStatus.PENDING |};
                 storedScore := scoreFor clock (callerRole req)
                                  (find (fun u => String.eqb (id u) (caller req)) people)
                                  tu;
                 initiatedBy := callerRole req |}) in *.
  assert (H1 : table1 = (table ++ [row])%list) by (unfold table1; now rewrite Hr).
  assert (Hfind : find (fun r => String.eqb (matchId r) newId) table1 = Some row).
  { rewrite H1. clear - Hfresh. induction table as [|x table IH]; simpl.
    - now rewrite String.eqb_refl.
    - destruct (String.eqb_spec (matchId x) newId) as [He|_].
      + exfalso. apply (Hfresh x); [now left|assumption].
      + apply IH. intros r Hin. apply Hfresh. now right. }
  assert (Hparty : notAParty user (parties row) = false).
  { apply match_notAParty_false. unfold row, host, auPair. simpl.
    destruct (callerRole req); simpl; [| |contradiction]; destruct Huser; auto. }
  assert (H2 : updateMatchStatus table1 user newId "APPROVED"
               = (respond 200 "Match status updated successfully",
                  map (fun x => if String.eqb (matchId x) newId
                                then withStatus x MatchStatus.APPROVED else x) table1)).
  { unfold updateMatchStatus.
    change (requestedStatus "APPROVED") with (Some MatchStatus.APPROVED).
    now rewrite Hfind, Hparty. }
  split; [now rewrite H2|].
  intros now stored start end_ Hlt Hnow Hfree.
  assert (Happroved : exists m, approvedMatch (matchesOf table2) host auPair = Some m).
  { destruct (approvedMatch (matchesOf table2) host auPair) as [m|] eqn:Em;
      [now exists m|exfalso].
    unfold approvedMatch in Em.
    assert (Hin : In (parties (withStatus row MatchStatus.APPROVED)) (matchesOf table2)).
    { unfold table2. rewrite H2. cbn [snd]. unfold matchesOf.
      apply in_map. apply in_map_iff. exists row. split.
      - unfold row at 1. cbn [matchId]. now rewrite String.eqb_refl.
      - rewrite H1. apply in_or_app. right. now left. }
    pose proof (find_none _ _ Em _ Hin) as Hfalse.
    simpl in Hfalse. rewrite !String.eqb_refl in Hfalse. discriminate. }
  destruct Happroved as [m Hm].
  unfold createBooking.
  cbn [users matches bookings targetUserId reqStartDate reqEndDate userId userRole].
  destruct (String.eqb_spec t EmptyString) as [|_]; [contradiction|].
  destruct (Z.leb_spec end_ start) as [|_]; [lia|].
  destruct (Z.ltb_spec start now) as [|_]; [lia|].
  rewrite Hf, Hact. cbn [negb].
  assert (Hroles : (Role_eqb (callerRole req) AU_PAIR
                      && negb (Role_eqb (role tu) HOST_FAMILY))
                   || (Role_eqb (callerRole req) HOST_FAMILY
                         && negb (Role_eqb (role tu) AU_PAIR)) = false).
  { destruct (callerRole req) eqn:Er; simpl.
    - now rewrite (Hr1 eq_refl).
    - now rewrite (Hr2 eq_refl).
    - reflexivity. }
  rewrite Hroles. cbv zeta. fold host auPair. rewrite Hm.
  fold auPair in Hfree. now rewrite Hfree.
Qed.

End MatchRouteFacts.

Section MatchRouteExamples.

Import Examples RouteExamples MatchRoutes.

Local Open Scope string_scope.

(** The request of "ap1" for a match with "h2" is granted once. *)
Lemma createMatch_keeps_pairs_unique_witness :
  statusCode
    (fst (createMatch clock0 "m3" userTable
            (snd (createMatch clock0 "m2" userTable matchTable matchRequest))
            matchRequest)) = 400.
Proof.
  destruct (createMatch_keeps_pairs_unique clock0 "m2" userTable matchTable matchRequest)
    as [_ Htwice].
  - repeat constructor. simpl. tauto.
  - destruct (Htwice eq_refl clock0 "m3" []) as [Hcode _].
    rewrite app_nil_r in Hcode. exact Hcode.
Defined.

(** "ap1" sees "h2" with the score 53 and asks for a match: the row
    stores 53. *)
Lemma createMatch_stores_listed_score_witness :
  exists row,
    snd (createMatch clock0 "m2" userTable matchTable matchRequest)
    = (matchTable ++ [row])%list
    /\ storedScore row = 53%float.
Proof.
  apply (createMatch_stores_listed_score clock0 "m2" userTable matchTable matchRequest
           (Some 1) auPairUser [h2Scored] h2Scored).
  - repeat constructor; simpl; intuition discriminate.
  - reflexivity.
  - reflexivity.
  - reflexivity.
  - now left.
  - reflexivity.
  - reflexivity.
Defined.


(** "h3" has no part in the match "m1". *)
Lemma match_routes_refuse_strangers_witness :
  snd (updateMatchStatus matchTable "h3" "m1" "REJECTED") = matchTable
  /\ snd (deleteMatch matchTable "h3" "m1") = matchTable.
Proof.
  destruct (proj1 (match_routes_refuse_strangers matchTable "h3" "m1" "REJECTED"))
    as [[Hu _] [Hd _]].
  - intros r [<-|[]] _. split; discriminate.
  - now split.
Defined.

(** A booking of "ap1" with "h2" right after the match request. *)
Lemma pending_match_allows_no_booking_witness :
  (statusCode
    (fst (createBooking (march2025 1)
            {| users := userTable;
               matches := matchesOf
                            (snd (createMatch clock0 "m2" userTable matchTable
                                    matchRequest));
               bookings := [] |}
            {| userId := "ap1"; userRole := AU_PAIR; targetUserId := Some "h2";
               reqStartDate := Some (march2025 10);
               reqEndDate := Some (march2025 12) |})) =? 201)%Z = false.
Proof.
  apply Z.eqb_neq.
  apply (proj2 (pending_match_allows_no_booking clock0 "m2" userTable matchTable
                  matchRequest) eq_refl (march2025 1) userTable []
               (Some (march2025 10)) (Some (march2025 12))).
Defined.

(** The same booking after "ap1", who sent the match request, approved
    it. *)
Lemma approved_match_allows_booking_witness :
  statusCode
    (fst (createBooking (march2025 1)
            {| users := userTable;
               matches :=
                 matchesOf
                   (snd (updateMatchStatus
                           (snd (createMatch clock0 "m2" userTable matchTable
                                   matchRequest))
                           "ap1" "m2" "APPROVED"));
               bookings := [] |}
            {| userId := "ap1"; userRole := AU_PAIR; targetUserId := Some "h2";
               reqStartDate := Some (march2025 10);
               reqEndDate := Some (march2025 12) |})) = 201.
Proof.
  destruct (approved_match_allows_booking clock0 "m2" userTable matchTable matchRequest
              "h2" "ap1") as [_ Hbook].
  - reflexivity.
  - intros r [<-|[]]. discriminate.
  - discriminate.
  - reflexivity.
  - now left.
  - apply (Hbook (march2025 1) [] (march2025 10) (march2025 12)).
    + vm_compute. reflexivity.
    + vm_compute. discriminate.
    + reflexivity.
Defined.

End MatchRouteExamples.

(** * More about the scorer *)

Section ScorerOrderFacts.

Context {string_case : StringCase}.

Lemma existsb_perm {A : Type} (f : A -> bool) l l' :
  Permutation l l' -> existsb f l = existsb f l'.
Proof.
  intros Hp. induction Hp as [|x l l' Hp IH|x y l|l l' l'' H1 IH1 H2 IH2]; simpl.
  - reflexivity.
  - now rewrite IH.
  - now destruct (f x), (f y).
  - congruence.
Qed.

Lemma filter_length_perm {A : Type} (f : A -> bool) l l' :
  Permutation l l' -> List.length (filter f l) = List.length (filter f l').
Proof.
  intros Hp. induction Hp as [|x l l' Hp IH|x y l|l l' l'' H1 IH1 H2 IH2]; simpl.
  - reflexivity.
  - destruct (f x); simpl; now rewrite IH.
  - now destruct (f x), (f y).
  - congruence.
Qed.

Lemma calculateLanguageMatch_perm candidate candidate' preferred preferred' :
  Permutation candidate candidate' -> Permutation preferred preferred' ->
  calculateLanguageMatch candidate preferred
  = calculateLanguageMatch candidate' preferred'.
Proof.
  intros Hc Hp. unfold calculateLanguageMatch.
  rewrite (Permutation_length Hp).
  rewrite (filter_length_perm _ _ _ Hc).
  replace (filter (fun lang => existsb (fun p => String.eqb (toLowerCase p)
                                                   (toLowerCase lang)) preferred')
                  candidate')
    with (filter (fun lang => existsb (fun p => String.eqb (toLowerCase p)
                                                  (toLowerCase lang)) preferred)
                 candidate'); [reflexivity|].
  apply filter_ext. intros lang. now apply existsb_perm.
Qed.

Lemma includes_perm countries countries' c :
  Permutation (orEmpty countries) (orEmpty countries') ->
  includes countries c = includes countries' c.
Proof.
  intros Hp.
  assert (Hi : forall arr, includes arr c
                           = match c with
                             | Some x => existsb (String.eqb x) (orEmpty arr)
                             | None => false
                             end).
  { intros [l|]; destruct c; reflexivity. }
  rewrite !Hi. destruct c as [x|]; [|reflexivity]. now apply existsb_perm.
Qed.

Lemma calculateAgeMatch_perm now birth ages ages' :
  Permutation ages ages' ->
  calculateAgeMatch now birth ages = calculateAgeMatch now birth ages'.
Proof.
  intros Hp. unfold calculateAgeMatch.
  destruct birth as [b|]; [|reflexivity].
  rewrite (Permutation_length Hp).
  now rewrite !(existsb_perm _ _ _ Hp).
Qed.

(** X28.  The score does not depend on the order in which a profile
    lists its languages, preferred countries or children's ages, nor on
    whether a list that is empty is stored as an empty list or left out:
    two pairs of profiles whose lists hold the same entries and whose
    other fields agree get the same score. *)
Theorem score_independent_of_list_order clock auPair auPair' host host' :
  Permutation (orEmpty (languages auPair)) (orEmpty (languages auPair')) ->
  Permutation (orEmpty (preferredCountries auPair))
              (orEmpty (preferredCountries auPair')) ->
  dateOfBirth auPair = dateOfBirth auPair' ->
  availableFrom auPair = availableFrom auPair' ->
  availableTo auPair = availableTo auPair' ->
  hourlyRate auPair = hourlyRate auPair' ->
  Permutation (orEmpty (preferredLanguages host)) (orEmpty (preferredLanguages host')) ->
  country host = country host' ->
  Permutation (orEmpty (childrenAges host)) (orEmpty (childrenAges host')) ->
  maxBudget host = maxBudget host' ->
  calculateMatchScore clock auPair host = calculateMatchScore clock auPair' host'.
Proof.
  intros Hl Hc Hb Hf Ht Hr Hp Hco Ha Hm. unfold calculateMatchScore.
  rewrite (calculateLanguageMatch_perm _ _ _ _ Hl Hp).
  rewrite (includes_perm _ _ (country host) Hc).
  rewrite (calculateAgeMatch_perm _ _ _ _ Ha).
  now rewrite Hb, Hf, Ht, Hr, Hco, Hm.
Qed.

End ScorerOrderFacts.

Section ScorerOrderExamples.

Import Examples.

Local Open Scope string_scope.

(** The languages of the au pair and of the family in another order. *)
Lemma score_independent_of_list_order_witness :
  calculateMatchScore clock0 (speaks ["French"; "English"]) (prefers ["german"; "french"])
  = calculateMatchScore clock0 (speaks ["English"; "French"])
                        (prefers ["french"; "german"]).
Proof.
  apply score_independent_of_list_order; try reflexivity; simpl;
    try apply perm_swap; apply perm_nil.
Defined.

End ScorerOrderExamples.

(** * Upper bounds through the rounding of binary64 *)

Module Binary64Bounds.

Import Binary64 Binary64Facts.

Section Rounding.

(** Shifting out bits that are all zero leaves no trace in the round and
    sticky bits. *)
Lemma iter_shr_exact q : forall r z,
  0 <= z -> shr_r r = false -> shr_s r = false -> shr_m r = z * 2 ^ Zpos q ->
  shr_m (iter_pos shr_1 q r) = z
  /\ shr_r (iter_pos shr_1 q r) = false /\ shr_s (iter_pos shr_1 q r) = false.
Proof.
  assert (H1 : forall r z, 0 <= z -> shr_r r = false -> shr_s r = false ->
                           shr_m r = z * 2 ->
                           shr_m (shr_1 r) = z /\ shr_r (shr_1 r) = false
                           /\ shr_s (shr_1 r) = false).
  { intros [m r s] z Hz Hr Hs Hm. cbn [shr_m shr_r shr_s] in *. subst r s.
    rewrite Z.mul_comm in Hm.
    destruct z as [|p|p]; [| |lia]; subst m; cbn; auto. }
  induction q as [q IH|q IH|]; intros r z Hz Hr Hs Hm; simpl iter_pos.
  - assert (Hp : 0 < 2 ^ Zpos q) by (apply Z.pow_pos_nonneg; lia).
    rewrite (Pos2Z.inj_xI q) in Hm.
    replace (2 * Zpos q + 1) with (Zpos q + Zpos q + 1) in Hm by lia.
    rewrite !Z.pow_add_r in Hm by lia. change (2 ^ 1) with 2 in Hm.
    destruct (H1 r (z * 2 ^ Zpos q * 2 ^ Zpos q)) as [Hm1 [Hr1 Hs1]];
      [nia|assumption|assumption|lia|].
    destruct (IH (shr_1 r) (z * 2 ^ Zpos q)) as [Hm2 [Hr2 Hs2]];
      [nia|assumption|assumption|lia|].
    apply IH; [assumption|assumption|assumption|lia].
  - assert (Hp : 0 < 2 ^ Zpos q) by (apply Z.pow_pos_nonneg; lia).
    rewrite (Pos2Z.inj_xO q) in Hm.
    replace (2 * Zpos q) with (Zpos q + Zpos q) in Hm by lia.
    rewrite !Z.pow_add_r in Hm by lia.
    destruct (IH r (z * 2 ^ Zpos q)) as [Hm2 [Hr2 Hs2]];
      [nia|assumption|assumption|lia|].
    apply IH; [assumption|assumption|assumption|lia].
  - apply H1; [assumption|assumption|assumption|].
    rewrite Hm. change (2 ^ 1) with 2. reflexivity.
Qed.

Lemma loc_of_shr_record_of_loc m l :
  loc_of_shr_record (shr_record_of_loc m l) = l.
Proof. destruct l as [|[| |]]; reflexivity. Qed.

(** What [shr_fexp] returns for a positive mantissa: the mantissa shifted
    by [k] bits, [k] being what the exponent lacks to be canonical. *)
Lemma shr_fexp_spec m e l :
  0 < m ->
  let k := Z.max 0 (fexp prec emax (Zdigits2 m + e) - e) in
  snd (shr_fexp prec emax m e l) = e + k
  /\ shr_m (fst (shr_fexp prec emax m e l)) = m / 2 ^ k
  /\ (k = 0 -> loc_of_shr_record (fst (shr_fexp prec emax m e l)) = l)
  /\ (l = loc_Exact -> m mod 2 ^ k = 0 ->
      loc_of_shr_record (fst (shr_fexp prec emax m e l)) = loc_Exact).
Proof.
  intros Hm k. unfold shr_fexp, shr. subst k.
  destruct (fexp prec emax (Zdigits2 m + e) - e) as [|q|q] eqn:E; cbn [fst snd].
  - rewrite Z.max_l by lia. rewrite shr_record_of_loc_m, loc_of_shr_record_of_loc.
    change (2 ^ 0) with 1. rewrite Z.div_1_r.
    split; [lia|]. split; [reflexivity|]. split; [reflexivity|]. now intros ->.
  - rewrite Z.max_r by lia.
    rewrite iter_shr by (rewrite shr_record_of_loc_m; lia).
    rewrite shr_record_of_loc_m.
    split; [reflexivity|]. split; [reflexivity|]. split; [lia|].
    intros -> Hmod. cbn [shr_record_of_loc].
    assert (Hp : 0 < 2 ^ Zpos q) by (apply Z.pow_pos_nonneg; lia).
    destruct (iter_shr_exact q {| shr_m := m; shr_r := false; shr_s := false |}
                (m / 2 ^ Zpos q)) as [_ [Hr Hs]]; cbn [shr_m shr_r shr_s].
    + apply Z.div_pos; lia.
    + reflexivity.
    + reflexivity.
    + pose proof (Z.div_mod m (2 ^ Zpos q) ltac:(lia)). lia.
    + destruct (iter_pos shr_1 q _) as [m' r' s']. cbn [shr_r shr_s] in *.
      now subst r' s'.
  - rewrite Z.max_l by lia. rewrite shr_record_of_loc_m, loc_of_shr_record_of_loc.
    change (2 ^ 0) with 1. rewrite Z.div_1_r.
    split; [lia|]. split; [reflexivity|]. split; [reflexivity|]. now intros ->.
Qed.

Lemma fexp_eq z : fexp prec emax z = Z.max (z - 53) (-1074).
Proof. reflexivity. Qed.

Lemma pow2_pos z : 0 <= z -> 0 < 2 ^ z.
Proof. intros Hz. apply Z.pow_pos_nonneg; lia. Qed.

Lemma pow2_split a b : 0 <= a -> 0 <= b -> 2 ^ (a + b) = 2 ^ a * 2 ^ b.
Proof. intros Ha Hb. apply Z.pow_add_r; assumption. Qed.

Lemma key_finite_nonneg mb eb :
  valid_binary (S754_finite false mb eb) = true ->
  key (S754_zero false) <= key (S754_finite false mb eb).
Proof.
  intros Hv. pose proof (key_finite_bound _ _ _ Hv) as Hb. cbn [key cond_Zopp]. lia.
Qed.

(** The mantissa that rounding leaves is not above an integer bound [N]
    of the shifted value: a value below [N] is rounded to [N] at most,
    and a value that is [N] exactly is left as it is. *)
Lemma round_after_shr m e l N :
  0 < m ->
  let k := Z.max 0 (fexp prec emax (Zdigits2 m + e) - e) in
  m < N * 2 ^ k \/ (l = loc_Exact /\ m <= N * 2 ^ k) ->
  round_nearest_even (shr_m (fst (shr_fexp prec emax m e l)))
                     (loc_of_shr_record (fst (shr_fexp prec emax m e l))) <= N.
Proof.
  intros Hm k Hle.
  destruct (shr_fexp_spec m e l Hm) as [_ [HM [_ Hexact]]]. fold k in HM, Hexact.
  assert (Hk : 0 < 2 ^ k) by (apply pow2_pos; lia).
  rewrite HM.
  destruct (Z.lt_ge_cases m (N * 2 ^ k)) as [Hlt|Hge].
  - pose proof (round_nearest_even_le (m / 2 ^ k)
                  (loc_of_shr_record (fst (shr_fexp prec emax m e l)))) as Hr.
    assert (m / 2 ^ k < N) by (apply Z.div_lt_upper_bound; lia).
    lia.
  - destruct Hle as [Hlt|[Hl Hle]]; [lia|].
    assert (Heq : m = N * 2 ^ k) by lia.
    rewrite (Hexact Hl) by (rewrite Heq; apply Z.mod_mul; lia).
    cbn [round_nearest_even]. rewrite Heq, Z.div_mul by lia. lia.
Qed.

(** Rounding keeps a value under a bound that is a binary64 number: the
    value [m * 2^e] (for an inexact location, a value above it that the
    bound exceeds) rounds to a number that is not above the bound. *)
Lemma binary_round_aux_le m e l mb eb :
  0 < m -> -2200 <= e <= 971 ->
  valid_binary (S754_finite false mb eb) = true ->
  (l <> loc_Exact -> e <= fexp prec emax (Zdigits2 m + e)) ->
  m * 2 ^ (e + 2200) < Zpos mb * 2 ^ (eb + 2200)
  \/ (l = loc_Exact /\ m * 2 ^ (e + 2200) <= Zpos mb * 2 ^ (eb + 2200)) ->
  fineSF (binary_round_aux prec emax false m e l)
  /\ key (binary_round_aux prec emax false m e l) <= key (S754_finite false mb eb).
Proof.
  intros Hm He Hvalid Hprec Hle.
  destruct (valid_finite _ _ _ Hvalid) as [Heb [Hmb Hnormal]].
  destruct m as [|p|p]; try lia.
  pose proof (digits_lower p) as Hdl. pose proof (digits_upper p) as Hdu.
  destruct (shr_fexp_spec (Zpos p) e l Hm) as [He' [HM [Hk0 _]]].
  pose proof (fun N => round_after_shr (Zpos p) e l N Hm) as Hround.
  cbv zeta in He', HM, Hk0, Hround. cbn [Zdigits2] in *. rewrite fexp_eq in *.
  set (d := Zpos (digits2_pos p)) in *.
  assert (Hd : 0 < d) by (unfold d; lia).
  set (k := Z.max 0 (Z.max (d + e - 53) (-1074) - e)) in *.
  assert (Hkdef : k = Z.max 0 (Z.max (d + e - 53) (-1074) - e)) by reflexivity.
  clearbody k.
  assert (Hk : 0 <= k) by lia.
  unfold binary_round_aux.
  destruct (shr_fexp prec emax (Zpos p) e l) as [mrs' e']. cbn [fst snd] in *.
  set (m1 := round_nearest_even (shr_m mrs') (loc_of_shr_record mrs')) in *.
  pose proof (round_nearest_even_ge (shr_m mrs') (loc_of_shr_record mrs')) as Hm1ge.
  fold m1 in Hm1ge.
  assert (HMpos : 0 <= shr_m mrs').
  { rewrite HM. apply Z.div_pos; [lia|]. apply pow2_pos; lia. }
  assert (HP : 0 < 2 ^ (e + 2200)) by (apply pow2_pos; lia).
  assert (HK : 0 < 2 ^ k) by (apply pow2_pos; lia).
  (* the rounded mantissa is under the bound *)
  assert (HA : m1 * 2 ^ (e' + 2200) <= Zpos mb * 2 ^ (eb + 2200)).
  { subst e'. replace (e + k + 2200) with (k + (e + 2200)) by lia.
    rewrite pow2_split by lia.
    destruct (Z.le_gt_cases (e + k) eb) as [Hcase|Hcase].
    - (* the bound lies on the grid of the result *)
      replace (eb + 2200) with ((eb - (e + k)) + (k + (e + 2200))) by lia.
      rewrite (pow2_split (eb - (e + k))), (pow2_split k) by lia.
      assert (HQ : 0 < 2 ^ (eb - (e + k))) by (apply pow2_pos; lia).
      replace (eb + 2200) with ((eb - (e + k)) + (k + (e + 2200))) in Hle by lia.
      rewrite (pow2_split (eb - (e + k))), (pow2_split k) in Hle by lia.
      assert (Hm1 : m1 <= Zpos mb * 2 ^ (eb - (e + k))).
      { apply Hround. destruct Hle as [Hlt|[Hl Hle]]; [left|right; split; [assumption|]];
          nia. }
      nia.
    - (* the bound is finer than the grid of the result *)
      destruct (Z.eq_dec k 0) as [Hz|Hnz].
      + (* no bit is shifted out *)
        assert (Hexact : l = loc_Exact).
        { destruct l as [|c]; [reflexivity|exfalso].
          assert (Hp' : e <= Z.max (d + e - 53) (-1074)) by (apply Hprec; discriminate).
          assert (Hd53 : d = 53) by lia.
          assert (Hb : Zpos mb * 2 ^ (eb + 2200) < 2 ^ 53 * 2 ^ (eb + 2200)).
          { assert (0 < 2 ^ (eb + 2200)) by (apply pow2_pos; lia). nia. }
          rewrite <- pow2_split in Hb by lia.
          assert (Hb' : 2 ^ (53 + (eb + 2200)) <= 2 ^ (52 + (e + 2200)))
            by (apply Z.pow_le_mono_r; lia).
          rewrite (pow2_split 52) in Hb' by lia.
          rewrite Hd53 in Hdl. change (53 - 1) with 52 in Hdl.
          assert (2 ^ 52 * 2 ^ (e + 2200) <= Zpos p * 2 ^ (e + 2200))
            by (apply Z.mul_le_mono_nonneg_r; lia).
          destruct Hle as [Hlt|[Hl _]]; [lia|discriminate]. }
        assert (Hm1 : m1 = Zpos p).
        { unfold m1. rewrite (Hk0 Hz), Hexact. cbn [round_nearest_even].
          rewrite HM, Hz. change (2 ^ 0) with 1. apply Z.div_1_r. }
        rewrite Hm1, Hz. change (2 ^ 0) with 1.
        destruct Hle as [Hlt|[_ Hle]]; lia.
      + (* the result is normal, and above every number of a finer grid *)
        exfalso.
        assert (Hk' : e + k = d + e - 53) by lia.
        assert (Hb : Zpos mb * 2 ^ (eb + 2200) < 2 ^ 53 * 2 ^ (eb + 2200)).
        { assert (0 < 2 ^ (eb + 2200)) by (apply pow2_pos; lia). nia. }
        rewrite <- pow2_split in Hb by lia.
        assert (Hb' : 2 ^ (53 + (eb + 2200)) <= 2 ^ ((d - 1) + (e + 2200)))
          by (apply Z.pow_le_mono_r; lia).
        rewrite (pow2_split (d - 1)) in Hb' by lia.
        assert (2 ^ (d - 1) * 2 ^ (e + 2200) <= Zpos p * 2 ^ (e + 2200))
          by (apply Z.mul_le_mono_nonneg_r; lia).
        destruct Hle as [Hlt|[_ Hle]]; lia. }
  (* the second shift *)
  assert (He'lo : -1074 <= e') by (clear - He' Hkdef; lia).
  destruct (Z.eq_dec m1 0) as [Hz1|Hnz1].
  { rewrite Hz1. unfold shr_fexp, shr. cbn [Zdigits2].
    destruct (fexp prec emax (0 + e') - e') as [|q|q]; cbn [fst snd shr_record_of_loc].
    - cbn [shr_m]. split; [reflexivity|]. now apply key_finite_nonneg.
    - rewrite iter_shr by (cbn; lia). cbn [shr_m]. rewrite Z.div_0_l
        by (apply Z.pow_nonzero; lia).
      split; [reflexivity|]. now apply key_finite_nonneg.
    - cbn [shr_m]. split; [reflexivity|]. now apply key_finite_nonneg. }
  assert (Hm1pos : 0 < m1) by lia.
  destruct (shr_fexp_spec m1 e' loc_Exact Hm1pos) as [He'' [HM'' _]].
  cbv zeta in He'', HM''. rewrite fexp_eq in *.
  destruct m1 as [|p1|p1] eqn:Em1; try lia. cbn [Zdigits2] in *.
  pose proof (digits_lower p1) as Hdl1. pose proof (digits_upper p1) as Hdu1.
  set (d1 := Zpos (digits2_pos p1)) in *.
  assert (Hd1 : 0 < d1) by (unfold d1; lia).
  set (k2 := Z.max 0 (Z.max (d1 + e' - 53) (-1074) - e')) in *.
  assert (Hk2def : k2 = Z.max 0 (Z.max (d1 + e' - 53) (-1074) - e')) by reflexivity.
  clearbody k2.
  destruct (shr_fexp prec emax (Zpos p1) e' loc_Exact) as [mrs'' e'']. cbn [fst snd] in *.
  assert (HK2 : 0 < 2 ^ k2) by (apply pow2_pos; lia).
  assert (HP' : 0 < 2 ^ (e' + 2200)) by (apply pow2_pos; lia).
  assert (HB : shr_m mrs'' * 2 ^ (e'' + 2200) <= Zpos mb * 2 ^ (eb + 2200)).
  { rewrite HM'', He''. replace (e' + k2 + 2200) with (k2 + (e' + 2200)) by lia.
    rewrite pow2_split by lia.
    pose proof (Z.mul_div_le (Zpos p1) (2 ^ k2) HK2). nia. }
  assert (HMpos'' : 0 <= shr_m mrs'').
  { rewrite HM''. apply Z.div_pos; lia. }
  destruct (shr_m mrs'') as [|p2|p2] eqn:Em2; try lia.
  { split; [reflexivity|]. now apply key_finite_nonneg. }
  assert (Hfit : e'' <= 971).
  { destruct (Z.le_gt_cases e'' 971) as [|Hbig]; [assumption|exfalso].
    assert (Hbound : Zpos mb * 2 ^ (eb + 2200) < 2 ^ (53 + (971 + 2200))).
    { rewrite (pow2_split 53 (971 + 2200)) by lia.
      assert (2 ^ (eb + 2200) <= 2 ^ (971 + 2200)) by (apply Z.pow_le_mono_r; lia).
      assert (0 < 2 ^ (eb + 2200)) by (apply pow2_pos; lia).
      nia. }
    assert (Hlow : 2 ^ (52 + (972 + 2200)) <= Zpos p2 * 2 ^ (e'' + 2200)).
    { assert (Hbig52 : 2 ^ 52 <= Zpos p2).
      { destruct (Z.eq_dec k2 0) as [Hz2|Hnz2].
        - (* the exponent is that of the first shift, which was at work *)
          assert (Hkpos : k <> 0) by lia.
          assert (Hk' : k = d - 53) by lia.
          rewrite Hz2 in HM''. change (2 ^ 0) with 1 in HM''. rewrite Z.div_1_r in HM''.
          assert (2 ^ 52 <= shr_m mrs').
          { rewrite HM, Hk'. apply Z.div_le_lower_bound; [apply pow2_pos; lia|].
            rewrite <- pow2_split by lia.
            replace (d - 53 + 52) with (d - 1) by lia. exact Hdl. }
          lia.
        - assert (Hk2' : k2 = d1 - 53) by lia.
          rewrite HM'', Hk2'. apply Z.div_le_lower_bound; [apply pow2_pos; lia|].
          rewrite <- pow2_split by lia.
          replace (d1 - 53 + 52) with (d1 - 1) by lia. exact Hdl1. }
      rewrite pow2_split by lia.
      assert (2 ^ (972 + 2200) <= 2 ^ (e'' + 2200)) by (apply Z.pow_le_mono_r; lia).
      assert (0 < 2 ^ (972 + 2200)) by (apply pow2_pos; lia).
      nia. }
    replace (53 + (971 + 2200)) with (52 + (972 + 2200)) in Hbound by lia.
    lia. }
  unfold prec, emax. destruct (Z.leb_spec e'' (1024 - 53)) as [_|]; [|lia].
  split; [reflexivity|]. cbn [key cond_Zopp].
  assert (He''lo : -1074 <= e'') by lia.
  replace (e'' + 2200) with ((e'' + 1074) + 1126) in HB by lia.
  replace (eb + 2200) with ((eb + 1074) + 1126) in HB by lia.
  rewrite !(pow2_split _ 1126) in HB by lia.
  assert (0 < 2 ^ 1126) by (apply pow2_pos; lia).
  nia.
Qed.

(** Aligning a mantissa to a lower exponent keeps the value. *)
Lemma shl_align_value m e e' :
  -2200 <= e -> -2200 <= e' ->
  Zpos (fst (shl_align m e e')) * 2 ^ (snd (shl_align m e e') + 2200)
  = Zpos m * 2 ^ (e + 2200)
  /\ snd (shl_align m e e') <= e
  /\ Z.min e e' <= snd (shl_align m e e').
Proof.
  intros He He'. unfold shl_align.
  destruct (e' - e) as [|q|q] eqn:E; cbn [fst snd]; try (split; [reflexivity|lia]).
  rewrite iter_xO. split; [|lia].
  replace (e + 2200) with (Zpos q + (e' + 2200)) by lia.
  rewrite (pow2_split (Zpos q) (e' + 2200)) by lia. ring.
Qed.

Lemma binary_round_le m e mb eb :
  -2200 <= e <= 971 ->
  valid_binary (S754_finite false mb eb) = true ->
  Zpos m * 2 ^ (e + 2200) <= Zpos mb * 2 ^ (eb + 2200) ->
  fineSF (binary_round prec emax false m e)
  /\ key (binary_round prec emax false m e) <= key (S754_finite false mb eb).
Proof.
  intros He Hv Hle. unfold binary_round.
  pose proof (shl_align_value m e (fexp prec emax (Zpos (digits2_pos m) + e))) as Ha.
  rewrite fexp_eq in *.
  destruct (shl_align m e _) as [mz ez]. cbn [fst snd] in Ha.
  destruct Ha as [Hval [Hhi Hlo]]; [lia|lia|].
  apply binary_round_aux_le; try assumption; try lia.
  - intros Hne. now contradiction Hne.
  - right. split; [reflexivity|]. rewrite Hval. exact Hle.
Qed.

Lemma fineSF_key_nonneg x : fineSF x -> valid_binary x = true -> 0 <= key x.
Proof.
  destruct x as [s|s| |s m e]; cbn [fineSF]; intros Hs Hv; try contradiction; subst.
  - simpl. lia.
  - cbn [key cond_Zopp]. pose proof keyInf_pos. lia.
  - pose proof (key_finite_bound _ _ _ Hv). cbn [key cond_Zopp]. lia.
Qed.

(** A sum stays under a binary64 bound of the exact sum. *)
Lemma SFadd_le x y mb eb :
  valid_binary x = true -> valid_binary y = true ->
  fineSF x -> fineSF y ->
  valid_binary (S754_finite false mb eb) = true ->
  key x + key y <= key (S754_finite false mb eb) ->
  fineSF (SFadd prec emax x y)
  /\ key (SFadd prec emax x y) <= key (S754_finite false mb eb).
Proof.
  intros Vx Vy Fx Fy Vb Hle.
  pose proof (fineSF_key_nonneg x Fx Vx) as Hx0.
  pose proof (fineSF_key_nonneg y Fy Vy) as Hy0.
  pose proof (key_finite_bound _ _ _ Vb) as Hb. cbn [key cond_Zopp] in Hle.
  destruct x as [sx|sx| |sx mx ex], y as [sy|sy| |sy my ey];
    cbn [fineSF] in Fx, Fy; try contradiction; subst;
    cbn [SFadd key cond_Zopp] in *; try (split; [reflexivity|lia]).
  destruct (valid_finite _ _ _ Vx) as [Hex _].
  destruct (valid_finite _ _ _ Vy) as [Hey _].
  set (ez := Z.min ex ey) in *.
  rewrite <- Pos2Z.inj_add. cbn [binary_normalize].
  apply binary_round_le; [lia|assumption|].
  rewrite Pos2Z.inj_add, !shl_align_fst by lia.
  assert (H1 : 2 ^ (ex - ez) * 2 ^ (ez + 2200) = 2 ^ (ex + 1074) * 2 ^ 1126).
  { rewrite <- !pow2_split by lia. f_equal. lia. }
  assert (H2 : 2 ^ (ey - ez) * 2 ^ (ez + 2200) = 2 ^ (ey + 1074) * 2 ^ 1126).
  { rewrite <- !pow2_split by lia. f_equal. lia. }
  assert (H3 : 2 ^ (eb + 2200) = 2 ^ (eb + 1074) * 2 ^ 1126).
  { rewrite <- !pow2_split by (destruct (valid_finite _ _ _ Vb); lia). f_equal. lia. }
  assert (0 < 2 ^ 1126) by (apply pow2_pos; lia).
  rewrite H3. nia.
Qed.

(** A product stays under a binary64 bound of the exact product. *)
Lemma SFmul_le x y mb eb :
  valid_binary x = true -> valid_binary y = true ->
  fineSF x -> fineSF y -> key x < keyInf -> key y < keyInf ->
  valid_binary (S754_finite false mb eb) = true ->
  key x * key y <= key (S754_finite false mb eb) * 2 ^ 1074 ->
  fineSF (SFmul prec emax x y)
  /\ key (SFmul prec emax x y) <= key (S754_finite false mb eb).
Proof.
  intros Vx Vy Fx Fy Ix Iy Vb Hle.
  pose proof (key_finite_bound _ _ _ Vb) as Hb.
  destruct x as [sx|sx| |sx mx ex], y as [sy|sy| |sy my ey];
    cbn [fineSF] in Fx, Fy; try contradiction; subst;
    cbn [SFmul key cond_Zopp xorb] in *; try lia;
    try (split; [reflexivity|lia]).
  destruct (valid_finite _ _ _ Vx) as [Hex [Hmx Hnx]].
  destruct (valid_finite _ _ _ Vy) as [Hey [Hmy Hny]].
  destruct (valid_finite _ _ _ Vb) as [Heb [Hmb _]].
  assert (Hexp : ex + ey <= 971).
  { destruct (Z.le_gt_cases (ex + ey) 971) as [|Hbig]; [assumption|exfalso].
    assert (H52x : 2 ^ 52 <= Zpos mx) by (apply Hnx; lia).
    assert (H52y : 2 ^ 52 <= Zpos my) by (apply Hny; lia).
    assert (Hlow : 2 ^ 52 * 2 ^ 52 * 2 ^ (972 + 2148)
                   <= (Zpos mx * 2 ^ (ex + 1074)) * (Zpos my * 2 ^ (ey + 1074))).
    { assert (HXY : 2 ^ (972 + 2148) <= 2 ^ (ex + 1074) * 2 ^ (ey + 1074)).
      { rewrite <- (pow2_split (ex + 1074) (ey + 1074)) by lia.
        apply Z.pow_le_mono_r; lia. }
      assert (0 < 2 ^ 52) by (apply pow2_pos; lia).
      assert (2 ^ 52 * 2 ^ 52 <= Zpos mx * Zpos my)
        by (apply Z.mul_le_mono_nonneg; lia).
      assert (0 < 2 ^ (972 + 2148)) by (apply pow2_pos; lia).
      transitivity (Zpos mx * Zpos my * (2 ^ (ex + 1074) * 2 ^ (ey + 1074)));
        [|apply Z.eq_le_incl; ring].
      apply Z.mul_le_mono_nonneg; lia. }
    assert (Hhigh : Zpos mb * 2 ^ (eb + 1074) * 2 ^ 1074 < 2 ^ 2098 * 2 ^ 1074).
    { unfold keyInf in Hb. apply Z.mul_lt_mono_pos_r; [apply pow2_pos; lia|lia]. }
    rewrite <- (pow2_split 2098 1074) in Hhigh by lia.
    rewrite <- (pow2_split 52 52), <- (pow2_split (52 + 52) (972 + 2148)) in Hlow by lia.
    assert (2 ^ (2098 + 1074) <= 2 ^ (52 + 52 + (972 + 2148)))
      by (apply Z.pow_le_mono_r; lia).
    lia. }
  apply binary_round_aux_le; try assumption; try lia.
  - intros Hne. now contradiction Hne.
  - right. split; [reflexivity|].
    assert (HP : 2 ^ (ex + ey + 2200) = 2 ^ (ex + 1074) * 2 ^ (ey + 1074) * 2 ^ 52).
    { rewrite <- !pow2_split by lia. f_equal. lia. }
    assert (HB : 2 ^ (eb + 2200) = 2 ^ (eb + 1074) * 2 ^ 1074 * 2 ^ 52).
    { rewrite <- !pow2_split by lia. f_equal. lia. }
    rewrite Pos2Z.inj_mul, HP, HB.
    assert (0 < 2 ^ 52) by (apply pow2_pos; lia).
    transitivity (Zpos mx * 2 ^ (ex + 1074) * (Zpos my * 2 ^ (ey + 1074)) * 2 ^ 52);
      [apply Z.eq_le_incl; ring|].
    transitivity (Zpos mb * 2 ^ (eb + 1074) * 2 ^ 1074 * 2 ^ 52);
      [apply Z.mul_le_mono_nonneg_r; lia|apply Z.eq_le_incl; ring].
Qed.

(** A quotient stays under a binary64 bound of the exact quotient, when
    it is not so small that it leaves the normal numbers. *)
Lemma SFdiv_le mx ex my ey mb eb :
  valid_binary (S754_finite false mx ex) = true ->
  valid_binary (S754_finite false my ey) = true ->
  valid_binary (S754_finite false mb eb) = true ->
  -1021 <= Zpos (digits2_pos mx) + ex - (Zpos (digits2_pos my) + ey) <= 1024 ->
  key (S754_finite false mx ex) * 2 ^ 1074
  <= key (S754_finite false mb eb) * key (S754_finite false my ey) ->
  fineSF (SFdiv prec emax (S754_finite false mx ex) (S754_finite false my ey))
  /\ key (SFdiv prec emax (S754_finite false mx ex) (S754_finite false my ey))
     <= key (S754_finite false mb eb).
Proof.
  intros Vx Vy Vb Hz Hle. cbn [key cond_Zopp] in Hle.
  destruct (valid_finite _ _ _ Vx) as [Hex [Hmx _]].
  destruct (valid_finite _ _ _ Vy) as [Hey [Hmy _]].
  destruct (valid_finite _ _ _ Vb) as [Heb [Hmb _]].
  pose proof (digits_lower mx) as Hl1. pose proof (digits_upper mx) as Hu1.
  pose proof (digits_lower my) as Hl2. pose proof (digits_upper my) as Hu2.
  cbn [SFdiv xorb]. unfold SFdiv_core_binary. cbn [Zdigits2]. rewrite fexp_eq.
  set (d1 := Zpos (digits2_pos mx)) in *. set (d2 := Zpos (digits2_pos my)) in *.
  assert (Hd1 : 0 < d1) by (unfold d1; lia).
  assert (Hd2 : 0 < d2) by (unfold d2; lia).
  set (e' := Z.min (Z.max (d1 + ex - (d2 + ey) - 53) (-1074)) (ex - ey)).
  assert (He'def : e' = Z.min (d1 + ex - (d2 + ey) - 53) (ex - ey))
    by (unfold e'; lia).
  clearbody e'.
  set (s := ex - ey - e').
  assert (Hs : 53 - d1 + d2 <= s /\ 0 <= s) by (unfold s; lia).
  set (m' := match s with
             | 0 => Zpos mx
             | Zpos _ => Z.shiftl (Zpos mx) s
             | Zneg _ => 0
             end).
  assert (Hm' : m' = Zpos mx * 2 ^ s).
  { unfold m'. destruct s as [|q|q] eqn:Es; [simpl; lia| |lia].
    apply Z.shiftl_mul_pow2. lia. }
  clearbody m'.
  assert (H2s : 0 < 2 ^ s) by (apply pow2_pos; lia).
  pose proof (Z.div_eucl_eq m' (Zpos my) ltac:(lia)) as Hdiv.
  pose proof (Z.mod_pos_bound m' (Zpos my) ltac:(lia)) as Hmod.
  unfold Z.modulo in Hmod.
  destruct (Z.div_eucl m' (Zpos my)) as [q r].
  (* the quotient has 53 bits at least *)
  assert (Hq : 2 ^ 52 <= q).
  { assert (Hbig : 2 ^ (52 + d2) <= m').
    { rewrite Hm'.
      assert (2 ^ (52 + d2) <= 2 ^ ((d1 - 1) + s)) by (apply Z.pow_le_mono_r; lia).
      rewrite (pow2_split (d1 - 1) s) in H by lia. nia. }
    rewrite (pow2_split 52 d2) in Hbig by lia.
    assert (0 < 2 ^ 52) by (apply pow2_pos; lia).
    destruct (Z.le_gt_cases (2 ^ 52) q) as [|Hsmall]; [assumption|exfalso].
    assert (q + 1 <= 2 ^ 52) by lia.
    assert (m' < (q + 1) * Zpos my) by lia.
    assert ((q + 1) * Zpos my <= 2 ^ 52 * Zpos my)
      by (apply Z.mul_le_mono_nonneg_r; lia).
    assert (2 ^ 52 * Zpos my < 2 ^ 52 * 2 ^ d2) by (apply Z.mul_lt_mono_pos_l; lia).
    lia. }
  assert (Hq0 : 0 < q) by (pose proof (pow2_pos 52 ltac:(lia)); lia).
  assert (Hprec : e' <= fexp prec emax (Zdigits2 q + e')).
  { rewrite fexp_eq. destruct q as [|pq|pq]; try lia. cbn [Zdigits2].
    pose proof (digits_upper pq) as Huq.
    assert (52 < Zpos (digits2_pos pq)).
    { destruct (Z.le_gt_cases (Zpos (digits2_pos pq)) 52) as [Hsmall|]; [|assumption].
      assert (2 ^ Zpos (digits2_pos pq) <= 2 ^ 52) by (apply Z.pow_le_mono_r; lia).
      lia. }
    lia. }
  (* the value of the quotient against the bound *)
  assert (Hval : m' * 2 ^ (e' + 2200) <= Zpos mb * 2 ^ (eb + 2200) * Zpos my).
  { assert (HY : 0 < 2 ^ (ey + 1074)) by (apply pow2_pos; lia).
    apply Z.mul_le_mono_pos_r with (p := 2 ^ (ey + 1074)); [assumption|].
    assert (E1 : m' * 2 ^ (e' + 2200) * 2 ^ (ey + 1074)
                 = Zpos mx * 2 ^ (ex + 1074) * 2 ^ 1074 * 2 ^ 1126).
    { rewrite Hm'. rewrite <- !Z.mul_assoc. f_equal.
      rewrite <- !pow2_split by lia. f_equal. unfold s. lia. }
    assert (E2 : Zpos mb * 2 ^ (eb + 2200) * Zpos my * 2 ^ (ey + 1074)
                 = Zpos mb * 2 ^ (eb + 1074) * (Zpos my * 2 ^ (ey + 1074)) * 2 ^ 1126).
    { replace (eb + 2200) with ((eb + 1074) + 1126) by lia.
      rewrite (pow2_split (eb + 1074) 1126) by lia. ring. }
    rewrite E1, E2. apply Z.mul_le_mono_nonneg_r; [apply Z.pow_nonneg; lia|exact Hle]. }
  apply binary_round_aux_le; try assumption; try lia.
  assert (HP : 0 < 2 ^ (e' + 2200)) by (apply pow2_pos; lia).
  destruct (Z.eq_dec r 0) as [Hr|Hr].
  - right. split.
    + subst r. unfold new_location, new_location_even, new_location_odd.
      destruct (Z.even (Zpos my)); reflexivity.
    + subst r. rewrite Z.add_0_r in Hdiv. rewrite Hdiv in Hval.
      apply Z.mul_le_mono_pos_l with (p := Zpos my); [lia|].
      lia.
  - left. apply Z.mul_lt_mono_pos_l with (p := Zpos my); [lia|].
    assert (Zpos my * q < m') by lia.
    assert (Zpos my * q * 2 ^ (e' + 2200) < m' * 2 ^ (e' + 2200))
      by (apply Z.mul_lt_mono_pos_r; lia).
    lia.
Qed.

Lemma digits_unique m k :
  2 ^ (k - 1) <= Zpos m < 2 ^ k -> Zpos (digits2_pos m) = k.
Proof.
  intros [Hlo Hhi]. pose proof (digits_lower m) as Hl. pose proof (digits_upper m) as Hu.
  set (d := Zpos (digits2_pos m)) in *.
  assert (Hd : 0 < d) by (unfold d; lia).
  destruct (Z.lt_trichotomy d k) as [Hlt|[Heq|Hgt]]; [exfalso|assumption|exfalso].
  - assert (2 ^ d <= 2 ^ (k - 1)) by (apply Z.pow_le_mono_r; lia). lia.
  - destruct (Z.le_gt_cases 0 k) as [Hk|Hk].
    + assert (2 ^ k <= 2 ^ (d - 1)) by (apply Z.pow_le_mono_r; lia). lia.
    + rewrite (Z.pow_neg_r 2 k) in Hhi by lia. lia.
Qed.

Lemma shl_align_snd_eq m e e' : e' <= e -> snd (shl_align m e e') = e'.
Proof.
  intros H. unfold shl_align. destruct (e' - e) eqn:E; cbn [snd]; lia.
Qed.

(** A mantissa of 53 bits at its exponent is what rounding returns. *)
Lemma binary_round_aux_canonical m e :
  2 ^ 52 <= Zpos m < 2 ^ 53 -> -1074 <= e <= 971 ->
  binary_round_aux prec emax false (Zpos m) e loc_Exact = S754_finite false m e.
Proof.
  intros Hm He. pose proof (digits_unique m 53 Hm) as Hd.
  unfold binary_round_aux.
  destruct (shr_fexp_spec (Zpos m) e loc_Exact ltac:(lia)) as [H1 [H2 [H3 _]]].
  cbv zeta in H1, H2, H3. cbn [Zdigits2] in *. rewrite fexp_eq, Hd in *.
  replace (Z.max 0 (Z.max (53 + e - 53) (-1074) - e)) with 0 in * by lia.
  change (2 ^ 0) with 1 in *. rewrite Z.div_1_r, Z.add_0_r in *.
  destruct (shr_fexp prec emax (Zpos m) e loc_Exact) as [mrs' e']. cbn [fst snd] in *.
  rewrite (H3 eq_refl), H2, H1. cbn [round_nearest_even].
  destruct (shr_fexp_spec (Zpos m) e loc_Exact ltac:(lia)) as [H1' [H2' _]].
  cbv zeta in H1', H2'. cbn [Zdigits2] in *. rewrite fexp_eq, Hd in *.
  replace (Z.max 0 (Z.max (53 + e - 53) (-1074) - e)) with 0 in * by lia.
  change (2 ^ 0) with 1 in *. rewrite Z.div_1_r, Z.add_0_r in *.
  destruct (shr_fexp prec emax (Zpos m) e loc_Exact) as [mrs'' e'']. cbn [fst snd] in *.
  rewrite H2', H1'. unfold prec, emax.
  destruct (Z.leb_spec e (1024 - 53)); [reflexivity|lia].
Qed.

End Rounding.

Section Numbers.

Local Open Scope float_scope.

(** The conversion of an integer below [2^53] is exact. *)
Lemma Z2F_exact n :
  (0 < n < 2 ^ 53)%Z ->
  exists m,
    Prim2SF (Z2F n) = S754_finite false m (Zdigits2 n - 53)
    /\ (Zpos m = n * 2 ^ (53 - Zdigits2 n))%Z
    /\ Zpos (digits2_pos m) = 53%Z.
Proof.
  intros Hn. rewrite Z2F_spec by lia.
  destruct n as [|p|p]; try lia. cbn [binary_normalize Zdigits2].
  pose proof (digits_lower p) as Hl. pose proof (digits_upper p) as Hu.
  pose proof (digits_le_of_lt p 53 ltac:(lia)) as Hd.
  unfold binary_round. rewrite fexp_eq.
  set (d := Zpos (digits2_pos p)) in *.
  assert (Hd0 : (0 < d)%Z) by (unfold d; lia).
  replace (Z.max (d + 0 - 53) (-1074)) with (d - 53)%Z by lia.
  pose proof (shl_align_fst p 0 (d - 53) ltac:(lia)) as Hf.
  pose proof (shl_align_snd_eq p 0 (d - 53) ltac:(lia)) as Hs.
  destruct (shl_align p 0 (d - 53)) as [mz ez]. cbn [fst snd] in *. subst ez.
  replace (0 - (d - 53))%Z with (53 - d)%Z in Hf by lia.
  assert (Hm : (2 ^ 52 <= Zpos mz < 2 ^ 53)%Z).
  { rewrite Hf.
    assert (E1 : (2 ^ (d - 1) * 2 ^ (53 - d) = 2 ^ 52)%Z).
    { rewrite <- pow2_split by lia. f_equal. lia. }
    assert (E2 : (2 ^ d * 2 ^ (53 - d) = 2 ^ 53)%Z).
    { rewrite <- pow2_split by lia. f_equal. lia. }
    assert (0 < 2 ^ (53 - d))%Z by (apply pow2_pos; lia).
    split; [rewrite <- E1|rewrite <- E2]; nia. }
  exists mz. rewrite binary_round_aux_canonical by (try assumption; lia).
  split; [reflexivity|]. split; [assumption|]. now apply digits_unique.
Qed.

Lemma fkey_Z2F n : (0 <= n < 2 ^ 53)%Z -> fkey (Z2F n) = (n * 2 ^ 1074)%Z.
Proof.
  intros Hn. destruct (Z.eq_dec n 0) as [->|Hnz]; [reflexivity|].
  destruct (Z2F_exact n ltac:(lia)) as [m [Hm [Hv _]]].
  unfold fkey. rewrite Hm. cbn [key cond_Zopp]. rewrite Hv.
  destruct n as [|p|p]; try lia. cbn [Zdigits2].
  pose proof (digits_le_of_lt p 53 ltac:(lia)) as Hd.
  assert (Hd0 : (0 < Zpos (digits2_pos p))%Z) by lia.
  rewrite <- Z.mul_assoc, <- pow2_split by lia. do 2 f_equal. lia.
Qed.

Lemma posFinite_valid c :
  posFinite c ->
  exists mb eb, Prim2SF c = S754_finite false mb eb
                /\ valid_binary (S754_finite false mb eb) = true.
Proof.
  intros [mb [eb Hc]]. exists mb, eb. split; [assumption|].
  rewrite <- Hc. apply Prim2SF_valid.
Qed.

Lemma posFinite_key c : posFinite c -> (0 < fkey c < keyInf)%Z.
Proof.
  intros Hc. destruct (posFinite_valid c Hc) as [mb [eb [Hp Hv]]].
  unfold fkey. rewrite Hp. apply (key_finite_bound _ _ _ Hv).
Qed.

Lemma fine_key_nonneg x : fine x -> (0 <= fkey x)%Z.
Proof. intros Hx. apply fineSF_key_nonneg; [assumption|apply Prim2SF_valid]. Qed.

Lemma atMost_finite b x : atMost b x -> posFinite b -> (fkey x < keyInf)%Z.
Proof. intros [_ Hle] Hb. pose proof (posFinite_key b Hb). lia. Qed.

Lemma atMost_weaken b c x :
  atMost b x -> (fkey b <= fkey c)%Z -> atMost c x.
Proof. intros [Hf Hle] Hbc. split; [assumption|lia]. Qed.

Lemma atMost_add x y c :
  fine x -> fine y -> posFinite c -> (fkey x + fkey y <= fkey c)%Z ->
  atMost c (x + y).
Proof.
  intros Hx Hy Hc Hle. destruct (posFinite_valid c Hc) as [mb [eb [Hp Hv]]].
  unfold atMost, fine, fkey in *. rewrite add_spec, Hp in *.
  apply SFadd_le; auto using Prim2SF_valid.
Qed.

Lemma atMost_mul x y c :
  fine x -> fine y -> (fkey x < keyInf)%Z -> (fkey y < keyInf)%Z -> posFinite c ->
  (fkey x * fkey y <= fkey c * 2 ^ 1074)%Z ->
  atMost c (x * y).
Proof.
  intros Hx Hy Ix Iy Hc Hle. destruct (posFinite_valid c Hc) as [mb [eb [Hp Hv]]].
  unfold atMost, fine, fkey in *. rewrite mul_spec, Hp in *.
  apply SFmul_le; auto using Prim2SF_valid.
Qed.

Lemma digits_bounds n : (0 < n < 2 ^ 53)%Z -> (0 < Zdigits2 n <= 53)%Z.
Proof.
  intros Hn. destruct n as [|p|p]; try lia. cbn [Zdigits2].
  pose proof (digits_le_of_lt p 53 ltac:(lia)). lia.
Qed.

(** The quotient of two integers below [2^53] is not above an integer
    that the exact quotient is not above. *)
Lemma atMost_div_Z2F c l N :
  (0 <= c < 2 ^ 53)%Z -> (0 < l < 2 ^ 53)%Z -> (0 < N < 2 ^ 53)%Z ->
  (c <= N * l)%Z ->
  atMost (Z2F N) (Z2F c / Z2F l).
Proof.
  intros Hc Hl HN Hle.
  destruct (Z2F_exact l Hl) as [ml [Pl [Vl Dl]]].
  destruct (Z2F_exact N HN) as [mN [PN [VN DN]]].
  pose proof (fkey_Z2F l ltac:(lia)) as Kl.
  pose proof (fkey_Z2F N ltac:(lia)) as KN.
  pose proof (Prim2SF_valid (Z2F l)) as Wl. pose proof (Prim2SF_valid (Z2F N)) as WN.
  unfold atMost, fine, fkey in *. rewrite div_spec.
  rewrite Pl, PN in *.
  destruct (Z.eq_dec c 0) as [->|Hnz].
  - change (Prim2SF (Z2F 0)) with (S754_zero false).
    unfold SF64div. cbn [SFdiv xorb fineSF].
    split; [reflexivity|]. rewrite KN. change (key (S754_zero false)) with 0%Z. lia.
  - destruct (Z2F_exact c ltac:(lia)) as [mc [Pc [Vc Dc]]].
    pose proof (fkey_Z2F c ltac:(lia)) as Kc.
    pose proof (Prim2SF_valid (Z2F c)) as Wc.
    unfold fkey in Kc. rewrite Pc in *.
    pose proof (digits_bounds c ltac:(lia)).
    pose proof (digits_bounds l Hl).
    apply SFdiv_le; try assumption.
    + rewrite Dc, Dl. lia.
    + rewrite Kc, KN, Kl.
      assert (0 < 2 ^ 1074)%Z by (apply pow2_pos; lia).
      nia.
Qed.

(** [Math.round] of a number that is not above an integer is an integer
    not above it. *)
Lemma Math_round_atMost x N :
  fine x -> (0 <= N < 2 ^ 52)%Z -> (fkey x <= N * 2 ^ 1074)%Z ->
  atMost (Z2F N) (Math_round x) /\ isInteger (Math_round x) = true.
Proof.
  intros Hx HN Hle.
  pose proof (fkey_Z2F N ltac:(lia)) as KN.
  pose proof (Prim2SF_valid x) as Vx.
  assert (H1074 : (0 < 2 ^ 1074)%Z) by (apply pow2_pos; lia).
  assert (H52 : (2 ^ 52 * 2 ^ 1074 < keyInf)%Z).
  { unfold keyInf. rewrite <- pow2_split by lia. apply Z.pow_lt_mono_r; lia. }
  unfold atMost, fine, fkey, Math_round, isInteger in *.
  destruct (Prim2SF x) as [s|s| |s m e] eqn:Ex; cbn [fineSF] in Hx;
    try contradiction; subst s.
  - rewrite Ex. cbn [fineSF key]. rewrite KN. repeat split; lia.
  - cbn [key cond_Zopp] in Hle. exfalso. nia.
  - destruct (valid_finite _ _ _ Vx) as [He _].
    destruct (Z.leb_spec 0 e) as [Hpos|Hneg].
    + rewrite Ex. cbn [fineSF]. rewrite KN.
      destruct (Z.leb_spec 0 e); [|lia]. repeat split; assumption.
    + cbn [cond_Zopp]. rewrite andb_false_r.
      set (n := Z.shiftr (2 * Zpos m + 2 ^ (- e)) (- e + 1)).
      assert (Hn : (0 <= n <= N)%Z).
      { unfold n. rewrite Z.shiftr_div_pow2 by lia.
        assert (Hp : (0 < 2 ^ (- e))%Z) by (apply pow2_pos; lia).
        rewrite (pow2_split (- e) 1) by lia. change (2 ^ 1)%Z with 2%Z.
        cbn [key cond_Zopp] in Hle.
        assert (Hs : (2 ^ 1074 = 2 ^ (e + 1074) * 2 ^ (- e))%Z).
        { rewrite <- pow2_split by lia. f_equal. lia. }
        assert (He' : (0 < 2 ^ (e + 1074))%Z) by (apply pow2_pos; lia).
        assert (Hm : (Zpos m <= N * 2 ^ (- e))%Z).
        { rewrite Hs in Hle. nia. }
        split.
        - apply Z.div_pos; lia.
        - assert ((2 * Zpos m + 2 ^ (- e)) / (2 ^ (- e) * 2) < N + 1)%Z; [|lia].
          apply Z.div_lt_upper_bound; lia. }
      clearbody n.
      split; [split; [apply Z2F_fine; lia|]|].
      * pose proof (fkey_Z2F n ltac:(lia)) as Kn. unfold fkey in Kn.
        rewrite Kn, KN. apply Z.mul_le_mono_nonneg_r; lia.
      * destruct (Z.eq_dec n 0) as [->|Hnz]; [reflexivity|].
        destruct (Z2F_exact n ltac:(lia)) as [mz [Pz [Vz _]]]. rewrite Pz.
        pose proof (digits_bounds n ltac:(lia)) as Hd.
        destruct (Z.leb_spec 0 (Zdigits2 n - 53)); [reflexivity|].
        cbn [orb]. apply Z.eqb_eq.
        rewrite Z.land_ones by lia. rewrite Vz.
        replace (- (Zdigits2 n - 53))%Z with (53 - Zdigits2 n)%Z by lia.
        apply Z.mod_mul. apply Z.pow_nonzero; lia.
Qed.

End Numbers.



End Binary64Bounds.

(** * The range of the score *)

Section ScoreRange.

Import Binary64 Binary64Facts Binary64Bounds.

Context {string_case : StringCase}.

Local Open Scope float_scope.

(** The languages of the candidate that match a preferred one. *)
Lemma matching_le_candidates candidate preferred :
  (List.length
     (filter (fun lang =>
                existsb (fun p => String.eqb (toLowerCase p) (toLowerCase lang))
                        preferred)
             candidate)
   <= List.length candidate)%nat.
Proof. apply filter_length_le. Qed.

(** Languages that are distinct up to case match distinct preferred
    languages, so there are no more of them than preferred languages. *)
Lemma matching_le_preferred candidate preferred :
  distinctUpToCase candidate ->
  (List.length
     (filter (fun lang =>
                existsb (fun p => String.eqb (toLowerCase p) (toLowerCase lang))
                        preferred)
             candidate)
   <= List.length preferred)%nat.
Proof.
  unfold distinctUpToCase. intros Hnd.
  set (f := fun lang => existsb (fun p => String.eqb (toLowerCase p) (toLowerCase lang))
                                preferred).
  rewrite <- (length_map toLowerCase (filter f candidate)).
  rewrite <- (length_map toLowerCase preferred).
  apply NoDup_incl_length.
  - clear -Hnd. induction candidate as [|x l IH]; simpl; [constructor|].
    simpl in Hnd. inversion Hnd as [|? ? Hx Hl]; subst.
    destruct (f x); simpl; [|now apply IH].
    constructor; [|now apply IH].
    intros Hin. apply Hx. apply in_map_iff in Hin. destruct Hin as [y [Hy Hin]].
    apply filter_In in Hin. rewrite <- Hy. apply in_map. tauto.
  - intros z Hz. apply in_map_iff in Hz. destruct Hz as [x [<- Hx]].
    apply filter_In in Hx. destruct Hx as [_ Hx]. unfold f in Hx.
    apply existsb_exists in Hx. destruct Hx as [p [Hp Heq]].
    apply String.eqb_eq in Heq. rewrite <- Heq. now apply in_map.
Qed.

(** The language sub-score is at most [100 * N], for an [N] that bounds
    the matching languages per preferred language. *)
Lemma calculateLanguageMatch_atMost candidate preferred N :
  jsArray preferred ->
  (0 < N <= 2 ^ 32)%Z ->
  (preferred <> [] ->
   (Z.of_nat (List.length
                (filter (fun lang =>
                           existsb (fun p => String.eqb (toLowerCase p) (toLowerCase lang))
                                   preferred)
                        candidate))
    <= Z.min (2 ^ 32) (N * Z.of_nat (List.length preferred)))%Z) ->
  atMost (Z2F (100 * N)) (calculateLanguageMatch candidate preferred).
Proof.
  unfold jsArray, calculateLanguageMatch. intros Hp HN Hcount.
  assert (H32 : (2 ^ 32 < 2 ^ 53 /\ 100 * 2 ^ 32 < 2 ^ 53)%Z)
    by (split; reflexivity).
  assert (H100 : (100 * N < 2 ^ 53)%Z) by lia.
  pose proof (fkey_Z2F (100 * N) ltac:(lia)) as K100N.
  destruct preferred as [|p preferred]; cbn [Nat.eqb List.length] in *.
  - split; [vm_compute; reflexivity|].
    change 100 with (Z2F 100). rewrite K100N, fkey_Z2F by lia.
    apply Z.mul_le_mono_nonneg_r; [apply Z.pow_nonneg|]; lia.
  - specialize (Hcount ltac:(discriminate)).
    set (count := Z.of_nat (List.length (filter _ candidate))) in *.
    set (len := Z.of_nat (S (List.length preferred))) in *.
    assert (Hlen : (0 < len < 2 ^ 32)%Z) by (unfold len; lia).
    assert (Hc : (0 <= count < 2 ^ 53)%Z) by (unfold count in *; lia).
    assert (Hq : atMost (Z2F N) (Z2F count / Z2F len))
      by (apply atMost_div_Z2F; lia).
    assert (HNf : posFinite (Z2F N)).
    { apply Z2F_posFinite. assert (2 ^ 32 < 2 ^ 63)%Z by reflexivity. lia. }
    assert (H100f : posFinite (Z2F (100 * N))).
    { apply Z2F_posFinite. assert (2 ^ 53 < 2 ^ 63)%Z by reflexivity. lia. }
    destruct Hq as [Hqf Hqk].
    apply atMost_mul; try assumption.
    + vm_compute. reflexivity.
    + pose proof (posFinite_key _ HNf). lia.
    + vm_compute. reflexivity.
    + rewrite K100N. change 100 with (Z2F 100). rewrite (fkey_Z2F 100) by lia.
      rewrite fkey_Z2F in Hqk by lia.
      pose proof (fine_key_nonneg _ Hqf) as Hq0.
      assert (H1074 : (0 < 2 ^ 1074)%Z) by (apply pow2_pos; lia).
      transitivity (N * 2 ^ 1074 * (100 * 2 ^ 1074))%Z;
        [apply Z.mul_le_mono_nonneg_r; lia|apply Z.eq_le_incl; ring].
Qed.

(** One more term of the sum: a weighted sub-score that is one of the
    values of a list. *)
Lemma atMost_term s a w l n j :
  atMost (Z2F n) s -> In a l ->
  Forall (fun c => atMost (Z2F j) (c * w)) l ->
  (0 <= n)%Z -> (0 <= j)%Z -> (n + j < 2 ^ 53)%Z ->
  atMost (Z2F (n + j)) (s + a * w).
Proof.
  intros [Hs Hsk] Ha Hl Hn Hj Hnj.
  rewrite Forall_forall in Hl. destruct (Hl a Ha) as [Ht Htk].
  rewrite fkey_Z2F in Hsk, Htk by lia.
  destruct (Z.eq_dec (n + j) 0) as [Hz|Hnz].
  - assert (n = 0%Z /\ j = 0%Z) as [-> ->] by lia.
    pose proof (fine_key_nonneg _ Hs). pose proof (fine_key_nonneg _ Ht).
    assert (Hs0 : fkey s = 0%Z) by lia. assert (Ht0 : fkey (a * w) = 0%Z) by lia.
    split; [now apply fine_add|].
    change (Z2F (0 + 0)) with 0. change (fkey 0) with 0%Z.
    unfold fine, fkey in *. rewrite add_spec. unfold SF64add.
    pose proof (Prim2SF_valid s) as Vs. pose proof (Prim2SF_valid (a * w)) as Vt.
    destruct (Prim2SF s) as [ss|ss| |ss ms es], (Prim2SF (a * w)) as [st|st| |st mt et];
      cbn [fineSF] in Hs, Ht; try contradiction; subst;
      try (pose proof (key_finite_bound _ _ _ Vs));
      try (pose proof (key_finite_bound _ _ _ Vt));
      cbn [key cond_Zopp SFadd] in *; pose proof keyInf_pos; lia.
  - apply atMost_add; try assumption.
    + apply Z2F_posFinite. assert (2 ^ 53 < 2 ^ 63)%Z by reflexivity. lia.
    + rewrite fkey_Z2F by lia. lia.
Qed.

Ltac by_evaluation := vm_compute; reflexivity.

Ltac bounded_constants :=
  repeat (apply Forall_cons;
          [split; [vm_compute; reflexivity|vm_compute; discriminate]|]);
  apply Forall_nil.

Lemma fine_nonneg x : fine x -> nonneg x.
Proof. unfold fine, nonneg. destruct (Prim2SF x); simpl; tauto. Qed.

(** The score is an integer, at most [30 * N + 70] when the language
    sub-score is at most [100 * N]. *)
Lemma calculateMatchScore_atMost clock auPair host N :
  (0 < N <= 2 ^ 32)%Z ->
  atMost (Z2F (100 * N))
         (calculateLanguageMatch (orEmpty (languages auPair))
                                 (orEmpty (preferredLanguages host))) ->
  atMost (Z2F (30 * N + 70)) (calculateMatchScore clock auPair host)
  /\ isInteger (calculateMatchScore clock auPair host) = true.
Proof.
  intros HN HL. unfold calculateMatchScore. cbv zeta.
  set (L := calculateLanguageMatch _ _) in *.
  assert (H32 : (100 * 2 ^ 32 < 2 ^ 52)%Z) by reflexivity.
  assert (H63 : (2 ^ 53 < 2 ^ 63)%Z) by reflexivity.
  assert (H1074 : (0 < 2 ^ 1074)%Z) by (apply pow2_pos; lia).
  (* the language term *)
  assert (H1 : atMost (Z2F (30 * N)) (0 + L * 0.3)).
  { destruct HL as [HLf HLk]. rewrite (fkey_Z2F (100 * N)) in HLk by lia.
    assert (Hm : atMost (Z2F (30 * N)) (L * 0.3)).
    { apply atMost_mul; [assumption|by_evaluation| |by_evaluation| |].
      - apply (atMost_finite (Z2F (100 * N))); [|apply Z2F_posFinite; lia].
        split; [assumption|]. rewrite (fkey_Z2F (100 * N)) by lia. assumption.
      - apply Z2F_posFinite. lia.
      - rewrite (fkey_Z2F (30 * N)) by lia.
        assert (Hw : (10 * fkey 0.3%float <= 3 * 2 ^ 1074)%Z) by (vm_compute; discriminate).
        pose proof (fine_key_nonneg _ HLf) as HL0.
        assert (H03 : (0 <= fkey 0.3%float)%Z) by (vm_compute; discriminate).
        transitivity (100 * N * 2 ^ 1074 * fkey 0.3%float)%Z;
          [apply Z.mul_le_mono_nonneg_r; assumption|].
        replace (100 * N * 2 ^ 1074 * fkey 0.3%float)%Z
          with (10 * N * 2 ^ 1074 * (10 * fkey 0.3%float))%Z by ring.
        replace (30 * N * 2 ^ 1074 * 2 ^ 1074)%Z
          with (10 * N * 2 ^ 1074 * (3 * 2 ^ 1074))%Z by ring.
        apply Z.mul_le_mono_nonneg_l; [|assumption].
        apply Z.mul_nonneg_nonneg; lia. }
    rewrite add_0_l; [assumption|]. apply fine_nonneg. apply Hm. }
  (* the country *)
  assert (H2 : atMost (Z2F (30 * N + 25))
                 (if includes (preferredCountries auPair) (country host)
                  then 0 + L * 0.3 + 25 else 0 + L * 0.3)).
  { destruct H1 as [H1f H1k]. rewrite (fkey_Z2F (30 * N)) in H1k by lia.
    destruct (includes _ _).
    - apply atMost_add; [assumption|by_evaluation|apply Z2F_posFinite; lia|].
      change 25 with (Z2F 25).
      rewrite (fkey_Z2F 25), (fkey_Z2F (30 * N + 25)) by lia. lia.
    - split; [assumption|]. rewrite (fkey_Z2F (30 * N + 25)) by lia. lia. }
  (* age, availability and budget *)
  assert (H3 : forall s, atMost (Z2F (30 * N + 25)) s ->
            atMost (Z2F (30 * N + 25 + 20))
              (s + calculateAgeMatch (dateNow clock) (dateOfBirth auPair)
                     (orEmpty (childrenAges host)) * 0.2)).
  { intros s Hs. apply atMost_term with (l := [50; 100; 70; 30]); try assumption; try lia.
    - apply calculateAgeMatch_range.
    - bounded_constants. }
  assert (H4 : forall s, atMost (Z2F (30 * N + 25 + 20)) s ->
            atMost (Z2F (30 * N + 25 + 20 + 15))
              (s + calculateAvailabilityMatch (availableFrom auPair) (availableTo auPair)
                     (Some (newDate clock)) * 0.15)).
  { intros s Hs. apply atMost_term with (l := [50; 100; 80; 60; 30; 10]);
      try assumption; try lia.
    - apply calculateAvailabilityMatch_range.
    - bounded_constants. }
  assert (H5 : forall s, atMost (Z2F (30 * N + 25 + 20 + 15)) s ->
            atMost (Z2F (30 * N + 25 + 20 + 15 + 10))
              (s + calculateBudgetMatch (hourlyRate auPair) (maxBudget host) * 0.1)).
  { intros s Hs. apply atMost_term with (l := [50; 100; 70; 40; 10]);
      try assumption; try lia.
    - apply calculateBudgetMatch_range.
    - bounded_constants. }
  pose proof (H5 _ (H4 _ (H3 _ H2))) as [Hf Hk].
  replace (30 * N + 25 + 20 + 15 + 10)%Z with (30 * N + 70)%Z in Hk by lia.
  rewrite (fkey_Z2F (30 * N + 70)) in Hk by lia.
  apply Math_round_atMost; [assumption|lia|assumption].
Qed.

(** X29.  For profiles whose language lists fit JS arrays, the score is a
    finite integer that is not negative. *)
Theorem calculateMatchScore_is_an_integer clock auPair host :
  jsArray (orEmpty (languages auPair)) ->
  jsArray (orEmpty (preferredLanguages host)) ->
  isInteger (calculateMatchScore clock auPair host) = true
  /\ (0 <=? calculateMatchScore clock auPair host) = true
  /\ (calculateMatchScore clock auPair host <? 0) = false.
Proof.
  intros Hc Hp.
  destruct (calculateMatchScore_atMost clock auPair host (2 ^ 32)) as [[Hf Hk] Hi].
  - split; [reflexivity|lia].
  - apply calculateLanguageMatch_atMost; [assumption|split; [reflexivity|lia]|].
    intros Hne. unfold jsArray in Hc.
    pose proof (matching_le_candidates (orEmpty (languages auPair))
                  (orEmpty (preferredLanguages host))) as Hm.
    destruct (orEmpty (preferredLanguages host)) as [|p l]; [congruence|].
    cbn [List.length] in *. lia.
  - pose proof (fine_not_nan _ Hf) as Hn.
    pose proof (fine_key_nonneg _ Hf) as H0.
    split; [assumption|]. split.
    + rewrite leb_fkey by (try assumption; reflexivity).
      change (fkey 0) with 0%Z. now apply Z.leb_le.
    + rewrite ltb_fkey by (try assumption; reflexivity).
      change (fkey 0) with 0%Z. now apply Z.ltb_ge.
Qed.

(** X30.  An au pair who names no language twice (whatever the case of
    the letters) gets a score within the scale: an integer from 0 to 100,
    for every host family whose preferred languages fit a JS array. *)
Theorem calculateMatchScore_within_scale clock auPair host :
  distinctUpToCase (orEmpty (languages auPair)) ->
  jsArray (orEmpty (preferredLanguages host)) ->
  isInteger (calculateMatchScore clock auPair host) = true
  /\ (0 <=? calculateMatchScore clock auPair host) = true
  /\ (calculateMatchScore clock auPair host <=? 100) = true.
Proof.
  intros Hd Hp.
  destruct (calculateMatchScore_atMost clock auPair host 1) as [[Hf Hk] Hi].
  - split; [lia|]. apply Z.pow_le_mono_r with (b := 0%Z); lia.
  - apply calculateLanguageMatch_atMost; [assumption| |].
    + split; [lia|]. apply Z.pow_le_mono_r with (b := 0%Z); lia.
    + intros _. unfold jsArray in Hp.
      pose proof (matching_le_preferred _ (orEmpty (preferredLanguages host)) Hd) as Hm.
      lia.
  - pose proof (fine_not_nan _ Hf) as Hn.
    pose proof (fine_key_nonneg _ Hf) as H0.
    split; [assumption|]. split.
    + rewrite leb_fkey by (try assumption; reflexivity).
      change (fkey 0) with 0%Z. now apply Z.leb_le.
    + rewrite leb_fkey by (try assumption; reflexivity).
      apply Z.leb_le. exact Hk.
Qed.

End ScoreRange.

Section ScoreRangeExamples.

Import Examples.

Local Open Scope string_scope.

(** The four spellings of one language get a score that is an integer,
    though above 100. *)
Lemma calculateMatchScore_is_an_integer_witness :
  isInteger (calculateMatchScore clock0 fourSpellings wantsEnglish) = true
  /\ (0 <=? calculateMatchScore clock0 fourSpellings wantsEnglish)%float = true
  /\ (calculateMatchScore clock0 fourSpellings wantsEnglish <? 0)%float = false.
Proof.
  apply calculateMatchScore_is_an_integer; unfold jsArray; simpl; lia.
Defined.

(** Two languages, each named once. *)
Lemma calculateMatchScore_within_scale_witness :
  isInteger (calculateMatchScore clock0 (speaks ["French"; "English"])
                                 (prefers ["french"])) = true
  /\ (0 <=? calculateMatchScore clock0 (speaks ["French"; "English"])
                                (prefers ["french"]))%float = true
  /\ (calculateMatchScore clock0 (speaks ["French"; "English"])
                          (prefers ["french"]) <=? 100)%float = true.
Proof.
  apply calculateMatchScore_within_scale.
  - unfold distinctUpToCase. simpl.
    repeat constructor; simpl; intuition discriminate.
  - unfold jsArray. simpl. lia.
Defined.

End ScoreRangeExamples.
